(** * Verification of the task-SDK structured logging module

    A shallow embedding of [task-sdk/src/airflow/sdk/log.py]: the event
    record processors, the terminal JSON serializer, the exception-group
    flattening processor, the memoized configuration entry point with its
    warnings bridge, the binary stream handler and the log-file helpers.

    Python objects are modelled by the data they carry: an event record
    ([dict], insertion ordered, unique keys) is an association list, a
    raised exception is a value of a result type, module globals and the
    [functools.cache] tables are fields of an explicit state. *)

From Stdlib Require Import String Ascii ZArith List Bool Lia.
From stdpp Require Import base option list strings gmap.
Import ListNotations.

Local Open Scope string_scope.
Local Open Scope list_scope.
Local Set Warnings "-register-all".

(** ** Python values *)

Module Py.

(** [exc.__traceback__]: the frames of the traceback, or [None]. *)
Definition traceback := option (list string).

(** An exception instance. [ExcGroup] stands for the instances of the
    builtin [BaseExceptionGroup] (and of its subclasses), [Exc] for every
    other exception; [ty] is [type(exc)], [tb] is [exc.__traceback__]. *)
Inductive exn : Type :=
| Exc (ty : string) (msg : string) (tb : traceback)
| ExcGroup (ty : string) (msg : string) (tb : traceback) (exceptions : list exn).

Definition exn_type (e : exn) : string :=
  match e with Exc ty _ _ | ExcGroup ty _ _ _ => ty end.

Definition exn_traceback (e : exn) : traceback :=
  match e with Exc _ _ tb | ExcGroup _ _ tb _ => tb end.

(** The values an event record holds. *)
Inductive value : Type :=
| VNone
| VBool (b : bool)
| VInt (z : Z)
| VStr (s : string)
| VTuple (items : list value)
| VList (items : list value)
| VDict (items : list (string * value))
| VType (name : string)
| VExc (e : exn)
| VTraceback (frames : list string).

(** Truth value of an object, as tested by [if x:]. *)
Definition truthy (v : value) : bool :=
  match v with
  | VNone => false
  | VBool b => b
  | VInt z => negb (Z.eqb z 0)
  | VStr s => negb (String.eqb s "")
  | VTuple [] | VList [] | VDict [] => false
  | _ => true
  end.

(** [isinstance(v, str) and v.startswith(p)] *)
Definition str_startswith (p : string) (v : value) : bool :=
  match v with
  | VStr s => String.prefix p s
  | _ => false
  end.

(** *** Dictionaries

    A [dict] keeps its keys unique and in insertion order. *)

Definition dict := list (string * value).

Definition keys (d : dict) : list string := map fst d.

Definition wf_dict (d : dict) : Prop := NoDup (keys d).

(** [d.get(k, None)], with [None] as an [option]. *)
Fixpoint dict_get (k : string) (d : dict) : option value :=
  match d with
  | [] => None
  | (k', v) :: r => if String.eqb k k' then Some v else dict_get k r
  end.

(** [d[k] = v]: an existing key keeps its position, a new key goes last. *)
Fixpoint dict_set (k : string) (v : value) (d : dict) : dict :=
  match d with
  | [] => [(k, v)]
  | (k', v') :: r =>
      if String.eqb k k' then (k', v) :: r else (k', v') :: dict_set k v r
  end.

(** The items left after removing key [k]. *)
Fixpoint dict_remove (k : string) (d : dict) : dict :=
  match d with
  | [] => []
  | (k', v) :: r => if String.eqb k k' then r else (k', v) :: dict_remove k r
  end.

(** [d.pop(k)]: the value and the remaining dictionary; [None] stands for
    [KeyError]. *)
Definition dict_pop (k : string) (d : dict) : option (value * dict) :=
  match dict_get k d with
  | Some v => Some (v, dict_remove k d)
  | None => None
  end.

(** [d.pop(k, None)]: never raises. *)
Definition dict_pop_default (k : string) (d : dict) : option value * dict :=
  (dict_get k d, dict_remove k d).

(** [d.setdefault(k, v)] *)
Definition dict_setdefault (k : string) (v : value) (d : dict) : dict :=
  match dict_get k d with
  | Some _ => d
  | None => dict_set k v d
  end.

(** [d.update(other)], also the [**other] of a dict display. *)
Definition dict_update (d other : dict) : dict :=
  fold_left (fun acc kv => dict_set (fst kv) (snd kv) acc) other d.

(** *** Raised exceptions

    What a call can raise, by the class an [except] clause tests.
    [RecursionError] is a subclass of [Exception]; the classes gathered
    under [OSError] are [OSError] and its subclasses ([FileExistsError],
    [PermissionError], ...); [OtherException] is any other subclass of
    [Exception]; [BaseExceptionOnly] is a [BaseException] that is not an
    [Exception] ([KeyboardInterrupt], [SystemExit], [GeneratorExit]). *)
Inductive raised : Type :=
| KeyError (key : string)
| ValueError (msg : string)
| AttributeError (attr : string)
| TypeError (msg : string)
| OSError (kind : string)
| RecursionError
| OtherException (name : string)
| BaseExceptionOnly (name : string).

(** [isinstance(e, RecursionError)] *)
Definition is_RecursionError (e : raised) : bool :=
  match e with RecursionError => true | _ => false end.

(** [isinstance(e, Exception)] *)
Definition is_Exception (e : raised) : bool :=
  match e with BaseExceptionOnly _ => false | _ => true end.

(** [isinstance(e, OSError)] *)
Definition is_OSError (e : raised) : bool :=
  match e with OSError _ => true | _ => false end.

(** The outcome of a call: it returns a value or raises. *)
Inductive result (A : Type) : Type :=
| Return (a : A)
| Raise (e : raised).
Arguments Return {A} a.
Arguments Raise {A} e.

(** *** Calls that read and write a state, and may raise

    A raise keeps the writes made before it. The sequencing is written
    [x ← m; k] and [m;; k]. *)
Definition M (S A : Type) : Type := S -> result A * S.

Definition ret {S A} (a : A) : M S A := fun s => (Return a, s).

Definition raise {S A} (e : raised) : M S A := fun s => (Raise e, s).

Definition bind {S A B} (m : M S A) (f : A -> M S B) : M S B :=
  fun s =>
    match m s with
    | (Return a, s1) => f a s1
    | (Raise e, s1) => (Raise e, s1)
    end.

Definition gets {S A} (f : S -> A) : M S A := fun s => (Return (f s), s).

Definition modify {S} (f : S -> S) : M S unit := fun s => (Return tt, f s).

#[global] Instance M_ret {S} : MRet (M S) := @ret S.
#[global] Instance M_bind {S} : MBind (M S) := fun A B f m => bind m f.

End Py.

Import Py.

(** ** Event record processors *)

Module Processors.

(** [redact_jwt]. The loop walks [event_dict.items()] and assigns to the
    key it is visiting; no key is added or removed, so the walk sees the
    items of the record it started with. The [logger] and [method_name]
    arguments are not used by the body and are left out. *)
Definition redact_jwt (event_dict : dict) : dict :=
  fold_left
    (fun d kv =>
       if str_startswith "eyJ" (snd kv)
       then dict_set (fst kv) (VStr "eyJ***") d
       else d)
    event_dict event_dict.

(** [logger_name] *)
Definition logger_name (event_dict : dict) : dict :=
  match dict_pop_default "logger_name" event_dict with
  | (Some v, d) => if truthy v then dict_setdefault "logger" v d else d
  | (None, d) => d
  end.

(** [drop_positional_args] *)
Definition drop_positional_args (event_dict : dict) : dict :=
  snd (dict_pop_default "positional_args" event_dict).

(** *** The terminal JSON serializer *)

Section Json.

(** [msgspec.json.encode] of one value with [enc_hook=default]; it raises
    on a value it cannot encode. *)
Variable enc_value : value -> result string.

(** Modelled from the spec: [msgspec.json.encode] of a mapping is not code
    of this module; it writes the members of the object in the iteration
    order of the [dict] (section 6, the JSON record wire format). The
    emitted object is the list of its members, key and encoded value. *)
Fixpoint msgspec_json_encode (msg : dict) : result (list (string * string)) :=
  match msg with
  | [] => Return []
  | (k, v) :: r =>
      match enc_value v with
      | Raise e => Raise e
      | Return j =>
          match msgspec_json_encode r with
          | Raise e => Raise e
          | Return js => Return ((k, j) :: js)
          end
      end
  end.

(** [json_dumps], the serializer given to [JSONRenderer] inside
    [logging_processors]. The dict display evaluates its three [pop] calls
    left to right, each on the record the previous one left, and a missing
    key raises [KeyError]. *)
Definition json_dumps (msg : dict) : result (list (string * string)) :=
  match dict_pop "timestamp" msg with
  | None => Raise (KeyError "timestamp")
  | Some (timestamp, msg1) =>
      match dict_pop "level" msg1 with
      | None => Raise (KeyError "level")
      | Some (level, msg2) =>
          match dict_pop "event" msg2 with
          | None => Raise (KeyError "event")
          | Some (event, msg3) =>
              msgspec_json_encode
                (dict_update
                   (dict_set "event" event
                      (dict_set "level" level
                         (dict_set "timestamp" timestamp [])))
                   msg3)
          end
      end
  end.

End Json.

(** *** Exception groups *)

(** The triple [(type(exc), exc, exc.__traceback__)]. *)
Definition ExcInfo : Type := string * exn * traceback.

Definition traceback_value (tb : traceback) : value :=
  match tb with
  | Some frames => VTraceback frames
  | None => VNone
  end.

(** [sys.exc_info()], given the exception being handled, if any. *)
Definition sys_exc_info (active : option exn) : value :=
  match active with
  | Some e => VTuple [VType (exn_type e); VExc e; traceback_value (exn_traceback e)]
  | None => VTuple [VNone; VNone; VNone]
  end.

(** [group.exceptions] *)
Definition group_exceptions (g : exn) : list exn :=
  match g with
  | ExcGroup _ _ _ exceptions => exceptions
  | Exc _ _ _ => []
  end.

(** What a local name of an enclosing function can be when a nested
    function reads it. *)
Inductive closure_cell : Type :=
| Unbound
| PlaceholderClass.

Section ExceptionGroups.

(** [hasattr(__builtins__, "BaseExceptionGroup")], the guard of line 47.
    In an imported module [__builtins__] is a dict and the guard is
    false; it is true where [__builtins__] is the module [builtins] of a
    runtime that has the class. *)
Variable has_BaseExceptionGroup : bool.

(** The exception being handled when the processor runs. *)
Variable active : option exn.

(** The argument of [exception_group_tracebacks]. *)
Variable format_exception : ExcInfo -> list value.

(** The name [BaseExceptionGroup] as the nested function reads it. The
    [class] statement of line 50 makes it a local name of
    [exception_group_tracebacks]: it is bound to the placeholder class
    when the guard lets the statement run and is left unbound otherwise;
    the builtin of that name is never looked up. *)
Definition BaseExceptionGroup : closure_cell :=
  if has_BaseExceptionGroup then Unbound else PlaceholderClass.

(** [isinstance(v, BaseExceptionGroup)]: reading the unbound name raises
    [NameError]; nothing a record holds is an instance of the
    placeholder class. *)
Definition isinstance_BaseExceptionGroup (v : value) : result bool :=
  match BaseExceptionGroup with
  | Unbound => Raise (OtherException "NameError")
  | PlaceholderClass => Return false
  end.

(** Lines 56 to 60: [True] stands for the exception being handled. *)
Definition resolve_exc_info (exc_info : value) : value :=
  match exc_info with
  | VBool true =>
      match sys_exc_info active with
      | VTuple (VNone :: _) => VNone
      | info => info
      end
  | _ => exc_info
  end.

(** The exception a value is, if it is one. *)
Definition as_exception (v : value) : option exn :=
  match v with
  | VExc e => Some e
  | _ => None
  end.

(** The [elif] of line 68. *)
Definition find_group_instance (exc_info : value) : result (option exn) :=
  match isinstance_BaseExceptionGroup exc_info with
  | Raise e => Raise e
  | Return true => Return (as_exception exc_info)
  | Return false => Return None
  end.

(** Lines 62 to 69: the value of [group]. The conditions are evaluated
    from left to right, the second [isinstance] only when the first
    condition is false. *)
Definition find_group (exc_info : value) : result (option exn) :=
  match exc_info with
  | VTuple [_; v; _] =>
      match isinstance_BaseExceptionGroup v with
      | Raise e => Raise e
      | Return true => Return (as_exception v)
      | Return false => find_group_instance exc_info
      end
  | _ => find_group_instance exc_info
  end.

(** The processor returned by [exception_group_tracebacks]. *)
Definition exception_group_tracebacks (event_dict : dict) : result dict :=
  match dict_get "exc_info" event_dict with
  | None => Return event_dict
  | Some exc_info0 =>
      if truthy exc_info0 then
        match find_group (resolve_exc_info exc_info0) with
        | Raise e => Raise e
        | Return (Some group) =>
            Return
              (dict_set "exception"
                 (VList
                    (flat_map
                       (fun exc =>
                          format_exception
                            (exn_type exc, exc, exn_traceback exc))
                       (group_exceptions group ++ [group])))
                 (dict_remove "exc_info" event_dict))
        | Return None => Return event_dict
        end
      else Return event_dict
  end.

End ExceptionGroups.

End Processors.

(** ** The binary stream handler *)

Module Handler.

(** A [str] is a sequence of code points; lone surrogates (U+D800 to
    U+DFFF) can occur in it and have no UTF-8 encoding. A byte is an
    integer below 256. *)
Definition pystr := list Z.
Definition bytes := list Z.

Definition is_surrogate (c : Z) : bool :=
  (55296 <=? c)%Z && (c <=? 57343)%Z.

(** The UTF-8 bytes of one code point, [None] if it has none. *)
Definition utf8_char (c : Z) : option bytes :=
  if (c <? 128)%Z then Some [c]
  else if (c <? 2048)%Z then
    Some [Z.lor 192 (Z.shiftr c 6); Z.lor 128 (Z.land c 63)]
  else if is_surrogate c then None
  else if (c <? 65536)%Z then
    Some [Z.lor 224 (Z.shiftr c 12);
          Z.lor 128 (Z.land (Z.shiftr c 6) 63);
          Z.lor 128 (Z.land c 63)]
  else
    Some [Z.lor 240 (Z.shiftr c 18);
          Z.lor 128 (Z.land (Z.shiftr c 12) 63);
          Z.lor 128 (Z.land (Z.shiftr c 6) 63);
          Z.lor 128 (Z.land c 63)].

(** The lower-case hexadecimal digit of a value below 16, as a byte. *)
Definition hex_digit (n : Z) : Z :=
  if (n <? 10)%Z then (48 + n)%Z else (87 + n)%Z.

(** The escape the "backslashreplace" handler writes for a code point of
    the basic plane: a backslash, the letter u and four digits. *)
Definition backslash_escape (c : Z) : bytes :=
  [92%Z; 117%Z;
   hex_digit (Z.land (Z.shiftr c 12) 15);
   hex_digit (Z.land (Z.shiftr c 8) 15);
   hex_digit (Z.land (Z.shiftr c 4) 15);
   hex_digit (Z.land c 15)].

(** The [errors] argument of an encoding call. *)
Inductive error_handler : Type := Strict | BackslashReplace.

(** [bytearray(msg, "utf-8", errors)]: the codec of the language runtime.
    With "strict" an unencodable code point raises [UnicodeEncodeError], a
    [ValueError]. *)
Fixpoint utf8_encode (errors : error_handler) (msg : pystr) : result bytes :=
  match msg with
  | [] => Return []
  | c :: rest =>
      match utf8_char c, errors with
      | None, Strict => Raise (ValueError "UnicodeEncodeError")
      | o, _ =>
          match utf8_encode errors rest with
          | Raise e => Raise e
          | Return bs => Return (default (backslash_escape c) o ++ bs)
          end
      end
  end.

(** The output stream: the bytes it has accepted, how many of them a
    [flush] has pushed out, and whether [write] or [flush] fails (a closed
    or broken channel). *)
Record stream : Type := {
  written : bytes;
  flushed : nat;
  write_fault : option raised;
  flush_fault : option raised
}.

Definition stream_write (buffer : bytes) (s : stream) : result unit * stream :=
  match write_fault s with
  | Some e => (Raise e, s)
  | None =>
      (Return tt,
       {| written := written s ++ buffer; flushed := flushed s;
          write_fault := write_fault s; flush_fault := flush_fault s |})
  end.

Definition stream_flush (s : stream) : result unit * stream :=
  match flush_fault s with
  | Some e => (Raise e, s)
  | None =>
      (Return tt,
       {| written := written s; flushed := length (written s);
          write_fault := write_fault s; flush_fault := flush_fault s |})
  end.

Section Emit.

(** [logging.LogRecord] *)
Variable LogRecord : Type.

(** [self.format(record)], the formatter set on the handler. *)
Variable format : LogRecord -> result pystr.

(** [StdBinaryStreamHandler]: its stream, and the records passed to
    [handleError]. *)
Record handler : Type := {
  h_stream : stream;
  h_handled : list LogRecord
}.

(** Modelled from the spec: [logging.Handler.handleError] is the standard
    library's fallback for a broken log sink; it reports the record on the
    fallback channel and returns. *)
Definition handleError (h : handler) (record : LogRecord) : result unit * handler :=
  (Return tt, {| h_stream := h_stream h; h_handled := h_handled h ++ [record] |}).

(** The body of the [try] block of [emit]. *)
Definition emit_try (h : handler) (record : LogRecord) : result unit * handler :=
  match format record with
  | Raise e => (Raise e, h)
  | Return msg =>
      match utf8_encode BackslashReplace msg with
      | Raise e => (Raise e, h)
      | Return encoded =>
          let buffer := encoded ++ [10%Z] in
          match stream_write buffer (h_stream h) with
          | (Raise e, s1) =>
              (Raise e, {| h_stream := s1; h_handled := h_handled h |})
          | (Return _, s1) =>
              match stream_flush s1 with
              | (r, s2) => (r, {| h_stream := s2; h_handled := h_handled h |})
              end
          end
      end
  end.

(** [StdBinaryStreamHandler.emit]: the [try] block and its two [except]
    clauses. *)
Definition emit (h : handler) (record : LogRecord) : result unit * handler :=
  match emit_try h record with
  | (Return tt, h1) => (Return tt, h1)
  | (Raise e, h1) =>
      if is_RecursionError e then (Raise e, h1)
      else if is_Exception e then handleError h1 record
      else (Raise e, h1)
  end.

End Emit.

Arguments Build_handler {LogRecord} _ _.
Arguments h_stream {LogRecord} _.
Arguments h_handled {LogRecord} _.
Arguments handleError {LogRecord} _ _.
Arguments emit_try {LogRecord} _ _ _.
Arguments emit {LogRecord} _ _ _.

End Handler.

(** ** The configuration entry point *)

Module Configure.

(** [str.lower] and [str.upper] on ASCII text. *)
Definition ascii_lower (c : ascii) : ascii :=
  let n := nat_of_ascii c in
  if (65 <=? n)%nat && (n <=? 90)%nat then ascii_of_nat (n + 32) else c.

Definition ascii_upper (c : ascii) : ascii :=
  let n := nat_of_ascii c in
  if (97 <=? n)%nat && (n <=? 122)%nat then ascii_of_nat (n - 32) else c.

Fixpoint lower (s : string) : string :=
  match s with
  | EmptyString => EmptyString
  | String c r => String (ascii_lower c) (lower r)
  end.

Fixpoint upper (s : string) : string :=
  match s with
  | EmptyString => EmptyString
  | String c r => String (ascii_upper c) (upper r)
  end.

(** [c in s] for a one-character [c]. *)
Fixpoint contains_char (c : ascii) (s : string) : bool :=
  match s with
  | EmptyString => false
  | String c' r => Ascii.eqb c c' || contains_char c r
  end.

(** The functions [warnings.showwarning] can be bound to: the one the
    [warnings] module starts with, one installed by the host program, and
    this module's [_showwarning]. *)
Inductive callable : Type :=
| WarningsDefault
| HostFunction (n : nat)
| Bridge.

(** A stream passed as [output]: its identity, its [mode] attribute if it
    has one, whether it has a [buffer] attribute, and whether
    [isinstance(output, TextIO)] holds. *)
Record stream_obj : Type := {
  stream_id : nat;
  mode : option string;
  has_buffer : bool;
  is_TextIO : bool
}.

(** What the logger factory or the handler writes to. *)
Inductive sink : Type :=
| RawStream (o : stream_obj)
| TextIOWrapper (o : stream_obj)
| BufferOf (o : stream_obj).

(** The processors the module puts in its chains. *)
Inductive processor : Type :=
| MaybeTimeStamper (fmt : string)
| merge_contextvars
| add_log_level
| PositionalArgumentsFormatter
| logger_name
| redact_jwt
| StackInfoRenderer
| ConsoleRenderer
| exception_group_tracebacks
| ExceptionRenderer
| UnicodeDecoder
| JSONRenderer
| stdlib_add_log_level
| add_logger_name
| remove_processors_meta
| drop_positional_args
| json_processor.

(** The second component of what [logging_processors] returns: one dict
    shape per branch. *)
Inductive named_hooks : Type :=
| PrettyHooks (timestamper console : processor)
| StructuredHooks (timestamper : processor)
    (exc_group_processor : option processor)
    (dict_tracebacks json : processor).

(** The tuple returned by [logging_processors], with the identity of the
    tuple object. *)
Record processors_result : Type := {
  pr_id : nat;
  pr_processors : list processor;
  pr_named : named_hooks
}.

Inductive logger_factory : Type :=
| WriteLoggerFactory (file : option sink)
| BytesLoggerFactory (file : option sink).

(** The keyword arguments of [structlog.configure]; the wrapper class is
    given by the level it filters at. *)
Record structlog_configuration : Type := {
  sc_processors : list processor;
  sc_cache_logger_on_first_use : bool;
  sc_wrapper_level : Z;
  sc_logger_factory : logger_factory
}.

(** The parts of the [dictConfig] argument that vary. The root logger
    stays at "INFO", "httpx" and "sqlalchemy.engine" at "WARN". *)
Record dict_config : Type := {
  plain_processors : list processor;
  colored_processors : list processor;
  foreign_pre_chain : list processor;
  handlers_level : string;
  handlers_formatter : string;
  to_supervisor_stream : option sink;
  root_handlers : list string;
  airflow_level : string
}.

(** The calls made to the two configuration functions, newest first. *)
Inductive effect : Type :=
| StructlogConfigure (c : structlog_configuration)
| DictConfig (c : dict_config).

(** The arguments of a call of [configure_logging] as they are written.
    [functools.cache] keys on the tuple of positional arguments followed
    by the keyword arguments in the order given, not on the values the
    parameters get: an argument passed by position, the same argument
    passed by keyword, a default written out or left out, and two
    orders of the same keywords are different keys. The arguments have
    the types the signature gives them. *)
Inductive positional_args : Type :=
| Args0
| Args1 (a1 : bool)
| Args2 (a1 : bool) (a2 : string)
| Args3 (a1 : bool) (a2 : string) (a3 : option stream_obj)
| Args4 (a1 : bool) (a2 : string) (a3 : option stream_obj) (a4 : bool)
| Args5 (a1 : bool) (a2 : string) (a3 : option stream_obj) (a4 a5 : bool).

Inductive keyword_arg : Type :=
| kw_enable_pretty_log (v : bool)
| kw_log_level (v : string)
| kw_output (v : option stream_obj)
| kw_cache_logger_on_first_use (v : bool)
| kw_sending_to_supervisor (v : bool).

(** The number of positional arguments, and the place of the parameter a
    keyword names. *)
Definition arity (p : positional_args) : nat :=
  match p with
  | Args0 => 0
  | Args1 _ => 1
  | Args2 _ _ => 2
  | Args3 _ _ _ => 3
  | Args4 _ _ _ _ => 4
  | Args5 _ _ _ _ _ => 5
  end.

Definition position (k : keyword_arg) : nat :=
  match k with
  | kw_enable_pretty_log _ => 0
  | kw_log_level _ => 1
  | kw_output _ => 2
  | kw_cache_logger_on_first_use _ => 3
  | kw_sending_to_supervisor _ => 4
  end.

Fixpoint distinct (l : list nat) : bool :=
  match l with
  | [] => true
  | x :: r => negb (existsb (Nat.eqb x) r) && distinct r
  end.

(** Whether the arguments can be bound to the parameters: no keyword
    names a parameter already filled by position, and no keyword comes
    twice. Arguments that cannot be bound raise [TypeError] at the call,
    before the body, and leave nothing in the cache. *)
Definition binds (p : positional_args) (ks : list keyword_arg) : bool :=
  forallb (fun k => Nat.leb (arity p) (position k)) ks
  && distinct (map position ks).

(** A call of [configure_logging] whose arguments can be bound. *)
Record call : Type := {
  positional : positional_args;
  keywords : list keyword_arg;
  call_binds : Is_true (binds positional keywords)
}.

(** The parameters of the body, defaults filled in. *)
Record params : Type := {
  enable_pretty_log : bool;
  log_level : string;
  output : option stream_obj;
  cache_logger_on_first_use : bool;
  sending_to_supervisor : bool
}.

(** The value a parameter gets: the positional argument at its place,
    else the keyword argument that names it, else its default. *)
Definition bound {A} (by_position : option A) (by_keyword : list (option A))
    (by_default : A) : A :=
  match by_position with
  | Some v => v
  | None => default by_default (head (omap id by_keyword))
  end.

Definition bind_arguments (c : call) : params :=
  let p := positional c in
  let ks := keywords c in
  {| enable_pretty_log :=
       bound
         match p with
         | Args1 a1 | Args2 a1 _ | Args3 a1 _ _ | Args4 a1 _ _ _
         | Args5 a1 _ _ _ _ => Some a1
         | Args0 => None
         end
         (map (fun k => match k with
                        | kw_enable_pretty_log v => Some v
                        | _ => None
                        end) ks)
         true;
     log_level :=
       bound
         match p with
         | Args2 _ a2 | Args3 _ a2 _ | Args4 _ a2 _ _ | Args5 _ a2 _ _ _ =>
             Some a2
         | Args0 | Args1 _ => None
         end
         (map (fun k => match k with
                        | kw_log_level v => Some v
                        | _ => None
                        end) ks)
         "DEBUG";
     output :=
       bound
         match p with
         | Args3 _ _ a3 | Args4 _ _ a3 _ | Args5 _ _ a3 _ _ => Some a3
         | Args0 | Args1 _ | Args2 _ _ => None
         end
         (map (fun k => match k with
                        | kw_output v => Some v
                        | _ => None
                        end) ks)
         None;
     cache_logger_on_first_use :=
       bound
         match p with
         | Args4 _ _ _ a4 | Args5 _ _ _ a4 _ => Some a4
         | Args0 | Args1 _ | Args2 _ _ | Args3 _ _ _ => None
         end
         (map (fun k => match k with
                        | kw_cache_logger_on_first_use v => Some v
                        | _ => None
                        end) ks)
         true;
     sending_to_supervisor :=
       bound
         match p with
         | Args5 _ _ _ _ a5 => Some a5
         | Args0 | Args1 _ | Args2 _ _ | Args3 _ _ _ | Args4 _ _ _ _ => None
         end
         (map (fun k => match k with
                        | kw_sending_to_supervisor v => Some v
                        | _ => None
                        end) ks)
         false |}.

(** The key [functools.cache] makes of a call. *)
Definition cache_key (c : call) : positional_args * list keyword_arg :=
  (positional c, keywords c).

#[global] Instance callable_eq_dec : EqDecision callable.
Proof. solve_decision. Defined.
#[global] Instance stream_obj_eq_dec : EqDecision stream_obj.
Proof. solve_decision. Defined.
#[global] Instance positional_args_eq_dec : EqDecision positional_args.
Proof. solve_decision. Defined.
#[global] Instance keyword_arg_eq_dec : EqDecision keyword_arg.
Proof. solve_decision. Defined.
#[global] Instance call_eq_dec : EqDecision call.
Proof.
  intros c1 c2. destruct (decide (cache_key c1 = cache_key c2)) as [e|n].
  - left. destruct c1, c2. simpl in e. injection e as -> ->.
    f_equal. apply proof_irrel.
  - right. intros ->. by apply n.
Defined.

(** How a call of [logging_processors] passes the flag;
    [functools.cache] keeps the two spellings apart. *)
Inductive flag_spelling : Type := ByPosition | ByKeyword.

#[global] Instance flag_spelling_eq_dec : EqDecision flag_spelling.
Proof. solve_decision. Defined.

Definition flag_key : Type := flag_spelling * bool.

(** The process state the module reads and writes. *)
Record state : Type := {
  (** ["PYTEST_CURRENT_TEST" in os.environ] *)
  environ_PYTEST_CURRENT_TEST : bool;
  (** [warnings.showwarning]; [None] is the object [None] *)
  warnings_showwarning : option callable;
  (** the module global [_warnings_showwarning] *)
  _warnings_showwarning : option callable;
  (** the keys held by the cache of [configure_logging] *)
  configure_logging_cache : list call;
  (** the cache of [logging_processors] *)
  logging_processors_cache : list (flag_key * processors_result);
  (** the next fresh object identity *)
  next_object : nat;
  effects : list effect
}.

Definition set_warnings (w saved : option callable) (s : state) : state :=
  {| environ_PYTEST_CURRENT_TEST := environ_PYTEST_CURRENT_TEST s;
     warnings_showwarning := w;
     _warnings_showwarning := saved;
     configure_logging_cache := configure_logging_cache s;
     logging_processors_cache := logging_processors_cache s;
     next_object := next_object s;
     effects := effects s |}.

Definition set_configure_logging_cache (l : list call) (s : state) : state :=
  {| environ_PYTEST_CURRENT_TEST := environ_PYTEST_CURRENT_TEST s;
     warnings_showwarning := warnings_showwarning s;
     _warnings_showwarning := _warnings_showwarning s;
     configure_logging_cache := l;
     logging_processors_cache := logging_processors_cache s;
     next_object := next_object s;
     effects := effects s |}.

Definition add_processors (k : flag_key) (r : processors_result) (s : state)
  : state :=
  {| environ_PYTEST_CURRENT_TEST := environ_PYTEST_CURRENT_TEST s;
     warnings_showwarning := warnings_showwarning s;
     _warnings_showwarning := _warnings_showwarning s;
     configure_logging_cache := configure_logging_cache s;
     logging_processors_cache := logging_processors_cache s ++ [(k, r)];
     next_object := S (next_object s);
     effects := effects s |}.

Definition add_effect (e : effect) (s : state) : state :=
  {| environ_PYTEST_CURRENT_TEST := environ_PYTEST_CURRENT_TEST s;
     warnings_showwarning := warnings_showwarning s;
     _warnings_showwarning := _warnings_showwarning s;
     configure_logging_cache := configure_logging_cache s;
     logging_processors_cache := logging_processors_cache s;
     next_object := next_object s;
     effects := e :: effects s |}.

Abbreviation M := (Py.M state).

Section Operations.

(** [structlog.stdlib.NAME_TO_LEVEL], a table of the library. *)
Variable NAME_TO_LEVEL : list (string * Z).

(** [hasattr(__builtins__, "BaseExceptionGroup")] *)
Variable has_BaseExceptionGroup : bool.

(** What [logging.config.dictConfig] raises on a configuration it
    refuses, if anything. *)
Variable dictConfig_raises : dict_config -> option raised.

Fixpoint table_get {A} (k : string) (t : list (string * A)) : option A :=
  match t with
  | [] => None
  | (k', a) :: r => if String.eqb k k' then Some a else table_get k r
  end.

(** [NAME_TO_LEVEL[name]] *)
Definition level_of (name : string) : M Z :=
  match table_get name NAME_TO_LEVEL with
  | Some lvl => ret lvl
  | None => raise (KeyError name)
  end.

(** The body of [logging_processors]; [id] is the identity of the tuple
    it returns. *)
Definition build_processors (enable_pretty_log : bool) (id : nat)
  : processors_result :=
  let timestamper :=
    if enable_pretty_log then MaybeTimeStamper "%Y-%m-%d %H:%M:%S.%f"
    else MaybeTimeStamper "iso" in
  let processors :=
    [timestamper; merge_contextvars; add_log_level;
     PositionalArgumentsFormatter; logger_name; redact_jwt;
     StackInfoRenderer] in
  if enable_pretty_log then
    {| pr_id := id;
       pr_processors := processors ++ [ConsoleRenderer];
       pr_named := PrettyHooks timestamper ConsoleRenderer |}
  else
    let exc_group_processor :=
      if has_BaseExceptionGroup then Some exception_group_tracebacks
      else None in
    {| pr_id := id;
       pr_processors :=
         (processors ++
            match exc_group_processor with Some p => [p] | None => [] end)
           ++ [ExceptionRenderer; UnicodeDecoder; JSONRenderer];
       pr_named :=
         StructuredHooks timestamper exc_group_processor ExceptionRenderer
           json_processor |}.

Fixpoint cached {A} (k : flag_key) (cache : list (flag_key * A)) : option A :=
  match cache with
  | [] => None
  | (k', a) :: r => if bool_decide (k = k') then Some a else cached k r
  end.

(** A call of [logging_processors] under [@cache]: a flag seen before in
    the same spelling gives back the object stored for it. *)
Definition logging_processors_call (how : flag_spelling)
    (enable_pretty_log : bool) : M processors_result :=
  fun s =>
    match cached (how, enable_pretty_log) (logging_processors_cache s) with
    | Some r => (Return r, s)
    | None =>
        let r := build_processors enable_pretty_log (next_object s) in
        (Return r, add_processors (how, enable_pretty_log) r s)
    end.

(** [logging_processors(enable_pretty_log)], the spelling of line 244. *)
Definition logging_processors (enable_pretty_log : bool)
  : M processors_result :=
  logging_processors_call ByPosition enable_pretty_log.

(** [named["timestamper"]] and the other subscripts of [named]. *)
Definition named_timestamper (named : named_hooks) : processor :=
  match named with
  | PrettyHooks t _ | StructuredHooks t _ _ _ => t
  end.

Definition named_console (named : named_hooks) : M processor :=
  match named with
  | PrettyHooks _ c => ret c
  | StructuredHooks _ _ _ _ => raise (KeyError "console")
  end.

Definition named_exc_group_processor (named : named_hooks)
  : M (option processor) :=
  match named with
  | StructuredHooks _ e _ _ => ret e
  | PrettyHooks _ _ => raise (KeyError "exc_group_processor")
  end.

Definition named_dict_tracebacks (named : named_hooks) : M processor :=
  match named with
  | StructuredHooks _ _ d _ => ret d
  | PrettyHooks _ _ => raise (KeyError "dict_tracebacks")
  end.

Definition named_json (named : named_hooks) : M processor :=
  match named with
  | StructuredHooks _ _ _ j => ret j
  | PrettyHooks _ _ => raise (KeyError "json")
  end.

Definition structlog_configure (c : structlog_configuration) : M unit :=
  modify (add_effect (StructlogConfigure c)).

Definition dictConfig (c : dict_config) : M unit :=
  match dictConfig_raises c with
  | Some e => raise e
  | None => modify (add_effect (DictConfig c))
  end.

(** Lines 285 to 291: the stream the bytes logger writes to. *)
Definition binary_output (output : option stream_obj) : M (option sink) :=
  match output with
  | None => ret None
  | Some o =>
      match mode o with
      | None => raise (AttributeError "mode")
      | Some m =>
          if negb (contains_char "b" m) then
            if negb (has_buffer o) then
              raise (ValueError
                "output needed to be a binary stream, but it didn't have a buffer attribute")
            else ret (Some (BufferOf o))
          else ret (Some (RawStream o))
      end
  end.

(** Lines 309 to 314: the warnings bridge. *)
Definition install_warnings_bridge : M unit :=
  fun s =>
    match _warnings_showwarning s with
    | None =>
        (Return tt, set_warnings (Some Bridge) (warnings_showwarning s) s)
    | Some _ => (Return tt, s)
    end.

(** The body of [configure_logging]. *)
Definition configure_logging_body (a : params) : M unit :=
  lvl ← level_of (lower (log_level a));
  let formatter := if enable_pretty_log a then "colored" else "plain" in
  r ← logging_processors (enable_pretty_log a);
  let processors := pr_processors r in
  let named := pr_named r in
  let timestamper := named_timestamper named in
  let pre_chain :=
    [stdlib_add_log_level; add_logger_name; timestamper; merge_contextvars;
     redact_jwt] in
  in_test ← gets environ_PYTEST_CURRENT_TEST;
  let cache_logger_on_first_use :=
    if in_test : bool then false else cache_logger_on_first_use a in
  let color_formatter := [remove_processors_meta; drop_positional_args] in
  let std_lib_formatter := [remove_processors_meta; drop_positional_args] in
  '(stream, pre_chain, color_formatter, std_lib_formatter) ←
    (if enable_pretty_log a
       return M (option sink * list processor * list processor * list processor)
     then
       let logger_factory :=
         match output a with
         | Some o =>
             if negb (is_TextIO o)
             then WriteLoggerFactory (Some (TextIOWrapper o))
             else WriteLoggerFactory (Some (RawStream o))
         | None => WriteLoggerFactory None
         end in
       structlog_configure
         {| sc_processors := processors;
            sc_cache_logger_on_first_use := cache_logger_on_first_use;
            sc_wrapper_level := lvl;
            sc_logger_factory := logger_factory |};;
       console ← named_console named;
       ret (RawStream <$> output a, pre_chain, color_formatter ++ [console],
            std_lib_formatter)
     else
       out ← binary_output (output a);
       structlog_configure
         {| sc_processors := processors;
            sc_cache_logger_on_first_use := cache_logger_on_first_use;
            sc_wrapper_level := lvl;
            sc_logger_factory := BytesLoggerFactory out |};;
       exc_group_processor ← named_exc_group_processor named;
       dict_tracebacks ← named_dict_tracebacks named;
       json ← named_json named;
       ret (out,
            (pre_chain ++
               match exc_group_processor : option processor with
               | Some p => [p]
               | None => []
               end)
              ++ [dict_tracebacks],
            color_formatter ++ [json], std_lib_formatter ++ [json]));
  install_warnings_bridge;;
  dictConfig
    {| plain_processors := std_lib_formatter;
       colored_processors := color_formatter;
       foreign_pre_chain := pre_chain;
       handlers_level := upper (log_level a);
       handlers_formatter := formatter;
       to_supervisor_stream := stream;
       root_handlers :=
         [if sending_to_supervisor a then "to_supervisor" else "default"];
       airflow_level := upper (log_level a) |}.

(** [configure_logging] under [@cache]: a call whose arguments are in the
    cache returns the stored [None] and the body does not run; a body that
    raises stores nothing. *)
Definition configure_logging (c : call) : M unit :=
  fun s =>
    if bool_decide (c ∈ configure_logging_cache s) then (Return tt, s)
    else
      match configure_logging_body (bind_arguments c) s with
      | (Return _, s1) =>
          (Return tt,
           set_configure_logging_cache (c :: configure_logging_cache s1) s1)
      | (Raise e, s1) => (Raise e, s1)
      end.

(** [reset_logging] *)
Definition reset_logging : M unit :=
  fun s =>
    (Return tt,
     set_configure_logging_cache []
       (set_warnings (_warnings_showwarning s) (_warnings_showwarning s) s)).

End Operations.

End Configure.

(** ** Log file helpers *)

Module LogFile.

(** A [pathlib.Path] on a POSIX system: whether it starts at the root, and
    its components. The root is [/] (no components); the relative path
    with no components is [.]. A path that starts with exactly two
    slashes is read like one that starts with one. *)
Record Path : Type := { absolute : bool; parts : list string }.

#[global] Instance Path_eq_dec : EqDecision Path.
Proof. solve_decision. Defined.

(** [s.split("/")] *)
Fixpoint split_slash (s : string) : list string :=
  match s with
  | EmptyString => [EmptyString]
  | String c r =>
      if Ascii.eqb c "/" then EmptyString :: split_slash r
      else
        match split_slash r with
        | [] => [String c EmptyString]
        | w :: ws => String c w :: ws
        end
  end.

(** [Path(s)]: empty components and [.] components are dropped, [..] is
    kept. *)
Definition parse_path (s : string) : Path :=
  {| absolute := String.prefix "/" s;
     parts :=
       List.filter (fun p => negb (String.eqb p "") && negb (String.eqb p "."))
         (split_slash s) |}.

(** [Path(base, rel)]: an absolute second segment replaces the first. *)
Definition join_path (base rel : Path) : Path :=
  if absolute rel then rel
  else {| absolute := absolute base; parts := parts base ++ parts rel |}.

(** [p.parent] *)
Definition parent (p : Path) : Path :=
  {| absolute := absolute p; parts := removelast (parts p) |}.

(** [p.parents]: the ancestors, nearest first. *)
Definition parents (p : Path) : list Path :=
  map (fun n => {| absolute := absolute p; parts := firstn n (parts p) |})
    (rev (seq 0 (length (parts p)))).

(** A file system entry with its permission bits: the nine bits for
    reading, writing and executing. *)
Inductive node : Type :=
| Dir (mode : Z)
| File (mode : Z).

(** The file system, the directories in which the system refuses to create
    entries, the file mode creation mask of the process, and the
    warnings logged through structlog. *)
Record state : Type := {
  nodes : gmap (bool * list string) node;
  readonly : list Path;
  umask : Z;
  warned : list raised
}.

Definition key (p : Path) : bool * list string := (absolute p, parts p).

(** The root and the current directory are always there. *)
Definition node_at (st : state) (p : Path) : option node :=
  match parts p with
  | [] => Some (Dir 493)
  | _ => nodes st !! key p
  end.

Definition create (p : Path) (n : node) (st : state) : state :=
  {| nodes := <[key p := n]> (nodes st);
     readonly := readonly st;
     umask := umask st;
     warned := warned st |}.

Definition log_warning (e : raised) (st : state) : state :=
  {| nodes := nodes st; readonly := readonly st; umask := umask st;
     warned := warned st ++ [e] |}.

(** The permission bits the kernel gives an entry created with [mode]:
    the bits of [mode] that the umask does not clear. The code never
    calls [chmod], so these are the bits the entry keeps. Only the nine
    permission bits are followed, not the set-user-ID, set-group-ID and
    sticky bits; access control lists are left out. *)
Definition permission_bits (mode : Z) (st : state) : Z :=
  Z.land (Z.ldiff mode (umask st)) 511.

(** Whether [mode] fits the C [int] that [os.mkdir] and [os.open] take it
    as; a mode that does not raises [OverflowError] when the arguments
    are converted, before any system call. *)
Definition fits_int (mode : Z) : bool :=
  (-2147483648 <=? mode)%Z && (mode <=? 2147483647)%Z.

(** Creating entry [p]: the errors of the system calls [mkdir] and
    [open] with [O_CREAT]. *)
Definition create_entry (p : Path) (n : node) : M state unit :=
  fun st =>
    match node_at st (parent p) with
    | None => (Raise (OSError "FileNotFoundError"), st)
    | Some (File _) => (Raise (OSError "NotADirectoryError"), st)
    | Some (Dir _) =>
        if bool_decide (parent p ∈ readonly st)
        then (Raise (OSError "PermissionError"), st)
        else (Return tt, create p n st)
    end.

(** [p.mkdir(mode=mode, exist_ok=True)]: [os.mkdir(p, mode)] is called
    first; an existing directory is accepted, an existing file is not. *)
Definition mkdir (p : Path) (mode : Z) : M state unit :=
  fun st =>
    if negb (fits_int mode) then (Raise (OtherException "OverflowError"), st)
    else
      match node_at st p with
      | Some (Dir _) => (Return tt, st)
      | Some (File _) => (Raise (OSError "FileExistsError"), st)
      | None => create_entry p (Dir (permission_bits mode st)) st
      end.

(** [p.touch(mode)]: an existing entry only has its times updated, and
    [mode] is not looked at; otherwise [os.open(p, flags, mode)]. *)
Definition touch (p : Path) (mode : Z) : M state unit :=
  fun st =>
    match node_at st p with
    | Some _ => (Return tt, st)
    | None =>
        if negb (fits_int mode)
        then (Raise (OtherException "OverflowError"), st)
        else create_entry p (File (permission_bits mode st)) st
    end.

(** [for x in xs: f(x)] *)
Fixpoint for_each {A} (f : A -> M state unit) (xs : list A) : M state unit :=
  match xs with
  | [] => mret tt
  | x :: r => f x;; for_each f r
  end.

(** [_prepare_log_folder] *)
Definition _prepare_log_folder (directory : Path) (mode : Z) : M state unit :=
  for_each (fun parent => mkdir parent mode) (rev (parents directory));;
  mkdir directory mode.

(** *** [int(s, 8)]

    The text is read as code points below 256. *)

(** The characters [int] skips around the literal: tab to carriage
    return, space, and the two spaces above 127. *)
Definition is_space (c : ascii) : bool :=
  let n := nat_of_ascii c in
  ((9 <=? n)%nat && (n <=? 13)%nat) || (n =? 32)%nat || (n =? 133)%nat
  || (n =? 160)%nat.

Fixpoint lstrip (s : string) : string :=
  match s with
  | EmptyString => EmptyString
  | String c r => if is_space c then lstrip r else s
  end.

Definition octal_digit (c : ascii) : option Z :=
  let n := nat_of_ascii c in
  if (48 <=? n)%nat && (n <=? 55)%nat then Some (Z.of_nat (n - 48)) else None.

(** The digits, with single underscores between them: the value and the
    text after the last digit; [None] for two underscores in a row or an
    underscore at the end. *)
Fixpoint octal_digits (s : string) (after_underscore : bool) (acc : Z)
  : option (Z * string) :=
  match s with
  | EmptyString => if after_underscore then None else Some (acc, s)
  | String c r =>
      if Ascii.eqb c "_" then
        if after_underscore then None else octal_digits r true acc
      else
        match octal_digit c with
        | Some d => octal_digits r false (8 * acc + d)
        | None => if after_underscore then None else Some (acc, s)
        end
  end.

(** The sign, if one is written. *)
Definition split_sign (s : string) : bool * string :=
  match s with
  | String c r =>
      if Ascii.eqb c "-" then (true, r)
      else if Ascii.eqb c "+" then (false, r)
      else (false, s)
  | EmptyString => (false, s)
  end.

(** The prefix [0o] or [0O], which one underscore may follow. *)
Definition skip_prefix (s : string) : string :=
  match s with
  | String c0 (String c1 r) =>
      if Ascii.eqb c0 "0" && (Ascii.eqb c1 "o" || Ascii.eqb c1 "O") then
        match r with
        | String c2 r' => if Ascii.eqb c2 "_" then r' else r
        | EmptyString => r
        end
      else s
  | _ => s
  end.

(** [int(s, 8)]: blanks, a sign, the prefix, the digits, blanks. *)
Definition int8 (s : string) : M state Z :=
  let '(negative, unsigned) := split_sign (lstrip s) in
  let literal := skip_prefix unsigned in
  let invalid := raise (ValueError "invalid literal for int() with base 8") in
  match literal with
  | EmptyString => invalid
  | String c _ =>
      match octal_digit c with
      | None => invalid
      | Some _ =>
          match octal_digits literal false 0 with
          | Some (z, rest) =>
              match lstrip rest with
              | EmptyString => mret (if negative then (- z)%Z else z)
              | String _ _ => invalid
              end
          | None => invalid
          end
      end
  end.

(** The three options [init_log_file] reads from [airflow.configuration]:
    [None] for an option that is not set. *)
Record conf : Type := {
  logging_file_task_handler_new_file_permissions : option string;
  logging_file_task_handler_new_folder_permissions : option string;
  logging_base_log_folder : option string
}.

(** [conf.get("logging", "base_log_folder")] *)
Definition get_base_log_folder (c : conf) : M state string :=
  match logging_base_log_folder c with
  | Some folder => mret folder
  | None => raise (OtherException "AirflowConfigException")
  end.

(** [try: body except E as e: handler(e)], with [handles] the test
    [isinstance(e, E)]. *)
Definition try_except (body : M state unit) (handles : raised -> bool)
    (handler : raised -> M state unit) : M state unit :=
  fun st =>
    match body st with
    | (Raise e, st1) => if handles e then handler e st1 else (Raise e, st1)
    | (Return a, st1) => (Return a, st1)
    end.

(** [init_log_file]; the warning logged keeps the exception. *)
Definition init_log_file (c : conf) (local_relative_path : string)
  : M state Path :=
  new_file_permissions ←
    int8 (default "0o664" (logging_file_task_handler_new_file_permissions c));
  new_folder_permissions ←
    int8 (default "0o775" (logging_file_task_handler_new_folder_permissions c));
  base_log_folder ← get_base_log_folder c;
  let full_path :=
    join_path (parse_path base_log_folder) (parse_path local_relative_path) in
  _prepare_log_folder (parent full_path) new_folder_permissions;;
  try_except (touch full_path new_file_permissions)
    is_OSError (fun e => modify (log_warning e));;
  mret full_path.

End LogFile.

(** ** Warnings, and the hand-over of a log file *)

Module Remote.

Import Configure.

(** *** [_showwarning] *)

(** The arguments of a [showwarning] call: [str(message)],
    [category.__name__], the place, and the [file] and [line] options. *)
Record warning : Type := {
  w_message : string;
  w_category : string;
  w_filename : string;
  w_lineno : Z;
  w_file : option nat;
  w_line : option string
}.

(** What a call of [_showwarning] does: it calls the saved handler with
    the arguments it got, or it calls [warning] on a structlog logger made
    with the given initial values, or nothing. *)
Inductive shown : Type :=
| Delegated (original : callable) (w : warning)
| Logged (initial_values : dict) (event : string) (kw : dict)
| Dropped.

Definition _showwarning (w : warning) (s : state) : shown :=
  match w_file w with
  | Some _ =>
      match _warnings_showwarning s with
      | Some original => Delegated original w
      | None => Dropped
      end
  | None =>
      Logged [("logger_name", VStr "py.warnings")] (w_message w)
        [("category", VStr (w_category w));
         ("filename", VStr (w_filename w));
         ("lineno", VInt (w_lineno w))]
  end.

(** Modelled from the spec: the record a structlog logger hands to the
    processor chain is not code of this module; it holds the initial
    values of the logger, then the keyword arguments of the call, then
    the message under "event" (section 3, the event record). *)
Definition event_dict_of (initial_values : dict) (event : string) (kw : dict)
  : dict :=
  dict_set "event" (VStr event) (dict_update initial_values kw).

(** *** Paths as text *)

Import LogFile.

(** ["/".join(parts)] *)
Fixpoint join_slash (l : list string) : string :=
  match l with
  | [] => EmptyString
  | [p] => p
  | p :: r => String.append p (String "/" (join_slash r))
  end.

(** [p.as_posix()], also [str(p)] *)
Definition as_posix (p : Path) : string :=
  match parts p, absolute p with
  | [], true => "/"
  | [], false => "."
  | l, true => String "/" (join_slash l)
  | l, false => join_slash l
  end.

Fixpoint strip_prefix (l base : list string) : option (list string) :=
  match base, l with
  | [], _ => Some l
  | b :: base', x :: l' =>
      if String.eqb b x then strip_prefix l' base' else None
  | _ :: _, [] => None
  end.

(** [p.relative_to(base)] *)
Definition relative_to {S} (p base : Path) : Py.M S Path :=
  if negb (Bool.eqb (absolute p) (absolute base)) then
    raise (ValueError "is not in the subpath of")
  else
    match strip_prefix (parts p) (parts base) with
    | Some rest => mret {| absolute := false; parts := rest |}
    | None => raise (ValueError "is not in the subpath of")
    end.

(** *** [load_remote_log_handler] and [upload_to_remote] *)

(** What [TaskLogReader().log_handler] can be. *)
Inductive handler_obj : Type :=
| NoHandler
| FileTaskHandler (id : nat)
| OtherHandler (type_name : string).

(** [type(handler)] *)
Definition handler_type (h : handler_obj) : string :=
  match h with
  | NoHandler => "NoneType"
  | FileTaskHandler _ => "FileTaskHandler"
  | OtherHandler t => t
  end.

(** The file a raw logger writes to: [fh.name] and [fh.fileno()]. *)
Record file_handle : Type := { fh_name : value; fh_fileno : Z }.

(** A raw logger; [None] for one without a [_file] attribute. *)
Record raw_logger : Type := { _file : option file_handle }.

(** The bound logger passed in: its class and its [_logger] attribute,
    [None] when that is [None]. *)
Record bound_logger : Type := {
  logger_type : string;
  _logger : option raw_logger
}.

(** A handler closed by [upload_to_remote], with the attributes set on it
    before. *)
Record closed_handler : Type := {
  closed_id : nat;
  log_meta_dict : dict;
  log_relative_path : string;
  upload_on_close : bool
}.

(** The process, the warnings sent to the bound logger and the handlers
    closed. *)
Record world : Type := {
  process : Configure.state;
  logger_warnings : list (string * dict);
  closed : list closed_handler
}.

Definition lift {A} (m : Configure.M A) : Py.M world A :=
  fun w =>
    match m (process w) with
    | (r, s) =>
        (r, {| process := s; logger_warnings := logger_warnings w;
               closed := closed w |})
    end.

Definition logger_warning (msg : string) (kw : dict) : Py.M world unit :=
  modify (fun w =>
    {| process := process w;
       logger_warnings := logger_warnings w ++ [(msg, kw)];
       closed := closed w |}).

Definition close_handler (h : closed_handler) : Py.M world unit :=
  modify (fun w =>
    {| process := process w; logger_warnings := logger_warnings w;
       closed := closed w ++ [h] |}).

(** [try: body finally: final]: the [finally] block runs whatever the body
    did, and what it raises replaces the outcome of the body. *)
Definition try_finally {S A} (body : Py.M S A) (final : Py.M S unit)
  : Py.M S A :=
  fun s =>
    match body s with
    | (r, s1) =>
        match final s1 with
        | (Return _, s2) => (r, s2)
        | (Raise e, s2) => (Raise e, s2)
        end
    end.

(** [configure_logging()] *)
Definition no_arguments : Configure.call :=
  {| positional := Args0; keywords := []; call_binds := I |}.

Section Handover.

Variable NAME_TO_LEVEL : list (string * Z).
Variable has_BaseExceptionGroup : bool.
Variable dictConfig_raises : dict_config -> option raised.

(** [airflow.logging_config.configure_logging] and
    [TaskLogReader().log_handler], which are not code of this module. *)
Variable airflow_configure_logging : Configure.M unit.
Variable task_log_reader_handler : Configure.M handler_obj.

(** [conf.get("logging", "base_log_folder")] *)
Variable base_log_folder : option string.

(** [load_remote_log_handler] *)
Definition load_remote_log_handler : Configure.M handler_obj :=
  try_finally
    (airflow_configure_logging;; task_log_reader_handler)
    (configure_logging NAME_TO_LEVEL has_BaseExceptionGroup dictConfig_raises
       no_arguments).

(** [upload_to_remote] *)
Definition upload_to_remote (logger : bound_logger) (meta : dict)
  : Py.M world unit :=
  match _logger logger with
  | None =>
      logger_warning "Unable to find log file, logger was of unexpected type"
        [("type", VType (logger_type logger))]
  | Some raw =>
      match _file raw with
      | None =>
          logger_warning
            "Unable to find log file, logger was of unexpected type"
            [("type", VType (logger_type logger))]
      | Some fh =>
          let fname := fh_name fh in
          match (fh_fileno fh =? 1)%Z, fname with
          | false, VStr fname =>
              folder ←
                match base_log_folder with
                | Some folder => mret folder
                | None => raise (OtherException "AirflowConfigException")
                end;
              relative_path ←
                relative_to (parse_path fname) (parse_path folder);
              handler ← lift load_remote_log_handler;
              match handler : handler_obj with
              | FileTaskHandler id =>
                  close_handler
                    {| closed_id := id;
                       log_meta_dict := meta;
                       log_relative_path := as_posix relative_path;
                       upload_on_close := true |}
              | _ =>
                  logger_warning
                    "Airflow core logging is not using a FileTaskHandler, can't upload logs to remote"
                    [("handler", VType (handler_type handler))]
              end
          | _, _ => mret tt
          end
      end
  end.

End Handover.

End Remote.

(** * The Google Calendar hook
    ([providers/google/suite/hooks/calendar.py]) *)

Module Calendar.

(** ** The client library

    The authorised transport, the service object built on it and the
    requests are [googleapiclient]'s; [_authorize] and [num_retries] are
    [GoogleBaseHook]'s. A service object is a [Resource], which is truthy.
    A [datetime] is kept as its text. *)

Definition http := nat.
Definition service := nat.
Definition datetime := string.

(** The keyword arguments of [service.events().list]. *)
Module EventsList.
Record kwargs : Type := {
  calendarId : string;
  iCalUID : option string;
  maxAttendees : option Z;
  maxResults : option Z;
  orderBy : option string;
  pageToken : value;
  privateExtendedProperty : option string;
  q : option string;
  sharedExtendedProperty : option string;
  showDeleted : option bool;
  showHiddenInvitations : option bool;
  singleEvents : option bool;
  syncToken : option string;
  timeMax : option datetime;
  timeMin : option datetime;
  timeZone : option string;
  updatedMin : option datetime
}.
End EventsList.

(** The keyword arguments of [service.events().insert]. *)
Module EventsInsert.
Record kwargs : Type := {
  calendarId : string;
  conferenceDataVersion : option Z;
  maxAttendees : option Z;
  sendNotifications : option bool;
  sendUpdates : option string;
  supportsAttachments : option bool;
  body : dict
}.
End EventsInsert.

(** The parameters of [get_events], and their defaults. *)
Module GetEvents.
Record kwargs : Type := {
  calendar_id : string;
  i_cal_uid : option string;
  max_attendees : option Z;
  max_results : option Z;
  order_by : option string;
  private_extended_property : option string;
  q : option string;
  shared_extended_property : option string;
  show_deleted : option bool;
  show_hidden_invitation : option bool;
  single_events : option bool;
  sync_token : option string;
  time_max : option datetime;
  time_min : option datetime;
  time_zone : option string;
  updated_min : option datetime
}.

Definition defaults : kwargs :=
  {| calendar_id := "primary"; i_cal_uid := None; max_attendees := None;
     max_results := None; order_by := None;
     private_extended_property := None; q := None;
     shared_extended_property := None; show_deleted := Some false;
     show_hidden_invitation := Some false; single_events := Some false;
     sync_token := None; time_max := None; time_min := None;
     time_zone := None; updated_min := None |}.
End GetEvents.

(** The parameters of [create_event] after [event], and their defaults. *)
Module CreateEvent.
Record kwargs : Type := {
  calendar_id : string;
  conference_data_version : option Z;
  max_attendees : option Z;
  send_notifications : option bool;
  send_updates : option string;
  supports_attachments : option bool
}.

Definition defaults : kwargs :=
  {| calendar_id := "primary"; conference_data_version := Some 0%Z;
     max_attendees := None; send_notifications := Some false;
     send_updates := Some "false"; supports_attachments := Some false |}.
End CreateEvent.

(** The calls the hook makes to the library. *)
Inductive api_call : Type :=
| Authorize
| Build (serviceName version : string) (http_authorized : http)
    (cache_discovery : bool)
| ListExecute (conn : service) (k : EventsList.kwargs) (num_retries : Z)
| InsertExecute (conn : service) (k : EventsInsert.kwargs) (num_retries : Z).

(** [k in d] *)
Definition dict_contains (k : string) (d : dict) : bool :=
  match dict_get k d with Some _ => true | None => false end.

(** The elements [list.extend(v)] appends: [None] stands for the
    [TypeError] of an object that cannot be iterated. *)
Definition elements (v : value) : option (list value) :=
  match v with
  | VList items | VTuple items => Some items
  | VDict items => Some (map (fun kv => VStr (fst kv)) items)
  | VStr s => Some (map (fun c => VStr (String c "")) (list_ascii_of_string s))
  | _ => None
  end.

Section Hook.

(** What the library calls act on: the credentials, the network, the
    calendar server. *)
Variable world : Type.

(** [GoogleBaseHook._authorize] *)
Variable _authorize : Py.M world http.

(** [googleapiclient.discovery.build] *)
Variable build : string -> string -> http -> bool -> Py.M world service.

(** [service.events().list(...).execute(num_retries=n)] and
    [service.events().insert(...).execute(num_retries=n)], with the
    keyword arguments of the request. *)
Variable list_execute : service -> EventsList.kwargs -> Z -> Py.M world dict.
Variable insert_execute : service -> EventsInsert.kwargs -> Z -> Py.M world dict.

(** [GoogleCalendarHook]: its attributes, the world outside, and the
    library calls made so far, oldest first. *)
Record hook : Type := {
  api_version : string;
  num_retries : Z;
  _conn : option service;
  outside : world;
  calls : list api_call
}.

(** [GoogleCalendarHook.__init__] *)
Definition __init__ (api_version : string) (num_retries : Z) (outside : world)
  : hook :=
  {| api_version := api_version; num_retries := num_retries; _conn := None;
     outside := outside; calls := [] |}.

Definition set_conn (c : option service) (h : hook) : hook :=
  {| api_version := api_version h; num_retries := num_retries h; _conn := c;
     outside := outside h; calls := calls h |}.

(** A call to the library. *)
Definition external {A} (c : api_call) (m : Py.M world A) : Py.M hook A :=
  fun h =>
    match m (outside h) with
    | (r, w) =>
        (r, {| api_version := api_version h; num_retries := num_retries h;
               _conn := _conn h; outside := w; calls := calls h ++ [c] |})
    end.

(** [get_conn] *)
Definition get_conn : Py.M hook service :=
  conn ← gets _conn;
  match conn : option service with
  | Some c => mret c
  | None =>
      http_authorized ← external Authorize _authorize;
      version ← gets api_version;
      c ← external (Build "calendar" version http_authorized false)
            (build "calendar" version http_authorized false);
      modify (set_conn (Some c));;
      mret c
  end.

(** The keyword arguments of the list request of [get_events]. *)
Definition list_kwargs (a : GetEvents.kwargs) (page_token : value)
  : EventsList.kwargs :=
  {| EventsList.calendarId := GetEvents.calendar_id a;
     EventsList.iCalUID := GetEvents.i_cal_uid a;
     EventsList.maxAttendees := GetEvents.max_attendees a;
     EventsList.maxResults := GetEvents.max_results a;
     EventsList.orderBy := GetEvents.order_by a;
     EventsList.pageToken := page_token;
     EventsList.privateExtendedProperty := GetEvents.private_extended_property a;
     EventsList.q := GetEvents.q a;
     EventsList.sharedExtendedProperty := GetEvents.shared_extended_property a;
     EventsList.showDeleted := GetEvents.show_deleted a;
     EventsList.showHiddenInvitations := GetEvents.show_hidden_invitation a;
     EventsList.singleEvents := GetEvents.single_events a;
     EventsList.syncToken := GetEvents.sync_token a;
     EventsList.timeMax := GetEvents.time_max a;
     EventsList.timeMin := GetEvents.time_min a;
     EventsList.timeZone := GetEvents.time_zone a;
     EventsList.updatedMin := GetEvents.updated_min a |}.

(** One turn of the loop of [get_events], up to the test of the page
    token: the events so far with those of the page, and the next page
    token. *)
Definition get_events_page (conn : service) (a : GetEvents.kwargs)
    (page_token : value) (events : list value)
  : Py.M hook (list value * value) :=
  retries ← gets num_retries;
  response ← external (ListExecute conn (list_kwargs a page_token) retries)
               (list_execute conn (list_kwargs a page_token) retries);
  items ←
    match dict_get "items" (response : dict) with
    | Some items => mret items
    | None => raise (KeyError "items")
    end;
  new_events ←
    match elements items with
    | Some l => mret l
    | None => raise (TypeError "object is not iterable")
    end;
  mret (events ++ new_events,
        default VNone (dict_get "nextPageToken" response)).

(** The [while True] loop of [get_events]; [None] when the loop has not
    ended within [fuel] turns. *)
Fixpoint get_events_loop (fuel : nat) (conn : service) (a : GetEvents.kwargs)
    (page_token : value) (events : list value) (h : hook)
  : option (result (list value) * hook) :=
  match fuel with
  | O => None
  | S fuel' =>
      match get_events_page conn a page_token events h with
      | (Raise e, h1) => Some (Raise e, h1)
      | (Return (events', page_token'), h1) =>
          if negb (truthy page_token') then Some (Return events', h1)
          else get_events_loop fuel' conn a page_token' events' h1
      end
  end.

(** [get_events] *)
Definition get_events (fuel : nat) (a : GetEvents.kwargs) (h : hook)
  : option (result (list value) * hook) :=
  match get_conn h with
  | (Raise e, h1) => Some (Raise e, h1)
  | (Return conn, h1) => get_events_loop fuel conn a VNone [] h1
  end.

(** The keyword arguments of the insert request of [create_event]. *)
Definition insert_kwargs (event : dict) (a : CreateEvent.kwargs)
  : EventsInsert.kwargs :=
  {| EventsInsert.calendarId := CreateEvent.calendar_id a;
     EventsInsert.conferenceDataVersion := CreateEvent.conference_data_version a;
     EventsInsert.maxAttendees := CreateEvent.max_attendees a;
     EventsInsert.sendNotifications := CreateEvent.send_notifications a;
     EventsInsert.sendUpdates := CreateEvent.send_updates a;
     EventsInsert.supportsAttachments := CreateEvent.supports_attachments a;
     EventsInsert.body := event |}.

(** [create_event] *)
Definition create_event (event : dict) (a : CreateEvent.kwargs)
  : Py.M hook dict :=
  if negb (dict_contains "start" event) || negb (dict_contains "end" event)
  then raise (OtherException "AirflowException")
  else
    conn ← get_conn;
    retries ← gets num_retries;
    external (InsertExecute conn (insert_kwargs event a) retries)
      (insert_execute conn (insert_kwargs event a) retries).

End Hook.

Arguments Build_hook {world} _ _ _ _ _.
Arguments api_version {world} _.
Arguments num_retries {world} _.
Arguments _conn {world} _.
Arguments outside {world} _.
Arguments calls {world} _.
Arguments __init__ {world} _ _ _.
Arguments set_conn {world} _ _.
Arguments external {world A} _ _ _.
Arguments get_conn {world} _ _ _.
Arguments get_events_page {world} _ _ _ _ _ _.
Arguments get_events_loop {world} _ _ _ _ _ _ _.
Arguments get_events {world} _ _ _ _ _ _.
Arguments create_event {world} _ _ _ _ _ _.

End Calendar.

(** * Properties *)

Import Processors.

(** ** Dictionaries *)

Section DictFacts.

Implicit Types (d pre r : dict) (k : string) (v : value).

Lemma dict_get_notin k d : k ∉ keys d -> dict_get k d = None.
Proof.
  induction d as [|[k' v'] r IH]; simpl; [done|].
  intros Hk. apply not_elem_of_cons in Hk as [Hne Hr].
  destruct (String.eqb_spec k k'); [done|]. by apply IH.
Qed.

Lemma dict_set_app_notin k v v0 pre r :
  k ∉ keys pre -> dict_set k v (pre ++ (k, v0) :: r) = pre ++ (k, v) :: r.
Proof.
  induction pre as [|[k' v'] pre IH]; simpl.
  - intros _. by rewrite String.eqb_refl.
  - intros Hk. apply not_elem_of_cons in Hk as [Hne Hr].
    destruct (String.eqb_spec k k'); [done|]. by rewrite IH.
Qed.

Lemma dict_set_notin k v d : k ∉ keys d -> dict_set k v d = d ++ [(k, v)].
Proof.
  induction d as [|[k' v'] r IH]; simpl; [done|].
  intros Hk. apply not_elem_of_cons in Hk as [Hne Hr].
  destruct (String.eqb_spec k k'); [done|]. by rewrite IH.
Qed.

Lemma keys_app d r : keys (d ++ r) = keys d ++ keys r.
Proof. apply map_app. Qed.

Lemma dict_get_set_eq k v d : dict_get k (dict_set k v d) = Some v.
Proof.
  induction d as [|[k' v'] r IH]; simpl.
  - by rewrite String.eqb_refl.
  - destruct (String.eqb_spec k k') as [->|Hne]; simpl.
    + by rewrite String.eqb_refl.
    + by destruct (String.eqb_spec k k').
Qed.

Lemma dict_get_set_ne k k' v d :
  k <> k' -> dict_get k' (dict_set k v d) = dict_get k' d.
Proof.
  intros Hne. induction d as [|[k0 v0] r IH]; simpl.
  - by destruct (String.eqb_spec k' k).
  - destruct (String.eqb_spec k k0) as [->|Hne0]; simpl.
    + by destruct (String.eqb_spec k' k0).
    + by rewrite IH.
Qed.

Lemma dict_get_remove_eq k d : wf_dict d -> dict_get k (dict_remove k d) = None.
Proof.
  unfold wf_dict. induction d as [|[k' v'] r IH]; simpl; [done|].
  intros [Hnin Hnd]%NoDup_cons.
  destruct (String.eqb_spec k k') as [->|Hne]; simpl.
  - by apply dict_get_notin.
  - destruct (String.eqb_spec k k'); [done|]. by apply IH.
Qed.

Lemma dict_get_remove_ne k k' d :
  k <> k' -> dict_get k' (dict_remove k d) = dict_get k' d.
Proof.
  intros Hne. induction d as [|[k0 v0] r IH]; simpl; [done|].
  destruct (String.eqb_spec k k0) as [->|Hne0]; simpl.
  - by destruct (String.eqb_spec k' k0).
  - by rewrite IH.
Qed.

Lemma filter_all_true (f : string -> bool) (l : list string) :
  (forall x, x ∈ l -> f x = true) -> List.filter f l = l.
Proof.
  induction l as [|a l IH]; simpl; [done|]. intros H.
  rewrite (H a (list_elem_of_here _ _)). f_equal. apply IH.
  intros x Hx. apply H. by apply list_elem_of_further.
Qed.

Lemma filter_twice (f g : string -> bool) (l : list string) :
  List.filter f (List.filter g l) = List.filter (fun x => g x && f x) l.
Proof.
  induction l as [|a l IH]; simpl; [done|].
  destruct (g a); simpl; [|done]. destruct (f a); by rewrite IH.
Qed.

Lemma keys_dict_remove k d :
  wf_dict d ->
  keys (dict_remove k d) = List.filter (fun x => negb (String.eqb k x)) (keys d).
Proof.
  unfold wf_dict. induction d as [|[k' v'] r IH]; simpl; [done|].
  intros [Hnin Hnd]%NoDup_cons.
  destruct (String.eqb_spec k k') as [->|Hne]; simpl.
  - symmetry. apply filter_all_true. intros x Hx.
    destruct (String.eqb_spec k' x) as [->|]; done.
  - f_equal. by apply IH.
Qed.

Lemma wf_dict_remove k d : wf_dict d -> wf_dict (dict_remove k d).
Proof.
  intros Hwf. unfold wf_dict. rewrite keys_dict_remove by done.
  apply NoDup_ListNoDup, List.NoDup_filter, NoDup_ListNoDup, Hwf.
Qed.

Lemma dict_get_In k v d : dict_get k d = Some v -> In (k, v) d.
Proof.
  induction d as [|[k' v'] r IH]; simpl; [done|].
  destruct (String.eqb_spec k k') as [->|Hne].
  - intros [= ->]. by left.
  - intros H. right. by apply IH.
Qed.

Lemma dict_remove_In k kv d : In kv (dict_remove k d) -> In kv d.
Proof.
  induction d as [|[k' v'] r IH]; simpl; [done|].
  destruct (String.eqb_spec k k') as [->|Hne]; simpl.
  - by right.
  - intros [H|H]; [by left|right; by apply IH].
Qed.

Lemma dict_update_disjoint (other d : dict) :
  NoDup (keys (d ++ other)) -> dict_update d other = d ++ other.
Proof.
  unfold dict_update. revert d.
  induction other as [|[k v] r IH]; intros d Hnd; simpl.
  - by rewrite app_nil_r.
  - assert (Hk : k ∉ keys d).
    { rewrite keys_app in Hnd. apply NoDup_app in Hnd as (_ & Hdisj & _).
      intros Hin. apply (Hdisj k Hin). simpl. apply list_elem_of_here. }
    rewrite (dict_set_notin k v d Hk), IH.
    + by rewrite <- app_assoc.
    + by rewrite <- app_assoc.
Qed.

End DictFacts.

(** ** Redaction *)

Section Redaction.

(** What [redact_jwt] does to one value. *)
Definition redact_value (v : value) : value :=
  if str_startswith "eyJ" v then VStr "eyJ***" else v.

Lemma redact_value_idem v : redact_value (redact_value v) = redact_value v.
Proof.
  unfold redact_value. destruct (str_startswith "eyJ" v) eqn:E; [done|].
  by rewrite E.
Qed.

Lemma redact_jwt_loop (items pre : dict) :
  NoDup (keys (pre ++ items)) ->
  fold_left
    (fun d kv =>
       if str_startswith "eyJ" (snd kv)
       then dict_set (fst kv) (VStr "eyJ***") d
       else d)
    items (pre ++ items)
  = pre ++ map (fun kv => (fst kv, redact_value (snd kv))) items.
Proof.
  revert pre. induction items as [|[k v] r IH]; intros pre Hnd; simpl; [done|].
  assert (Hk : k ∉ keys pre).
  { rewrite keys_app in Hnd. apply NoDup_app in Hnd as (_ & Hdisj & _).
    intros Hin. apply (Hdisj k Hin). simpl. apply list_elem_of_here. }
  assert (Hstep :
    (if str_startswith "eyJ" v
     then dict_set k (VStr "eyJ***") (pre ++ (k, v) :: r)
     else pre ++ (k, v) :: r)
    = (pre ++ [(k, redact_value v)]) ++ r).
  { unfold redact_value. rewrite <- app_assoc. simpl.
    destruct (str_startswith "eyJ" v); [|done].
    by apply dict_set_app_notin. }
  rewrite Hstep, IH.
  - by rewrite <- app_assoc.
  - revert Hnd. rewrite !keys_app. simpl. by rewrite <- app_assoc.
Qed.

Lemma redact_jwt_map d :
  wf_dict d ->
  redact_jwt d = map (fun kv => (fst kv, redact_value (snd kv))) d.
Proof. intros Hwf. apply (redact_jwt_loop d []). exact Hwf. Qed.

Lemma keys_redact_map d :
  keys (map (fun kv => (fst kv, redact_value (snd kv))) d) = keys d.
Proof. unfold keys. rewrite map_map. by apply map_ext. Qed.

Lemma dict_get_redact_map k d :
  dict_get k (map (fun kv => (fst kv, redact_value (snd kv))) d)
  = option_map redact_value (dict_get k d).
Proof.
  induction d as [|[k' v'] r IH]; simpl; [done|].
  by destruct (String.eqb_spec k k').
Qed.

(** C1. On every event record, [redact_jwt] replaces each string value
    that starts with "eyJ" by exactly "eyJ***", leaves every other value
    (non-string, or string without that prefix) as it was, keeps the keys
    and their order, and redacting twice is the same as redacting once. *)
Theorem redact_jwt_correct (d : dict) :
  wf_dict d ->
  (forall k s, dict_get k d = Some (VStr s) -> String.prefix "eyJ" s = true ->
     dict_get k (redact_jwt d) = Some (VStr "eyJ***")) /\
  (forall k v, dict_get k d = Some v ->
     (forall s, v = VStr s -> String.prefix "eyJ" s = false) ->
     dict_get k (redact_jwt d) = Some v) /\
  keys (redact_jwt d) = keys d /\
  redact_jwt (redact_jwt d) = redact_jwt d.
Proof.
  intros Hwf. rewrite (redact_jwt_map d Hwf). repeat split.
  - intros k s Hget Hpre. rewrite dict_get_redact_map, Hget. simpl.
    unfold redact_value. simpl. by rewrite Hpre.
  - intros k v Hget Hv. rewrite dict_get_redact_map, Hget. simpl.
    unfold redact_value. destruct v; try done. simpl.
    by rewrite (Hv s eq_refl).
  - apply keys_redact_map.
  - rewrite redact_jwt_map.
    + rewrite map_map. apply map_ext. intros [k v]. simpl.
      by rewrite redact_value_idem.
    + unfold wf_dict. by rewrite keys_redact_map.
Qed.

End Redaction.

Ltac solve_wf_dict :=
  unfold wf_dict; apply (bool_decide_unpack _); vm_compute; exact I.

(** A record with a token, a plain string and a number. *)
Definition token_record : dict :=
  [("event", VStr "login"); ("token", VStr "eyJhbGciOiJIUzI1NiJ9.e30.abc");
   ("attempt", VInt 3)].

Lemma redact_jwt_correct_witness :
  wf_dict token_record /\
  dict_get "token" (Processors.redact_jwt token_record) = Some (VStr "eyJ***") /\
  dict_get "event" (Processors.redact_jwt token_record) = Some (VStr "login") /\
  dict_get "attempt" (Processors.redact_jwt token_record) = Some (VInt 3) /\
  Processors.redact_jwt (Processors.redact_jwt token_record)
    = Processors.redact_jwt token_record.
Proof.
  assert (Hwf : wf_dict token_record) by solve_wf_dict.
  destruct (redact_jwt_correct token_record Hwf) as (Hred & Hkeep & _ & Hidem).
  split; [exact Hwf|]. split; [|split; [|split]].
  - apply (Hred "token" "eyJhbGciOiJIUzI1NiJ9.e30.abc"); reflexivity.
  - apply (Hkeep "event" (VStr "login")); [reflexivity|].
    intros s [= <-]. reflexivity.
  - apply (Hkeep "attempt" (VInt 3)); [reflexivity|]. intros s [=].
  - exact Hidem.
Defined.

(** ** The terminal JSON serializer *)

Section JsonOrder.

Variable enc_value : value -> result string.

(** The keys [json_dumps] moves to the front. *)
Definition head_keys : list string := ["timestamp"; "level"; "event"].

Definition is_head_key (k : string) : bool :=
  existsb (String.eqb k) head_keys.

Lemma msgspec_json_encode_keys (msg : dict) out :
  msgspec_json_encode enc_value msg = Return out -> map fst out = keys msg.
Proof.
  revert out. induction msg as [|[k v] r IH]; simpl; intros out.
  - by intros [= <-].
  - destruct (enc_value v) as [j|e]; [|done].
    destruct (msgspec_json_encode enc_value r) as [js|e]; [|done].
    intros [= <-]. simpl. f_equal. by apply IH.
Qed.

Lemma msgspec_json_encode_total (msg : dict) :
  (forall k v, In (k, v) msg -> exists j, enc_value v = Return j) ->
  exists out, msgspec_json_encode enc_value msg = Return out.
Proof.
  induction msg as [|[k v] r IH]; simpl; intros H; [by eexists|].
  destruct (H k v (or_introl eq_refl)) as [j ->].
  destruct IH as [js ->]; [|by eexists].
  intros k' v' Hin. apply (H k' v'). by right.
Qed.

(** The three [pop] calls look the keys up in the record as it came in. *)
Lemma json_dumps_gets (msg : dict) :
  json_dumps enc_value msg =
    match dict_get "timestamp" msg, dict_get "level" msg, dict_get "event" msg with
    | Some _, Some _, Some _ => json_dumps enc_value msg
    | None, _, _ => Raise (KeyError "timestamp")
    | Some _, None, _ => Raise (KeyError "level")
    | Some _, Some _, None => Raise (KeyError "event")
    end.
Proof.
  unfold json_dumps, dict_pop.
  destruct (dict_get "timestamp" msg) as [ts|] eqn:Hts; [|done].
  rewrite (dict_get_remove_ne "timestamp" "level") by done.
  destruct (dict_get "level" msg) as [lv|] eqn:Hlv; [|done].
  rewrite (dict_get_remove_ne "level" "event") by done.
  rewrite (dict_get_remove_ne "timestamp" "event") by done.
  by destruct (dict_get "event" msg).
Qed.

(** The mapping [json_dumps] hands to the encoder. *)
Lemma json_dumps_reordered (msg : dict) ts lv ev :
  wf_dict msg ->
  dict_get "timestamp" msg = Some ts ->
  dict_get "level" msg = Some lv ->
  dict_get "event" msg = Some ev ->
  let rest :=
    dict_remove "event" (dict_remove "level" (dict_remove "timestamp" msg)) in
  json_dumps enc_value msg =
    msgspec_json_encode enc_value
      ([("timestamp", ts); ("level", lv); ("event", ev)] ++ rest) /\
  keys rest = List.filter (fun k => negb (is_head_key k)) (keys msg).
Proof.
  intros Hwf Hts Hlv Hev rest.
  assert (Hwf1 := wf_dict_remove "timestamp" msg Hwf).
  assert (Hwf2 := wf_dict_remove "level" _ Hwf1).
  assert (Hkeys : keys rest = List.filter (fun k => negb (is_head_key k)) (keys msg)).
  { unfold rest. rewrite !keys_dict_remove by done. rewrite !filter_twice.
    apply List.filter_ext. intros k. unfold is_head_key, head_keys.
    cbn [existsb]. rewrite !(String.eqb_sym k).
    destruct ("timestamp" =? k)%string, ("level" =? k)%string,
      ("event" =? k)%string; done. }
  split; [|done].
  unfold json_dumps, dict_pop. rewrite Hts.
  rewrite dict_get_remove_ne by done. rewrite Hlv.
  rewrite !dict_get_remove_ne by done. rewrite Hev.
  fold rest. simpl dict_set. rewrite dict_update_disjoint; [done|].
  rewrite keys_app, Hkeys. simpl.
  assert (Hnd : NoDup (List.filter (fun k => negb (is_head_key k)) (keys msg))).
  { apply NoDup_ListNoDup, List.NoDup_filter, NoDup_ListNoDup, Hwf. }
  assert (Hout : forall k, In k head_keys ->
             k ∉ List.filter (fun k => negb (is_head_key k)) (keys msg)).
  { intros k Hk Hin. apply list_elem_of_In, List.filter_In in Hin as [_ Hin].
    apply negb_true_iff in Hin. unfold is_head_key in Hin.
    assert (existsb (String.eqb k) head_keys = true); [|congruence].
    apply existsb_exists. exists k. split; [done|apply String.eqb_refl]. }
  repeat (apply NoDup_cons; split;
          [rewrite ?not_elem_of_cons; repeat split; try done;
           apply Hout; simpl; tauto|]).
  done.
Qed.

(** C2. Whenever [json_dumps] returns, the emitted object has the members
    "timestamp", "level", "event" first, in that order, then the remaining
    fields of the record in their insertion order; and it does return on
    every record that has the three fields and only encodable values. *)
Theorem json_dumps_key_order (msg : dict) :
  wf_dict msg ->
  (forall out, json_dumps enc_value msg = Return out ->
     map fst out =
       ["timestamp"; "level"; "event"]
         ++ List.filter (fun k => negb (is_head_key k)) (keys msg)) /\
  ((forall k, In k head_keys -> k ∈ keys msg) ->
   (forall k v, In (k, v) msg -> exists j, enc_value v = Return j) ->
   exists out, json_dumps enc_value msg = Return out).
Proof.
  intros Hwf. split.
  - intros out Hout.
    rewrite json_dumps_gets in Hout.
    destruct (dict_get "timestamp" msg) as [ts|] eqn:Hts; [|done].
    destruct (dict_get "level" msg) as [lv|] eqn:Hlv; [|done].
    destruct (dict_get "event" msg) as [ev|] eqn:Hev; [|done].
    destruct (json_dumps_reordered msg ts lv ev Hwf Hts Hlv Hev) as [Heq Hk].
    rewrite Heq in Hout. apply msgspec_json_encode_keys in Hout.
    rewrite Hout, keys_app, Hk. done.
  - intros Hhead Henc.
    assert (Hget : forall k, In k head_keys -> exists v, dict_get k msg = Some v).
    { intros k Hk. destruct (dict_get k msg) eqn:E; [by eexists|].
      exfalso. specialize (Hhead k Hk). clear -Hhead E.
      induction msg as [|[k' v'] r IH]; simpl in *; [by apply elem_of_nil in Hhead|].
      destruct (String.eqb_spec k k') as [->|Hne]; [done|].
      apply elem_of_cons in Hhead as [?|?]; [done|]. by apply IH. }
    destruct (Hget "timestamp") as [ts Hts]; [simpl; tauto|].
    destruct (Hget "level") as [lv Hlv]; [simpl; tauto|].
    destruct (Hget "event") as [ev Hev]; [simpl; tauto|].
    destruct (json_dumps_reordered msg ts lv ev Hwf Hts Hlv Hev) as [-> _].
    apply msgspec_json_encode_total. intros k v Hin.
    apply in_app_or in Hin as [Hin|Hin].
    + simpl in Hin. destruct Hin as [[= <- <-]|[[= <- <-]|[[= <- <-]|[]]]];
        eapply Henc, dict_get_In; eassumption.
    + eapply Henc. eapply dict_remove_In, dict_remove_In, dict_remove_In, Hin.
Qed.

End JsonOrder.

(** The record of the key-order example, and an encoder of strings. *)
Definition hi_record : dict :=
  [("event", VStr "hi"); ("level", VStr "info"); ("extra", VStr "x");
   ("timestamp", VStr "T")].

Definition enc_str (v : value) : result string :=
  match v with
  | VStr s => Return s
  | _ => Raise (TypeError "Encoding objects of this type is unsupported")
  end.

Lemma json_dumps_key_order_witness :
  wf_dict hi_record /\
  (forall out, Processors.json_dumps enc_str hi_record = Return out ->
     map fst out = ["timestamp"; "level"; "event"; "extra"]) /\
  exists out, Processors.json_dumps enc_str hi_record = Return out.
Proof.
  assert (Hwf : wf_dict hi_record) by solve_wf_dict.
  destruct (json_dumps_key_order enc_str hi_record Hwf) as [Hord Hret].
  split; [exact Hwf|]. split.
  - exact Hord.
  - apply Hret.
    + intros k Hk. apply list_elem_of_In. simpl in *. intuition.
    + intros k v Hin. simpl in Hin.
      destruct Hin as [[= <- <-]|[[= <- <-]|[[= <- <-]|[[= <- <-]|[]]]]];
        by eexists.
Defined.

(** ** Exception groups *)

Section ExceptionGroupFacts.

Variable active : option exn.
Variable format_exception : ExcInfo -> list value.

(** The value stored under "exc_info" stands for the error [e]: it is the
    instance itself, a triple around it, or [True] while [e] is handled. *)
Inductive carries : value -> exn -> Prop :=
| carries_instance e : carries (VExc e) e
| carries_triple ty e tb : carries (VTuple [ty; VExc e; tb]) e
| carries_active e : active = Some e -> carries (VBool true) e.

Lemma carries_truthy v e : carries v e -> truthy v = true.
Proof. by intros []. Qed.

(** With the name bound to the placeholder class no group is found. *)
Lemma find_group_placeholder (v : value) : find_group false v = Return None.
Proof.
  unfold find_group, find_group_instance, isinstance_BaseExceptionGroup.
  simpl. destruct v as [| | | |items| | | | |]; try done.
  by destruct items as [|a [|b [|c [|]]]].
Qed.

(** With the name unbound every look for a group raises. *)
Lemma find_group_unbound (v : value) :
  find_group true v = Raise (OtherException "NameError").
Proof.
  unfold find_group, find_group_instance, isinstance_BaseExceptionGroup.
  simpl. destruct v as [| | | |items| | | | |]; try done.
  by destruct items as [|a [|b [|c [|]]]].
Qed.

(** In an imported module the name is bound to the placeholder class and
    every record passes through, a record with an exception group too. *)
Lemma exception_group_tracebacks_without_groups (d : dict) :
  exception_group_tracebacks false active format_exception d = Return d.
Proof.
  unfold exception_group_tracebacks.
  destruct (dict_get "exc_info" d) as [v|]; [|done].
  destruct (truthy v); [|done]. by rewrite find_group_placeholder.
Qed.

(** Where the guard holds the name is unbound, and a record with a
    truthy "exc_info" makes the processor raise. *)
Lemma exception_group_tracebacks_unbound (d : dict) (v : value) :
  dict_get "exc_info" d = Some v -> truthy v = true ->
  exception_group_tracebacks true active format_exception d
  = Raise (OtherException "NameError").
Proof.
  intros Hget Ht. unfold exception_group_tracebacks.
  by rewrite Hget, Ht, find_group_unbound.
Qed.

End ExceptionGroupFacts.

(** A record logged while a group of two errors is being handled. *)
Definition io_error : exn := Exc "OSError" "disk" (Some ["write"]).
Definition value_error : exn := Exc "ValueError" "bad" None.
Definition task_group : exn :=
  ExcGroup "ExceptionGroup" "tasks failed" (Some ["gather"])
    [io_error; value_error].

Definition failing_record : dict :=
  [("event", VStr "boom"); ("exc_info", VBool true); ("level", VStr "error")].

(** The same record with the group itself under "exc_info". *)
Definition group_record : dict :=
  [("event", VStr "boom"); ("exc_info", VExc task_group);
   ("level", VStr "error")].

(** One frame per exception, naming its class. *)
Definition frame_of_type (info : ExcInfo) : list value :=
  [VDict [("exc_type", VStr (fst (fst info)))]].

(** C3 fails on the code: a record whose "exc_info" stands for a group
    of two errors is never flattened. In an imported module the record
    comes back as it is, "exc_info" still in it and no "exception"
    added; where the guard of line 47 holds the processor raises
    [NameError]. This is so while the group is being handled
    ("exc_info" is [True]) and when the group itself is stored. *)
Lemma exception_group_not_flattened :
  carries (Some task_group) (VBool true) task_group /\
  carries (Some task_group) (VExc task_group) task_group /\
  Processors.exception_group_tracebacks false (Some task_group) frame_of_type
    failing_record = Return failing_record /\
  Processors.exception_group_tracebacks false (Some task_group) frame_of_type
    group_record = Return group_record /\
  Processors.exception_group_tracebacks true (Some task_group) frame_of_type
    failing_record = Raise (OtherException "NameError") /\
  Processors.exception_group_tracebacks true (Some task_group) frame_of_type
    group_record = Raise (OtherException "NameError").
Proof.
  split; [by constructor|]. split; [by constructor|].
  repeat split; reflexivity.
Qed.

(** ** The binary stream handler *)

Section HandlerFacts.

Import Handler.

Context {LogRecord : Type}.
Variable format : LogRecord -> result pystr.

Lemma utf8_encode_backslashreplace_total (msg : pystr) :
  exists encoded, utf8_encode BackslashReplace msg = Return encoded.
Proof.
  induction msg as [|c rest [bs IH]]; simpl; [by eexists|].
  rewrite IH. destruct (utf8_char c); by eexists.
Qed.

(** The "strict" handler does raise, on the first lone surrogate. *)
Lemma utf8_encode_strict_raises :
  utf8_encode Strict [104; 55296]%Z = Raise (ValueError "UnicodeEncodeError").
Proof. reflexivity. Qed.

(** Emitting [record] through [h] meets an exception [e]: in the
    formatter, in [write], or in [flush]. *)
Inductive emission_fails (h : handler LogRecord) (record : LogRecord) :
  raised -> Prop :=
| fails_format e :
    format record = Raise e -> emission_fails h record e
| fails_write msg e :
    format record = Return msg ->
    write_fault (h_stream h) = Some e -> emission_fails h record e
| fails_flush msg e :
    format record = Return msg ->
    write_fault (h_stream h) = None ->
    flush_fault (h_stream h) = Some e -> emission_fails h record e.

Lemma emit_try_fails h record e :
  emission_fails h record e ->
  exists s1, emit_try format h record
             = (Raise e, {| h_stream := s1; h_handled := h_handled h |}).
Proof.
  destruct h as [[w f wf ff] hd].
  intros [e' Hf|msg e' Hf Hw|msg e' Hf Hw Hfl]; unfold emit_try; rewrite Hf.
  - by eexists.
  - destruct (utf8_encode_backslashreplace_total msg) as [bs ->].
    simpl in Hw. unfold stream_write. simpl. rewrite Hw. by eexists.
  - destruct (utf8_encode_backslashreplace_total msg) as [bs ->].
    simpl in Hw, Hfl. unfold stream_write, stream_flush. simpl.
    rewrite Hw. simpl. rewrite Hfl. by eexists.
Qed.

(** C7, as amended. A record whose formatting returns is encoded without
    any exception, whatever its code points; when the stream accepts it,
    the handler writes the encoded text followed by one newline byte (10)
    and flushes. A [RecursionError] met while formatting, writing or
    flushing is raised to the caller; any other exception that is an
    [Exception] goes to [handleError] and [emit] returns normally; an
    exception that is not an [Exception] is raised to the caller, and
    [handleError] is not called. *)
Theorem emit_correct (h : handler LogRecord) (record : LogRecord) :
  (forall msg, format record = Return msg ->
     exists encoded,
       utf8_encode BackslashReplace msg = Return encoded /\
       (write_fault (h_stream h) = None ->
        flush_fault (h_stream h) = None ->
        emit format h record =
          (Return tt,
           {| h_stream :=
                {| written := written (h_stream h) ++ encoded ++ [10%Z];
                   flushed :=
                     length (written (h_stream h) ++ encoded ++ [10%Z]);
                   write_fault := None; flush_fault := None |};
              h_handled := h_handled h |}))) /\
  (forall e, emission_fails h record e ->
     is_RecursionError e = true ->
     fst (emit format h record) = Raise e /\
     h_handled (snd (emit format h record)) = h_handled h) /\
  (forall e, emission_fails h record e ->
     is_RecursionError e = false ->
     is_Exception e = true ->
     fst (emit format h record) = Return tt /\
     h_handled (snd (emit format h record)) = h_handled h ++ [record]) /\
  (forall e, emission_fails h record e ->
     is_Exception e = false ->
     fst (emit format h record) = Raise e /\
     h_handled (snd (emit format h record)) = h_handled h).
Proof.
  split; [|split; [|split]].
  - intros msg Hf.
    destruct (utf8_encode_backslashreplace_total msg) as [bs Hbs].
    exists bs. split; [done|]. intros Hw Hfl.
    destruct h as [[w f wf ff] hd]. simpl in *. subst.
    unfold emit, emit_try. rewrite Hf, Hbs. reflexivity.
  - intros e Hfail Hrec. unfold emit.
    destruct (emit_try_fails h record e Hfail) as [s1 ->]. by rewrite Hrec.
  - intros e Hfail Hrec Hexc. unfold emit.
    destruct (emit_try_fails h record e Hfail) as [s1 ->].
    by rewrite Hrec, Hexc.
  - intros e Hfail Hexc. unfold emit.
    destruct (emit_try_fails h record e Hfail) as [s1 ->].
    rewrite Hexc. by destruct (is_RecursionError e).
Qed.

(** The exceptions outside [Exception] ([KeyboardInterrupt], [SystemExit])
    are caught by neither clause. *)
Lemma emit_base_exception_propagates (h : handler LogRecord)
    (record : LogRecord) (e : raised) :
  emission_fails h record e ->
  is_Exception e = false ->
  fst (emit format h record) = Raise e.
Proof.
  intros Hfail Hexc. unfold emit.
  destruct (emit_try_fails h record e Hfail) as [s1 ->].
  destruct e; simpl in *; congruence.
Qed.

End HandlerFacts.

(** A formatter that fails on the empty record, a working stream and a
    stream whose pipe is broken. *)
Definition format_text (record : Handler.pystr) : result Handler.pystr :=
  match record with
  | [] => Raise RecursionError
  | _ => Return record
  end.

Definition open_pipe : Handler.handler Handler.pystr :=
  {| Handler.h_stream :=
       {| Handler.written := []; Handler.flushed := 0;
          Handler.write_fault := None; Handler.flush_fault := None |};
     Handler.h_handled := [] |}.

Definition broken_pipe : Handler.handler Handler.pystr :=
  {| Handler.h_stream :=
       {| Handler.written := []; Handler.flushed := 0;
          Handler.write_fault := Some (OSError "BrokenPipeError");
          Handler.flush_fault := None |};
     Handler.h_handled := [] |}.

(** "hi" followed by the lone surrogate U+D800 comes out as the bytes of
    [hi\ud800] and a newline; a broken pipe is handled; the recursion
    error of the formatter is raised. *)
Lemma emit_correct_witness :
  Handler.written (Handler.h_stream
    (snd (Handler.emit format_text open_pipe [104; 105; 55296]%Z)))
    = [104; 105; 92; 117; 100; 56; 48; 48; 10]%Z /\
  (fst (Handler.emit format_text broken_pipe [104; 105]%Z) = Return tt /\
   Handler.h_handled (snd (Handler.emit format_text broken_pipe [104; 105]%Z))
     = [[104; 105]%Z]) /\
  fst (Handler.emit format_text open_pipe []) = Raise RecursionError.
Proof.
  split; [|split].
  - destruct (emit_correct format_text open_pipe [104; 105; 55296]%Z)
      as (Hok & _).
    destruct (Hok _ eq_refl) as (encoded & Henc & Hemit).
    rewrite (Hemit eq_refl eq_refl). injection Henc as <-. reflexivity.
  - destruct (emit_correct format_text broken_pipe [104; 105]%Z)
      as (_ & _ & Hother & _).
    apply (Hother (OSError "BrokenPipeError")); [|reflexivity|reflexivity].
    by apply (fails_write _ _ _ [104; 105]%Z).
  - destruct (emit_correct format_text open_pipe []) as (_ & Hrec & _).
    apply (Hrec RecursionError); [|reflexivity].
    by apply fails_format.

Defined.

(** A stream whose write is interrupted from the keyboard. *)
Definition interrupted_pipe : Handler.handler Handler.pystr :=
  {| Handler.h_stream :=
       {| Handler.written := []; Handler.flushed := 0;
          Handler.write_fault := Some (BaseExceptionOnly "KeyboardInterrupt");
          Handler.flush_fault := None |};
     Handler.h_handled := [] |}.

(** C7, as stated, fails: not every exception other than
    [RecursionError] is handled. The second clause is [except Exception],
    so a [KeyboardInterrupt] raised by the write is caught by neither
    clause: [emit] raises it to the caller and [handleError] is not
    called. *)
Lemma emit_keyboard_interrupt_propagates :
  ~ (forall (h : Handler.handler Handler.pystr) (record : Handler.pystr)
            (e : raised),
       emission_fails format_text h record e ->
       is_RecursionError e = false ->
       fst (Handler.emit format_text h record) = Return tt).
Proof.
  intros Hclaim.
  assert (H : fst (Handler.emit format_text interrupted_pipe [104; 105]%Z)
              = Return tt).
  { apply (Hclaim _ _ (BaseExceptionOnly "KeyboardInterrupt")); [|done].
    by apply (fails_write _ _ _ [104; 105]%Z). }
  vm_compute in H. discriminate H.
Qed.

(** ** The configuration entry point *)

Section ConfigureFacts.

Import Configure.

Variable NAME_TO_LEVEL : list (string * Z).
Variable has_BaseExceptionGroup : bool.
Variable dictConfig_raises : dict_config -> option raised.

Local Abbreviation body :=
  (configure_logging_body NAME_TO_LEVEL has_BaseExceptionGroup dictConfig_raises).
Local Abbreviation configure :=
  (configure_logging NAME_TO_LEVEL has_BaseExceptionGroup dictConfig_raises).
Local Abbreviation processors_of := (logging_processors has_BaseExceptionGroup).
Local Abbreviation processors_call :=
  (logging_processors_call has_BaseExceptionGroup).

Lemma cached_app {A} k (cache : list (flag_key * A)) extra r :
  cached k cache = Some r -> cached k (cache ++ extra) = Some r.
Proof.
  induction cache as [|[k' a] c IH]; simpl; [done|].
  destruct (bool_decide (k = k')); [done|apply IH].
Qed.

(** The state after the warnings bridge step. *)
Definition with_bridge (s : state) : state := snd (install_warnings_bridge s).

(** The stream test of the structured branch fails on these arguments. *)
Definition unusable_stream (a : params) : option raised :=
  if enable_pretty_log a then None
  else
    match output a with
    | None => None
    | Some o =>
        match mode o with
        | None => Some (AttributeError "mode")
        | Some m =>
            if negb (contains_char "b" m) && negb (has_buffer o)
            then Some (ValueError
              "output needed to be a binary stream, but it didn't have a buffer attribute")
            else None
        end
    end.

(** How a run of the body of [configure_logging] ends. *)
Inductive body_outcome (a : params) (s : state) : result unit -> state -> Prop :=
| unknown_level :
    table_get (lower (log_level a)) NAME_TO_LEVEL = None ->
    body_outcome a s (Raise (KeyError (lower (log_level a)))) s
| stream_refused lvl e :
    table_get (lower (log_level a)) NAME_TO_LEVEL = Some lvl ->
    unusable_stream a = Some e ->
    body_outcome a s (Raise e)
      (snd (processors_of (enable_pretty_log a) s))
| hook_missing lvl sc e :
    table_get (lower (log_level a)) NAME_TO_LEVEL = Some lvl ->
    unusable_stream a = None ->
    sc_cache_logger_on_first_use sc
      = (if environ_PYTEST_CURRENT_TEST s then false
         else cache_logger_on_first_use a) ->
    body_outcome a s (Raise e)
      (add_effect (StructlogConfigure sc)
         (snd (processors_of (enable_pretty_log a) s)))
| dictConfig_refused lvl sc dc e :
    table_get (lower (log_level a)) NAME_TO_LEVEL = Some lvl ->
    unusable_stream a = None ->
    sc_cache_logger_on_first_use sc
      = (if environ_PYTEST_CURRENT_TEST s then false
         else cache_logger_on_first_use a) ->
    dictConfig_raises dc = Some e ->
    body_outcome a s (Raise e)
      (with_bridge
         (add_effect (StructlogConfigure sc)
            (snd (processors_of (enable_pretty_log a) s))))
| configured lvl sc dc :
    table_get (lower (log_level a)) NAME_TO_LEVEL = Some lvl ->
    unusable_stream a = None ->
    sc_cache_logger_on_first_use sc
      = (if environ_PYTEST_CURRENT_TEST s then false
         else cache_logger_on_first_use a) ->
    dictConfig_raises dc = None ->
    body_outcome a s (Return tt)
      (add_effect (DictConfig dc)
         (with_bridge
            (add_effect (StructlogConfigure sc)
               (snd (processors_of (enable_pretty_log a) s))))).

Lemma processors_of_returns b s :
  exists r, processors_of b s = (Return r, snd (processors_of b s)).
Proof.
  unfold logging_processors, logging_processors_call.
  destruct (cached _ _); by eexists.
Qed.

Lemma install_warnings_bridge_returns s :
  install_warnings_bridge s = (Return tt, with_bridge s).
Proof.
  unfold with_bridge, install_warnings_bridge.
  by destruct (_warnings_showwarning s).
Qed.

Lemma bridge_then_dictConfig dc s2 r s' :
  bind install_warnings_bridge (fun _ => dictConfig dictConfig_raises dc) s2
    = (r, s') ->
  match dictConfig_raises dc with
  | Some e => r = Raise e /\ s' = with_bridge s2
  | None => r = Return tt /\ s' = add_effect (DictConfig dc) (with_bridge s2)
  end.
Proof.
  unfold bind. rewrite install_warnings_bridge_returns. unfold dictConfig.
  destruct (dictConfig_raises dc); by intros [= <- <-].
Qed.

Lemma body_outcome_intro a s r s' :
  body a s = (r, s') -> body_outcome a s r s'.
Proof.
  intros H.
  unfold configure_logging_body, mbind, M_bind in H.
  unfold bind at 1, level_of in H.
  destruct (table_get (lower (log_level a)) NAME_TO_LEVEL) as [lvl|] eqn:Hlvl;
    [|injection H as <- <-; by apply unknown_level].
  unfold ret at 1 in H. unfold bind at 1 in H.
  destruct (processors_of_returns (enable_pretty_log a) s) as [pr Hpr].
  rewrite Hpr in H.
  assert (Hs1 : environ_PYTEST_CURRENT_TEST
                  (snd (processors_of (enable_pretty_log a) s))
                = environ_PYTEST_CURRENT_TEST s).
  { unfold logging_processors, logging_processors_call.
    by destruct (cached _ _). }
  remember (snd (processors_of (enable_pretty_log a) s)) as s1 eqn:Es1.
  clear Hpr.
  unfold bind at 1, gets at 1 in H. rewrite Hs1 in H.
  unfold bind at 1 in H.
  assert (Hstream : enable_pretty_log a = true -> unusable_stream a = None).
  { intros Hp. unfold unusable_stream. by rewrite Hp. }
  assert (Hp : enable_pretty_log a = true \/ enable_pretty_log a = false)
    by (destruct (enable_pretty_log a); auto).
  destruct Hp as [Hpretty|Hpretty]; rewrite Hpretty in H.
  - specialize (Hstream Hpretty).
    unfold bind at 1, structlog_configure, modify in H.
    unfold bind at 1 in H.
    destruct (pr_named pr) as [t c|t e d j]; simpl in H.
    + apply bridge_then_dictConfig in H.
      match type of H with
      | context [dictConfig_raises ?dc] =>
          destruct (dictConfig_raises dc) as [e|] eqn:Hdc
      end; destruct H as [-> ->]; subst s1.
      * eapply dictConfig_refused; eauto.
      * eapply configured; eauto.
    + injection H as <- <-. subst s1. eapply hook_missing; eauto.
  - clear Hstream. unfold bind at 1, binary_output in H.
    assert (Hcases :
      (exists e, unusable_stream a = Some e /\ r = Raise e /\ s' = s1) \/
      (unusable_stream a = None /\
       exists out,
         binary_output (output a) s1 = (Return out, s1))).
    { unfold unusable_stream, binary_output. rewrite Hpretty.
      destruct (output a) as [o|]; [|right; split; [done|by eexists]].
      destruct (mode o) as [m|]; simpl in *.
      - destruct (negb (contains_char "b" m)); simpl in *.
        + destruct (negb (has_buffer o)); simpl in *.
          * left. eexists. split; [done|]. by injection H as <- <-.
          * right. split; [done|by eexists].
        + right. split; [done|by eexists].
      - left. eexists. split; [done|]. by injection H as <- <-. }
    destruct Hcases as [(e & He & -> & ->)|(Hok & out & Hout)].
    { subst s1. eapply stream_refused; eauto. }
    fold (binary_output (output a)) in H. rewrite Hout in H.
    unfold bind at 1, structlog_configure, modify in H.
    unfold bind at 1 in H.
    destruct (pr_named pr) as [t c|t e d j]; simpl in H.
    + injection H as <- <-. subst s1. eapply hook_missing; eauto.
    + apply bridge_then_dictConfig in H.
      match type of H with
      | context [dictConfig_raises ?dc] =>
          destruct (dictConfig_raises dc) as [e'|] eqn:Hdc
      end; destruct H as [-> ->]; subst s1.
      * eapply dictConfig_refused; eauto.
      * eapply configured; eauto.
Qed.

(** *** What each step leaves alone *)

Lemma processors_call_frame how b s :
  let s1 := snd (processors_call how b s) in
  environ_PYTEST_CURRENT_TEST s1 = environ_PYTEST_CURRENT_TEST s /\
  warnings_showwarning s1 = warnings_showwarning s /\
  _warnings_showwarning s1 = _warnings_showwarning s /\
  configure_logging_cache s1 = configure_logging_cache s /\
  effects s1 = effects s /\
  (forall k r, cached k (logging_processors_cache s) = Some r ->
     cached k (logging_processors_cache s1) = Some r).
Proof.
  unfold logging_processors_call. destruct (cached _ _) eqn:E; simpl;
    repeat split; try done.
  intros k r Hr. by apply cached_app.
Qed.

Lemma processors_of_frame b s :
  let s1 := snd (processors_of b s) in
  environ_PYTEST_CURRENT_TEST s1 = environ_PYTEST_CURRENT_TEST s /\
  warnings_showwarning s1 = warnings_showwarning s /\
  _warnings_showwarning s1 = _warnings_showwarning s /\
  configure_logging_cache s1 = configure_logging_cache s /\
  effects s1 = effects s /\
  (forall k r, cached k (logging_processors_cache s) = Some r ->
     cached k (logging_processors_cache s1) = Some r).
Proof. apply processors_call_frame. Qed.

Lemma with_bridge_frame s :
  environ_PYTEST_CURRENT_TEST (with_bridge s) = environ_PYTEST_CURRENT_TEST s /\
  configure_logging_cache (with_bridge s) = configure_logging_cache s /\
  logging_processors_cache (with_bridge s) = logging_processors_cache s /\
  effects (with_bridge s) = effects s.
Proof.
  unfold with_bridge, install_warnings_bridge.
  by destruct (_warnings_showwarning s).
Qed.

Lemma with_bridge_warnings s :
  match _warnings_showwarning s with
  | None =>
      _warnings_showwarning (with_bridge s) = warnings_showwarning s /\
      warnings_showwarning (with_bridge s) = Some Bridge
  | Some _ =>
      _warnings_showwarning (with_bridge s) = _warnings_showwarning s /\
      warnings_showwarning (with_bridge s) = warnings_showwarning s
  end.
Proof.
  unfold with_bridge, install_warnings_bridge.
  by destruct (_warnings_showwarning s) eqn:E; simpl; rewrite ?E.
Qed.

Lemma body_frame a s r s' :
  body a s = (r, s') ->
  environ_PYTEST_CURRENT_TEST s' = environ_PYTEST_CURRENT_TEST s /\
  configure_logging_cache s' = configure_logging_cache s /\
  (forall k pr, cached k (logging_processors_cache s) = Some pr ->
     cached k (logging_processors_cache s') = Some pr).
Proof.
  intros H. apply body_outcome_intro in H.
  destruct (processors_of_frame (enable_pretty_log a) s)
    as (He & _ & _ & Hc & _ & Hp).
  inversion H; subst; try done.
  - pose proof (with_bridge_frame
      (add_effect (StructlogConfigure sc)
         (snd (processors_of (enable_pretty_log a) s)))) as (-> & -> & -> & _).
    done.
  - simpl.
    pose proof (with_bridge_frame
      (add_effect (StructlogConfigure sc)
         (snd (processors_of (enable_pretty_log a) s)))) as (-> & -> & -> & _).
    done.
Qed.

Lemma body_returns a s u s' :
  body a s = (Return u, s') ->
  exists lvl sc dc,
    table_get (lower (log_level a)) NAME_TO_LEVEL = Some lvl /\
    unusable_stream a = None /\
    sc_cache_logger_on_first_use sc
      = (if environ_PYTEST_CURRENT_TEST s then false
         else cache_logger_on_first_use a) /\
    s' = add_effect (DictConfig dc)
           (with_bridge
              (add_effect (StructlogConfigure sc)
                 (snd (processors_of (enable_pretty_log a) s)))).
Proof.
  intros H. apply body_outcome_intro in H. inversion H; subst.
  by exists lvl, sc, dc.
Qed.

Lemma body_returns_effects a s u s' :
  body a s = (Return u, s') ->
  exists sc dc,
    effects s' = DictConfig dc :: StructlogConfigure sc :: effects s /\
    sc_cache_logger_on_first_use sc
      = (if environ_PYTEST_CURRENT_TEST s then false
         else cache_logger_on_first_use a).
Proof.
  intros H. apply body_returns in H as (lvl & sc & dc & _ & _ & Hsc & ->).
  exists sc, dc. split; [|done]. simpl.
  destruct (with_bridge_frame
              (add_effect (StructlogConfigure sc)
                 (snd (processors_of (enable_pretty_log a) s))))
    as (_ & _ & _ & ->).
  simpl. by destruct (processors_of_frame (enable_pretty_log a) s)
    as (_ & _ & _ & _ & -> & _).
Qed.

(** A body that returns has been through the bridge step. *)
Lemma body_returns_warnings a s u s' :
  body a s = (Return u, s') ->
  match _warnings_showwarning s with
  | None =>
      _warnings_showwarning s' = warnings_showwarning s /\
      warnings_showwarning s' = Some Bridge
  | Some _ =>
      _warnings_showwarning s' = _warnings_showwarning s /\
      warnings_showwarning s' = warnings_showwarning s
  end.
Proof.
  intros H. apply body_returns in H as (lvl & sc & dc & _ & _ & _ & ->).
  destruct (processors_of_frame (enable_pretty_log a) s)
    as (_ & Hw & Hsaved & _).
  pose proof (with_bridge_warnings
    (add_effect (StructlogConfigure sc)
       (snd (processors_of (enable_pretty_log a) s)))) as Hb.
  simpl in *. rewrite Hsaved, Hw in Hb. exact Hb.
Qed.

(** Once a handler is saved, no run of the body touches the warnings
    state. *)
Lemma body_keeps_saved a s r s' h :
  _warnings_showwarning s = Some h ->
  body a s = (r, s') ->
  _warnings_showwarning s' = Some h /\
  warnings_showwarning s' = warnings_showwarning s.
Proof.
  intros Hsaved H. apply body_outcome_intro in H.
  destruct (processors_of_frame (enable_pretty_log a) s)
    as (_ & Hw & Hs & _).
  assert (Hb : forall sc,
    _warnings_showwarning (with_bridge
      (add_effect (StructlogConfigure sc)
         (snd (processors_of (enable_pretty_log a) s)))) = Some h /\
    warnings_showwarning (with_bridge
      (add_effect (StructlogConfigure sc)
         (snd (processors_of (enable_pretty_log a) s))))
      = warnings_showwarning s).
  { intros sc. pose proof (with_bridge_warnings
      (add_effect (StructlogConfigure sc)
         (snd (processors_of (enable_pretty_log a) s)))) as Hb.
    simpl in Hb. rewrite Hs, Hsaved, Hw in Hb. exact Hb. }
  inversion H; subst; simpl; rewrite ?Hs, ?Hw; try done; apply Hb.
Qed.



(** *** Runs of the process *)

(** The calls a process makes into the module: [configure_logging]
    with arguments that bind, [reset_logging], and [logging_processors]
    with the flag passed by position or by keyword. *)
Inductive op : Type :=
| CallConfigure (c : call)
| CallReset
| CallProcessors (b : bool)
| CallProcessorsKeyword (b : bool).

Definition step (o : op) (s : state) : state :=
  match o with
  | CallConfigure c => snd (configure c s)
  | CallReset => snd (reset_logging s)
  | CallProcessors b => snd (processors_of b s)
  | CallProcessorsKeyword b => snd (processors_call ByKeyword b s)
  end.

Definition run (ops : list op) (s : state) : state :=
  fold_left (fun s o => step o s) ops s.

Definition is_reset (o : op) : bool :=
  match o with CallReset => true | _ => false end.

Lemma configure_cases c s :
  (c ∈ configure_logging_cache s /\ configure c s = (Return tt, s)) \/
  ((c ∉ configure_logging_cache s) /\
   exists r s1, body (bind_arguments c) s = (r, s1) /\
     configure c s =
       match r with
       | Return _ =>
           (Return tt,
            set_configure_logging_cache (c :: configure_logging_cache s1) s1)
       | Raise e => (Raise e, s1)
       end).
Proof.
  unfold configure_logging. case_bool_decide; [by left|right].
  split; [done|]. destruct (body (bind_arguments c) s) as [r s1].
  exists r, s1. split; [done|]. by destruct r.
Qed.


Lemma processors_call_hit how b s r :
  cached (how, b) (logging_processors_cache s) = Some r ->
  processors_call how b s = (Return r, s).
Proof. intros H. unfold logging_processors_call. by rewrite H. Qed.

Lemma processors_call_stored how b s r s' :
  processors_call how b s = (Return r, s') ->
  cached (how, b) (logging_processors_cache s') = Some r.
Proof.
  unfold logging_processors_call.
  destruct (cached (how, b) (logging_processors_cache s)) as [r0|] eqn:E.
  - by intros [= <- <-].
  - intros [= <- <-]. cbn [add_processors logging_processors_cache].
    clear -E.
    induction (logging_processors_cache s) as [|[k' a] l IH].
    + cbn [app cached]. by rewrite bool_decide_eq_true_2.
    + cbn [app cached] in *. case_bool_decide; [done|by apply IH].
Qed.

Lemma processors_of_hit b s r :
  cached (ByPosition, b) (logging_processors_cache s) = Some r ->
  processors_of b s = (Return r, s).
Proof. apply processors_call_hit. Qed.

Lemma processors_of_stored b s r s' :
  processors_of b s = (Return r, s') ->
  cached (ByPosition, b) (logging_processors_cache s') = Some r.
Proof. apply processors_call_stored. Qed.

Lemma step_keeps_processors o s k r :
  cached k (logging_processors_cache s) = Some r ->
  cached k (logging_processors_cache (step o s)) = Some r.
Proof.
  intros H. destruct o as [c| |b'|b']; simpl.
  - destruct (configure_cases c s) as [[_ ->]|(_ & r0 & s1 & Hb & ->)];
      [done|].
    apply body_frame in Hb as (_ & _ & Hp). destruct r0; simpl; by apply Hp.
  - done.
  - by apply processors_of_frame.
  - by apply processors_call_frame.
Qed.

Lemma run_keeps_processors ops s k r :
  cached k (logging_processors_cache s) = Some r ->
  cached k (logging_processors_cache (run ops s)) = Some r.
Proof.
  revert s. induction ops as [|o ops IH]; intros s H; simpl; [done|].
  by apply IH, step_keeps_processors.
Qed.

Lemma step_keeps_configured o s c :
  is_reset o = false ->
  c ∈ configure_logging_cache s ->
  c ∈ configure_logging_cache (step o s).
Proof.
  intros Ho H. destruct o as [c'| |b'|b']; simpl; [|done| |].
  - destruct (configure_cases c' s) as [[_ ->]|(_ & r0 & s1 & Hb & ->)];
      [done|].
    apply body_frame in Hb as (_ & Hc & _).
    destruct r0; simpl; rewrite Hc; [by apply list_elem_of_further|done].
  - by destruct (processors_of_frame b' s) as (_ & _ & _ & -> & _).
  - by destruct (processors_call_frame ByKeyword b' s) as (_ & _ & _ & -> & _).
Qed.

Lemma configure_hit c s :
  c ∈ configure_logging_cache s -> configure c s = (Return tt, s).
Proof. intros H. unfold configure_logging. by rewrite bool_decide_eq_true_2. Qed.

Lemma configure_returns_stored c s s1 :
  configure c s = (Return tt, s1) -> c ∈ configure_logging_cache s1.
Proof.
  destruct (configure_cases c s) as [[Hin ->]|(_ & r & s' & _ & ->)].
  - by intros [= <-].
  - destruct r; [|done]. intros [= <-]. simpl. apply list_elem_of_here.
Qed.

(** C4, as amended. After a configure call that returned, a call written
    with the same arguments in the same way (the same positional
    arguments, the same keyword arguments in the same order) returns at
    once and leaves the whole state as it is (nothing is built again);
    this lasts through any further calls to the module other than a
    reset, whatever the [cache_logger_on_first_use] argument and the
    environment; a reset empties the cache, and the next configure call
    then configures both libraries again. A call whose key is not in
    the cache, whatever values its parameters get, those of an earlier
    call included, configures both libraries when it returns. The tuple
    returned by
    [logging_processors] for a flag passed in one spelling is the same
    object on every later call with that flag in that spelling, resets
    included. *)
Theorem configure_logging_memoized (c : call) (s s1 : state) :
  configure c s = (Return tt, s1) ->
  configure c s1 = (Return tt, s1) /\
  (forall ops, Forall (fun o => is_reset o = false) ops ->
     configure c (run ops s1) = (Return tt, run ops s1)) /\
  configure_logging_cache (snd (reset_logging s1)) = [] /\
  (forall s3, configure c (snd (reset_logging s1)) = (Return tt, s3) ->
     exists sc dc,
       effects s3 = DictConfig dc :: StructlogConfigure sc :: effects s1) /\
  (forall c' s3,
     c' ∉ configure_logging_cache s1 ->
     configure c' s1 = (Return tt, s3) ->
     exists sc dc,
       effects s3 = DictConfig dc :: StructlogConfigure sc :: effects s1) /\
  (forall how b r t t1 ops,
     processors_call how b t = (Return r, t1) ->
     processors_call how b (run ops t1) = (Return r, run ops t1)).
Proof.
  intros H. apply configure_returns_stored in H.
  split; [by apply configure_hit|]. split; [|split; [done|split; [|split]]].
  - intros ops Hops. apply configure_hit. revert s1 H.
    induction Hops as [|o ops Ho _ IH]; intros s1 H; simpl; [done|].
    by apply IH, step_keeps_configured.
  - intros s3 H3.
    destruct (configure_cases c (snd (reset_logging s1)))
      as [[Hin _]|(_ & r & s' & Hb & Heq)].
    { simpl in Hin. by apply elem_of_nil in Hin. }
    rewrite Heq in H3. destruct r as [u|e]; [|done]. injection H3 as <-.
    apply body_returns_effects in Hb as (sc & dc & Hb & _).
    exists sc, dc. simpl in *. by rewrite Hb.
  - intros c' s3 Hout H3.
    destruct (configure_cases c' s1) as [[Hin _]|(_ & r & s' & Hb & Heq)];
      [done|].
    rewrite Heq in H3. destruct r as [u|e]; [|done]. injection H3 as <-.
    apply body_returns_effects in Hb as (sc & dc & Hb & _).
    exists sc, dc. simpl in *. by rewrite Hb.
  - intros how b r t t1 ops Hr.
    apply processors_call_hit, run_keeps_processors.
    by eapply processors_call_stored.
Qed.


(** Where a handler was saved, [reset_logging] puts it back, and a second
    reset changes nothing more. *)
Lemma reset_logging_restores (s : state) h :
  _warnings_showwarning s = Some h ->
  warnings_showwarning (snd (reset_logging s)) = Some h.
Proof. by intros H. Qed.

Lemma reset_logging_idempotent (s : state) :
  snd (reset_logging (snd (reset_logging s))) = snd (reset_logging s).
Proof. reflexivity. Qed.






(** *** Reset after configure *)

Lemma body_warnings_cases a s r s' :
  body a s = (r, s') ->
  (_warnings_showwarning s' = _warnings_showwarning s /\
   warnings_showwarning s' = warnings_showwarning s) \/
  (_warnings_showwarning s = None /\
   _warnings_showwarning s' = warnings_showwarning s /\
   warnings_showwarning s' = Some Bridge).
Proof.
  intros H. destruct (_warnings_showwarning s) as [h|] eqn:Hsaved.
  - left. by apply (body_keeps_saved _ _ _ _ h Hsaved) in H.
  - apply body_outcome_intro in H.
    destruct (processors_of_frame (enable_pretty_log a) s)
      as (_ & Hw & Hs & _).
    assert (Hb : forall sc,
      _warnings_showwarning (with_bridge
        (add_effect (StructlogConfigure sc)
           (snd (processors_of (enable_pretty_log a) s))))
        = warnings_showwarning s /\
      warnings_showwarning (with_bridge
        (add_effect (StructlogConfigure sc)
           (snd (processors_of (enable_pretty_log a) s)))) = Some Bridge).
    { intros sc. pose proof (with_bridge_warnings
        (add_effect (StructlogConfigure sc)
           (snd (processors_of (enable_pretty_log a) s)))) as Hb.
      simpl in Hb. rewrite Hs, Hsaved, Hw in Hb. exact Hb. }
    inversion H; subst; simpl; rewrite ?Hs, ?Hw, ?Hsaved;
      try (by left); right; (split; [done|apply Hb]).
Qed.

(** Either nothing returned from the body yet, or [h] is saved. *)
Definition saved_or_fresh (h : callable) (s : state) : Prop :=
  (_warnings_showwarning s = None /\ warnings_showwarning s = Some h /\
   configure_logging_cache s = []) \/
  _warnings_showwarning s = Some h.

Lemma step_saved_or_fresh h o s :
  is_reset o = false -> saved_or_fresh h s -> saved_or_fresh h (step o s).
Proof.
  intros Ho HJ. destruct o as [c| |b|b]; simpl; [|done| |].
  - destruct (configure_cases c s) as [[_ ->]|(_ & r & s1 & Hb & ->)];
      [done|].
    pose proof (body_frame _ _ _ _ Hb) as (_ & Hc & _).
    destruct HJ as [(Hsaved & Hw & Hcache)|Hsaved].
    + destruct r as [u|e].
      * apply body_returns_warnings in Hb. rewrite Hsaved, Hw in Hb.
        right. simpl. by destruct Hb.
      * simpl. apply body_warnings_cases in Hb
          as [[Hs' Hw']|(_ & Hs' & _)].
        -- left. by rewrite Hs', Hw', Hc.
        -- right. by rewrite Hs'.
    + right. apply (body_keeps_saved _ _ _ _ h Hsaved) in Hb as [Hs' _].
      by destruct r.
  - destruct (processors_of_frame b s) as (_ & Hw & Hs & Hc & _).
    unfold saved_or_fresh. by rewrite Hw, Hs, Hc.
  - destruct (processors_call_frame ByKeyword b s) as (_ & Hw & Hs & Hc & _).
    unfold saved_or_fresh. by rewrite Hw, Hs, Hc.
Qed.

Lemma run_saved_or_fresh h ops s :
  Forall (fun o => is_reset o = false) ops ->
  saved_or_fresh h s -> saved_or_fresh h (run ops s).
Proof.
  intros Hops. revert s. induction Hops as [|o ops Ho _ IH]; intros s HJ;
    simpl; [done|].
  by apply IH, step_saved_or_fresh.
Qed.

(** X9. In a process that starts with [h] as [warnings.showwarning] and
    makes configure calls, one of which returns: [reset_logging] binds
    [warnings.showwarning] to [h] again and empties the cache. *)
Lemma reset_logging_after_configure (s0 s1 : state) h ops ops' c :
  configure_logging_cache s0 = [] ->
  _warnings_showwarning s0 = None ->
  warnings_showwarning s0 = Some h ->
  Forall (fun o => is_reset o = false) ops ->
  Forall (fun o => is_reset o = false) ops' ->
  configure c (run ops s0) = (Return tt, s1) ->
  warnings_showwarning (snd (reset_logging (run ops' s1))) = Some h /\
  configure_logging_cache (snd (reset_logging (run ops' s1))) = [].
Proof.
  intros Hcache Hsaved Hw Hops Hops' Hc. split; [|done].
  assert (HJ : saved_or_fresh h (run (CallConfigure c :: ops') (run ops s0))).
  { apply run_saved_or_fresh; [by constructor|].
    apply run_saved_or_fresh; [done|]. by left. }
  simpl in HJ. rewrite Hc in HJ. simpl in HJ.
  assert (Hin : c ∈ configure_logging_cache (run ops' s1)).
  { apply configure_returns_stored in Hc. clear -Hc Hops'. revert s1 Hc.
    induction Hops' as [|o l Ho _ IH]; intros s1 Hc; simpl; [done|].
    by apply IH, step_keeps_configured. }
  destruct HJ as [(_ & _ & Hnil)|HJ].
  - rewrite Hnil in Hin. by apply elem_of_nil in Hin.
  - simpl. exact HJ.
Qed.

(** *** Failed calls and the bridge *)

(** X6. A configure call that raises stores nothing: the cache is as
    before and does not hold its arguments, so the same call made again
    runs the body again. What the body did before raising stays done:
    the state shows either no new configuration, or the structlog
    configuration with no [dictConfig] after it. *)
Theorem configure_logging_failure_not_cached (c : call) (s s1 : state) e :
  configure c s = (Raise e, s1) ->
  configure_logging_cache s1 = configure_logging_cache s /\
  (c ∉ configure_logging_cache s1) /\
  configure c s1
    = (let '(r, s2) := body (bind_arguments c) s1 in
       match r with
       | Return _ =>
           (Return tt,
            set_configure_logging_cache (c :: configure_logging_cache s2) s2)
       | Raise e2 => (Raise e2, s2)
       end) /\
  (effects s1 = effects s \/
   exists sc, effects s1 = StructlogConfigure sc :: effects s).
Proof.
  intros H.
  destruct (configure_cases c s) as [[_ Heq]|(Hnin & r & s' & Hb & Heq)];
    rewrite Heq in H; [done|].
  destruct r as [u|e']; [done|]. injection H as -> ->.
  pose proof (body_frame _ _ _ _ Hb) as (_ & Hc & _).
  assert (Hnin1 : c ∉ configure_logging_cache s1) by by rewrite Hc.
  split; [done|]. split; [done|]. split.
  - destruct (configure_cases c s1) as [[Hin _]|(_ & r & s2 & Hb2 & ->)];
      [done|].
    rewrite Hb2. by destruct r.
  - apply body_outcome_intro in Hb.
    destruct (processors_of_frame (enable_pretty_log (bind_arguments c)) s)
      as (_ & _ & _ & _ & He & _).
    assert (Hadd : forall x t, effects (add_effect x t) = x :: effects t)
      by done.
    inversion Hb; subst.
    + by left.
    + left. exact He.
    + right. exists sc. by rewrite Hadd, He.
    + right. exists sc.
      destruct (with_bridge_frame
        (add_effect (StructlogConfigure sc)
           (snd (processors_of (enable_pretty_log (bind_arguments c)) s))))
        as (_ & _ & _ & ->).
      by rewrite Hadd, He.
Qed.

(** The bridge is in place exactly when a handler is saved, and the saved
    handler is the one the process started with. *)
Definition bridge_once (h : callable) (s : state) : Prop :=
  (_warnings_showwarning s = None /\ warnings_showwarning s = Some h) \/
  (_warnings_showwarning s = Some h /\ warnings_showwarning s = Some Bridge).

Lemma step_bridge_once h o s :
  is_reset o = false -> bridge_once h s -> bridge_once h (step o s).
Proof.
  intros Ho HJ. destruct o as [c| |b|b]; simpl; [|done| |].
  - destruct (configure_cases c s) as [[_ ->]|(_ & r & s1 & Hb & ->)];
      [done|].
    assert (HJ1 : bridge_once h s1).
    { destruct HJ as [[Hsaved Hw]|[Hsaved Hw]].
      - apply body_warnings_cases in Hb as [[Hs' Hw']|(_ & Hs' & Hw')].
        + left. by rewrite Hs', Hw'.
        + right. by rewrite Hs', Hw'.
      - right. apply (body_keeps_saved _ _ _ _ h Hsaved) in Hb as [Hs' Hw'].
        by rewrite Hs', Hw'. }
    by destruct r.
  - destruct (processors_of_frame b s) as (_ & Hw & Hs & _).
    unfold bridge_once. by rewrite Hw, Hs.
  - destruct (processors_call_frame ByKeyword b s) as (_ & Hw & Hs & _).
    unfold bridge_once. by rewrite Hw, Hs.
Qed.

(** X7. In a process that starts with no saved handler and [h] as
    [warnings.showwarning], through any calls to [configure_logging] and
    [logging_processors]: either nothing is saved and
    [warnings.showwarning] is still [h], or [h] is saved and
    [warnings.showwarning] is the bridge. The handler is saved once, and
    when [h] is not the bridge the bridge is never saved as the handler
    to fall back to. *)
Theorem warnings_bridge_installed_once (s0 : state) (h : callable)
    (ops : list op) :
  _warnings_showwarning s0 = None ->
  warnings_showwarning s0 = Some h ->
  Forall (fun o => is_reset o = false) ops ->
  bridge_once h (run ops s0) /\
  (h <> Bridge -> _warnings_showwarning (run ops s0) <> Some Bridge).
Proof.
  intros Hsaved Hw Hops.
  assert (HJ : bridge_once h (run ops s0)).
  { assert (H0 : bridge_once h s0) by by left.
    clear Hsaved Hw. revert s0 H0.
    induction Hops as [|o l Ho _ IH]; intros s0 H0; simpl; [done|].
    by apply IH, step_bridge_once. }
  split; [done|]. intros Hh.
  destruct HJ as [[-> _]|[-> _]]; [done|]. by intros [= ->].
Qed.

(** *** What a configure call installs *)

(** The facts about the two configurations that a returning body has
    handed to the libraries. *)
Definition installs (a : params) (pr : processors_result) (lvl : Z)
    (sc : structlog_configuration) (dc : dict_config) : Prop :=
  sc_processors sc = pr_processors pr /\
  sc_wrapper_level sc = lvl /\
  In redact_jwt (foreign_pre_chain dc) /\
  handlers_level dc = upper (log_level a) /\
  airflow_level dc = upper (log_level a) /\
  root_handlers dc
    = [if sending_to_supervisor a then "to_supervisor" else "default"] /\
  handlers_formatter dc = (if enable_pretty_log a then "colored" else "plain") /\
  (if enable_pretty_log a
   then exists file, sc_logger_factory sc = WriteLoggerFactory file
   else sc_logger_factory sc = BytesLoggerFactory (to_supervisor_stream dc)).

Lemma body_returns_installs a s u s' :
  body a s = (Return u, s') ->
  exists pr lvl sc dc,
    fst (processors_of (enable_pretty_log a) s) = Return pr /\
    table_get (lower (log_level a)) NAME_TO_LEVEL = Some lvl /\
    effects s' = DictConfig dc :: StructlogConfigure sc :: effects s /\
    installs a pr lvl sc dc.
Proof.
  intros H.
  unfold configure_logging_body, mbind, M_bind in H.
  unfold bind at 1, level_of in H.
  destruct (table_get (lower (log_level a)) NAME_TO_LEVEL) as [lvl|] eqn:Hlvl;
    [|done].
  unfold ret at 1 in H. unfold bind at 1 in H.
  destruct (processors_of_returns (enable_pretty_log a) s) as [pr Hpr].
  rewrite Hpr in H.
  destruct (processors_of_frame (enable_pretty_log a) s)
    as (Hs1 & _ & _ & _ & He & _).
  assert (Hfst : fst (processors_of (enable_pretty_log a) s) = Return pr)
    by by rewrite Hpr.
  remember (snd (processors_of (enable_pretty_log a) s)) as s1 eqn:Es1.
  clear Hpr Es1.
  unfold bind at 1, gets at 1 in H. rewrite Hs1 in H.
  unfold bind at 1 in H.
  assert (Heff : forall sc dc,
    effects (add_effect (DictConfig dc)
               (with_bridge (add_effect (StructlogConfigure sc) s1)))
    = DictConfig dc :: StructlogConfigure sc :: effects s).
  { intros sc dc.
    destruct (with_bridge_frame (add_effect (StructlogConfigure sc) s1))
      as (_ & _ & _ & Hb).
    change (DictConfig dc
              :: effects (with_bridge (add_effect (StructlogConfigure sc) s1))
            = DictConfig dc :: StructlogConfigure sc :: effects s).
    rewrite Hb. simpl. by rewrite He. }
  exists pr, lvl.
  assert (Hp : enable_pretty_log a = true \/ enable_pretty_log a = false)
    by (destruct (enable_pretty_log a); auto).
  destruct Hp as [Hpretty|Hpretty]; rewrite Hpretty in H.
  - unfold bind at 1, structlog_configure, modify in H.
    unfold bind at 1 in H.
    destruct (pr_named pr) as [t c|t e d j]; simpl in H; [|done].
    apply bridge_then_dictConfig in H.
    match type of H with
    | context [dictConfig_raises ?dc] =>
        destruct (dictConfig_raises dc) as [e|] eqn:Hdc
    end; destruct H as [[=] ->].
    eexists _, _. split; [done|]. split; [done|]. split; [apply Heff|].
    unfold installs. rewrite Hpretty.
    split; [done|]. split; [done|]. split; [simpl; tauto|].
    do 4 (split; [done|]). simpl.
    destruct (output a) as [o|]; [destruct (negb (is_TextIO o))|];
      by eexists.
  - unfold bind at 1 in H.
    destruct (binary_output (output a) s1) as [[out|e] s1'] eqn:Hout;
      [|done].
    assert (s1' = s1) as ->.
    { unfold binary_output in Hout. destruct (output a) as [o|];
        [|by injection Hout].
      destruct (mode o) as [m|]; [|done].
      destruct (negb (contains_char "b" m)); [|by injection Hout].
      destruct (negb (has_buffer o)); [done|by injection Hout]. }
    unfold bind at 1, structlog_configure, modify in H.
    unfold bind at 1 in H.
    destruct (pr_named pr) as [t c|t e d j]; simpl in H; [done|].
    apply bridge_then_dictConfig in H.
    match type of H with
    | context [dictConfig_raises ?dc] =>
        destruct (dictConfig_raises dc) as [e'|] eqn:Hdc
    end; destruct H as [[=] ->].
    eexists _, _. split; [done|]. split; [done|]. split; [apply Heff|].
    unfold installs. rewrite Hpretty.
    split; [done|]. split; [done|]. split; [simpl; tauto|].
    by do 4 (split; [done|]).
Qed.

(** Every tuple in the cache of [logging_processors] is one its body
    built for that flag. *)
Definition processors_sound (s : state) : Prop :=
  forall how b r, cached (how, b) (logging_processors_cache s) = Some r ->
    exists id, r = build_processors has_BaseExceptionGroup b id.

Lemma cached_app_inv {A} k (cache : list (flag_key * A)) k' a r :
  cached k (cache ++ [(k', a)]) = Some r ->
  cached k cache = Some r \/ (k = k' /\ r = a).
Proof.
  induction cache as [|[k0 a0] l IH]; cbn [app cached].
  - case_bool_decide; [|done]. intros [= <-]. by right.
  - case_bool_decide; [by left|apply IH].
Qed.

Lemma processors_call_sound how b s :
  processors_sound s ->
  processors_sound (snd (processors_call how b s)) /\
  exists id, fst (processors_call how b s)
             = Return (build_processors has_BaseExceptionGroup b id).
Proof.
  intros Hs. unfold logging_processors_call.
  destruct (cached (how, b) (logging_processors_cache s)) as [r|] eqn:E;
    cbn [fst snd].
  - split; [done|]. destruct (Hs how b r E) as [id ->]. by exists id.
  - split; [|by eexists]. intros how' b' r Hr.
    cbn [add_processors logging_processors_cache] in Hr.
    apply cached_app_inv in Hr as [Hr|[Hk ->]]; [by eapply Hs|].
    injection Hk as -> ->. by eexists.
Qed.

Lemma processors_of_sound b s :
  processors_sound s ->
  processors_sound (snd (processors_of b s)) /\
  exists id, fst (processors_of b s)
             = Return (build_processors has_BaseExceptionGroup b id).
Proof. apply processors_call_sound. Qed.

Lemma body_processors_cache a s r s' :
  body a s = (r, s') ->
  logging_processors_cache s' = logging_processors_cache s \/
  logging_processors_cache s'
    = logging_processors_cache (snd (processors_of (enable_pretty_log a) s)).
Proof.
  intros H. apply body_outcome_intro in H.
  assert (Hb : forall sc,
    logging_processors_cache
      (with_bridge (add_effect (StructlogConfigure sc)
         (snd (processors_of (enable_pretty_log a) s))))
    = logging_processors_cache (snd (processors_of (enable_pretty_log a) s))).
  { intros sc. by destruct (with_bridge_frame
      (add_effect (StructlogConfigure sc)
         (snd (processors_of (enable_pretty_log a) s)))) as (_ & _ & -> & _). }
  inversion H; subst.
  - by left.
  - by right.
  - by right.
  - right. exact (Hb sc).
  - right. exact (Hb sc).
Qed.

Lemma step_processors_sound o s :
  processors_sound s -> processors_sound (step o s).
Proof.
  intros Hs. destruct o as [c| |b|b]; simpl; [|done| |].
  - destruct (configure_cases c s) as [[_ ->]|(_ & r & s1 & Hb & ->)];
      [done|].
    assert (Hs1 : processors_sound s1).
    { apply body_processors_cache in Hb as [Hc|Hc];
        unfold processors_sound; rewrite Hc; [done|].
      by apply processors_of_sound. }
    by destruct r.
  - by apply processors_of_sound.
  - by apply processors_call_sound.
Qed.

Lemma run_processors_sound ops s :
  processors_sound s -> processors_sound (run ops s).
Proof.
  revert s. induction ops as [|o ops IH]; intros s Hs; simpl; [done|].
  by apply IH, step_processors_sound.
Qed.

(** The last processor of a chain. *)
Definition renderer_of (chain : list processor) : option processor :=
  last chain.

Lemma build_processors_chain b id :
  In redact_jwt (pr_processors (build_processors has_BaseExceptionGroup b id)) /\
  renderer_of (pr_processors (build_processors has_BaseExceptionGroup b id))
  = Some (if b then ConsoleRenderer else JSONRenderer).
Proof.
  unfold build_processors, renderer_of.
  destruct b, has_BaseExceptionGroup; (split; [simpl; tauto|reflexivity]).
Qed.

(** X8. In a process whose [logging_processors] cache started empty,
    after any calls to the module, a configure call that is not served
    from the cache and returns has called [structlog.configure] and then
    [logging.config.dictConfig], with: the chain [logging_processors]
    builds for the flag, in which [redact_jwt] occurs and whose last
    processor is the console renderer (pretty) or the JSON renderer
    (structured); the filtering level that [NAME_TO_LEVEL] gives for the
    lower-cased level name, and the upper-cased name as the level of the
    handlers and of the "airflow" logger; [redact_jwt] in the chain for
    records of other loggers; the handler of the root logger chosen by
    [sending_to_supervisor]; and, in structured mode, the same stream for
    the bytes logger and for the "to_supervisor" handler. *)
Theorem configure_logging_installs (s0 : state) (ops : list op) (c : call)
    (s1 : state) :
  logging_processors_cache s0 = [] ->
  let s := run ops s0 in
  let a := bind_arguments c in
  (c ∉ configure_logging_cache s) ->
  configure c s = (Return tt, s1) ->
  exists id lvl sc dc,
    effects s1 = DictConfig dc :: StructlogConfigure sc :: effects s /\
    table_get (lower (log_level a)) NAME_TO_LEVEL = Some lvl /\
    installs a
      (build_processors has_BaseExceptionGroup (enable_pretty_log a) id)
      lvl sc dc /\
    In redact_jwt (sc_processors sc) /\
    renderer_of (sc_processors sc)
      = Some (if enable_pretty_log a then ConsoleRenderer else JSONRenderer).
Proof.
  intros Hempty s a Hnin H.
  assert (Hsound : processors_sound s).
  { apply run_processors_sound. intros how b r Hr. by rewrite Hempty in Hr. }
  destruct (configure_cases c s) as [[Hin _]|(_ & r & s' & Hb & Heq)]; [done|].
  rewrite Heq in H. destruct r as [u|e]; [|done]. injection H as <-.
  apply body_returns_installs in Hb
    as (pr & lvl & sc & dc & Hpr & Hlvl & Heff & Hinst).
  destruct (processors_of_sound (enable_pretty_log a) s Hsound)
    as [_ [id Hid]].
  fold a in Hpr, Hlvl, Hinst. rewrite Hid in Hpr. injection Hpr as <-.
  exists id, lvl, sc, dc. split; [exact Heff|]. split; [exact Hlvl|].
  split; [exact Hinst|]. destruct Hinst as (-> & _).
  apply build_processors_chain.
Qed.

(** *** Where a warning goes *)

(** X13. In a process that starts with handler [h], not the bridge, and
    makes calls to [configure_logging] and [logging_processors], once
    the bridge is [warnings.showwarning]: a warning given a [file]
    is passed, arguments unchanged, to [h], never back to the bridge
    and never to the log; a warning without a [file] becomes a log call
    whose record, after the [logger_name] processor, holds the category,
    file name, line number and message and has "py.warnings" as
    "logger". *)
Theorem showwarning_routes (s0 : state) (h : callable) (ops : list op)
    (w : Remote.warning) :
  _warnings_showwarning s0 = None ->
  warnings_showwarning s0 = Some h ->
  h <> Bridge ->
  Forall (fun o => is_reset o = false) ops ->
  let s := run ops s0 in
  warnings_showwarning s = Some Bridge ->
  (Remote.w_file w <> None -> Remote._showwarning w s = Remote.Delegated h w) /\
  (Remote.w_file w = None ->
   exists initial_values kw,
     Remote._showwarning w s
       = Remote.Logged initial_values (Remote.w_message w) kw /\
     Processors.logger_name
       (Remote.event_dict_of initial_values (Remote.w_message w) kw)
     = [("category", VStr (Remote.w_category w));
        ("filename", VStr (Remote.w_filename w));
        ("lineno", VInt (Remote.w_lineno w));
        ("event", VStr (Remote.w_message w));
        ("logger", VStr "py.warnings")]).
Proof.
  intros Hsaved Hw Hh Hops s Hbridge.
  assert (HJ : bridge_once h s).
  { assert (H0 : bridge_once h s0) by by left.
    unfold s. clear Hsaved Hw s Hbridge. revert s0 H0.
    induction Hops as [|o l Ho _ IH]; intros s0 H0; simpl; [done|].
    by apply IH, step_bridge_once. }
  destruct HJ as [[_ Hw']|[Hs' _]].
  { rewrite Hbridge in Hw'. by injection Hw' as <-. }
  split.
  - intros Hfile. unfold Remote._showwarning.
    destruct (Remote.w_file w); [|done]. by rewrite Hs'.
  - intros Hfile. unfold Remote._showwarning. rewrite Hfile.
    eexists _, _. split; [done|]. reflexivity.
Qed.

End ConfigureFacts.

(** *** A concrete process

    The level table of structlog, the level names the standard [logging]
    module accepts in a configuration, and a process that has just
    started, outside and inside a test run. *)

Definition structlog_NAME_TO_LEVEL : list (string * Z) :=
  [("critical", 50%Z); ("exception", 40%Z); ("error", 40%Z); ("warn", 30%Z);
   ("warning", 30%Z); ("info", 20%Z); ("debug", 10%Z); ("notset", 0%Z)].

Definition logging_level_names : list string :=
  ["CRITICAL"; "FATAL"; "ERROR"; "WARN"; "WARNING"; "INFO"; "DEBUG"; "NOTSET"].

Definition logging_dictConfig_raises (dc : Configure.dict_config)
  : option raised :=
  if existsb (String.eqb (Configure.handlers_level dc)) logging_level_names
  then None
  else Some (ValueError "Unable to configure handler 'default'").

Definition configure_here : Configure.call -> Configure.M unit :=
  Configure.configure_logging structlog_NAME_TO_LEVEL true
    logging_dictConfig_raises.

Definition process_start : Configure.state :=
  {| Configure.environ_PYTEST_CURRENT_TEST := false;
     Configure.warnings_showwarning := Some Configure.WarningsDefault;
     Configure._warnings_showwarning := None;
     Configure.configure_logging_cache := [];
     Configure.logging_processors_cache := [];
     Configure.next_object := 0;
     Configure.effects := [] |}.


(** [configure_logging()] *)
Definition default_call : Configure.call :=
  {| Configure.positional := Configure.Args0;
     Configure.keywords := [];
     Configure.call_binds := I |}.

(** [configure_logging(log_level="verbose")] *)
Definition verbose_call : Configure.call :=
  {| Configure.positional := Configure.Args0;
     Configure.keywords := [Configure.kw_log_level "verbose"];
     Configure.call_binds := I |}.

(** A text stream without a [buffer] attribute, and
    [configure_logging(enable_pretty_log=False, output=stream)]. *)
Definition text_stream : Configure.stream_obj :=
  {| Configure.stream_id := 7; Configure.mode := Some "w";
     Configure.has_buffer := false; Configure.is_TextIO := false |}.

Definition text_stream_call : Configure.call :=
  {| Configure.positional := Configure.Args0;
     Configure.keywords :=
       [Configure.kw_enable_pretty_log false;
        Configure.kw_output (Some text_stream)];
     Configure.call_binds := I |}.

Lemma configure_logging_memoized_witness :
  let s1 := snd (configure_here default_call process_start) in
  configure_here default_call process_start = (Return tt, s1) /\
  configure_here default_call s1 = (Return tt, s1) /\
  length (Configure.effects s1) = 2.
Proof.
  intros s1.
  assert (H : configure_here default_call process_start = (Return tt, s1))
    by (vm_compute; reflexivity).
  split; [exact H|]. split; [|vm_compute; reflexivity].
  exact (proj1 (configure_logging_memoized structlog_NAME_TO_LEVEL true
                  logging_dictConfig_raises default_call process_start s1 H)).
Defined.

(** [configure_logging(enable_pretty_log=True)] and
    [configure_logging(True)]: the parameters get the values they have
    in [configure_logging()]. *)
Definition pretty_by_keyword : Configure.call :=
  {| Configure.positional := Configure.Args0;
     Configure.keywords := [Configure.kw_enable_pretty_log true];
     Configure.call_binds := I |}.

Definition pretty_by_position : Configure.call :=
  {| Configure.positional := Configure.Args1 true;
     Configure.keywords := [];
     Configure.call_binds := I |}.

(** C4, as stated, fails: equal arguments are not enough for a call to
    be served from the cache. Outside a test, with
    [cache_logger_on_first_use] true, [configure_logging()] followed by
    [configure_logging(enable_pretty_log=True)] gives the parameters the
    same values twice, and the second call configures both libraries
    again; so does [configure_logging(True)] after either. Likewise
    [logging_processors(True)] and
    [logging_processors(enable_pretty_log=True)] return two tuples. *)
Lemma equal_arguments_are_configured_again :
  ~ (forall c1 c2 s s1,
       Configure.environ_PYTEST_CURRENT_TEST s = false ->
       Configure.bind_arguments c1 = Configure.bind_arguments c2 ->
       Configure.cache_logger_on_first_use (Configure.bind_arguments c1)
         = true ->
       configure_here c1 s = (Return tt, s1) ->
       configure_here c2 s1 = (Return tt, s1)) /\
  ~ (forall c1 c2 s s1,
       Configure.environ_PYTEST_CURRENT_TEST s = false ->
       Configure.bind_arguments c1 = Configure.bind_arguments c2 ->
       Configure.positional c1 = Configure.Args0 ->
       Configure.positional c2 <> Configure.Args0 ->
       configure_here c1 s = (Return tt, s1) ->
       configure_here c2 s1 = (Return tt, s1)) /\
  ~ (forall how1 how2 b s r1 s1 r2 s2,
       Configure.logging_processors_call true how1 b s = (Return r1, s1) ->
       Configure.logging_processors_call true how2 b s1 = (Return r2, s2) ->
       r1 = r2).
Proof.
  pose (s1 := snd (configure_here default_call process_start)).
  split; [|split].
  - intros Hclaim.
    assert (H : configure_here pretty_by_keyword s1 = (Return tt, s1)).
    { apply (Hclaim default_call pretty_by_keyword process_start s1);
        vm_compute; reflexivity. }
    apply (f_equal (fun x => length (Configure.effects (snd x)))) in H.
    vm_compute in H. discriminate H.
  - intros Hclaim.
    assert (H : configure_here pretty_by_position s1 = (Return tt, s1)).
    { apply (Hclaim default_call pretty_by_position process_start s1);
        try (vm_compute; reflexivity). discriminate. }
    apply (f_equal (fun x => length (Configure.effects (snd x)))) in H.
    vm_compute in H. discriminate H.
  - intros Hclaim.
    pose (first := Configure.logging_processors_call true
                     Configure.ByPosition true process_start).
    pose (second := Configure.logging_processors_call true
                      Configure.ByKeyword true (snd first)).
    assert (H : Configure.build_processors true true 0
                = Configure.build_processors true true 1).
    { apply (Hclaim Configure.ByPosition Configure.ByKeyword true
               process_start _ (snd first) _ (snd second));
        vm_compute; reflexivity. }
    discriminate H.
Qed.



(** C6 at a process that never configured: the saved handler is still
    [None], and [reset_logging] binds [warnings.showwarning] to it. *)
Lemma reset_logging_without_configure :
  Configure.warnings_showwarning process_start
    = Some Configure.WarningsDefault /\
  Configure.warnings_showwarning (snd (Configure.reset_logging process_start))
    = None.
Proof. split; reflexivity. Qed.




(** ** Log file helpers *)

Definition logs_conf : LogFile.conf :=
  {| LogFile.logging_file_task_handler_new_file_permissions := None;
     LogFile.logging_file_task_handler_new_folder_permissions := None;
     LogFile.logging_base_log_folder := Some "/logs" |}.

Definition abs_path (l : list string) : LogFile.Path :=
  {| LogFile.absolute := true; LogFile.parts := l |}.

(** [/logs] and [/logs/a] exist; the umask is 022. *)
Definition logs_disk : LogFile.state :=
  {| LogFile.nodes :=
       <[(true, ["logs"; "a"]) := LogFile.Dir 448]>
         (<[(true, ["logs"]) := LogFile.Dir 493]> ∅);
     LogFile.readonly := [];
     LogFile.umask := 18;
     LogFile.warned := [] |}.

Lemma init_log_file_example :
  let '(r, st) := LogFile.init_log_file logs_conf "a/b/c.log" logs_disk in
  r = Return (abs_path ["logs"; "a"; "b"; "c.log"]) /\
  LogFile.nodes st !! (true, ["logs"; "a"]) = Some (LogFile.Dir 448) /\
  LogFile.nodes st !! (true, ["logs"; "a"; "b"]) = Some (LogFile.Dir 493) /\
  LogFile.nodes st !! (true, ["logs"; "a"; "b"; "c.log"]) = Some (LogFile.File 420) /\
  LogFile.warned st = [].
Proof. vm_compute. repeat split. Qed.

Section LogFileFacts.

Import LogFile.

(** The ancestor of [d] with [k] components; [d] itself for the full
    length. *)
Definition prefix_path (d : Path) (k : nat) : Path :=
  {| absolute := absolute d; parts := firstn k (parts d) |}.


Lemma rev_parents d :
  rev (parents d) = map (prefix_path d) (seq 0 (length (parts d))).
Proof. unfold parents. by rewrite <- map_rev, rev_involutive. Qed.



Lemma node_at_create p x st q :
  parts p <> [] ->
  node_at (create p x st) q = if decide (q = p) then Some x else node_at st q.
Proof.
  intros Hp. destruct p as [pa pl], q as [qa ql]. unfold node_at, create, key.
  simpl in *. destruct ql as [|c ql].
  - rewrite decide_False; [done|]. intros [= ? ?]. by subst.
  - case_decide as Heq.
    + injection Heq as -> <-. by rewrite lookup_insert_eq.
    + rewrite lookup_insert_ne; [done|]. intros [= ? ?]. apply Heq. by subst.
Qed.


Section Prepare.

Variables (d : Path) (mode : Z) (st : state).

Hypothesis mode_fits : fits_int mode = true.
Hypothesis writable : readonly st = [].
Hypothesis no_file_on_the_way :
  forall k m, k <= length (parts d) -> node_at st (prefix_path d k) <> Some (File m).





End Prepare.

(** With a mode that fits, the guarded [touch] of [init_log_file] never
    raises: what [touch] raises is then an [OSError], and the handler
    only logs it. *)
Lemma guarded_touch_returns p mode st :
  fits_int mode = true ->
  exists st1,
    try_except (touch p mode) is_OSError (fun e => modify (log_warning e)) st
      = (Return tt, st1) /\
    (node_at st1 p = None ->
     exists e, is_OSError e = true /\ warned st1 = warned st ++ [e]).
Proof.
  intros Hfits. unfold try_except, touch, create_entry.
  destruct (node_at st p) as [n|] eqn:Hp.
  { exists st. split; [done|]. by rewrite Hp. }
  rewrite Hfits. cbn [negb].
  assert (Hparts : parts p <> []).
  { intros Hnil. unfold node_at in Hp. by rewrite Hnil in Hp. }
  destruct (node_at st (parent p)) as [[m|m]|].
  - case_bool_decide.
    + eexists. split; [done|]. intros _.
      by exists (OSError "PermissionError").
    + eexists. split; [done|]. intros Hnone.
      rewrite node_at_create in Hnone by done.
      by rewrite decide_True in Hnone.
  - eexists. split; [done|]. intros _.
    by exists (OSError "NotADirectoryError").
  - eexists. split; [done|]. intros _.
    by exists (OSError "FileNotFoundError").
Qed.

End LogFileFacts.

(** [/logs/a/b] exists and the system refuses to create entries in it. *)
Definition readonly_disk : LogFile.state :=
  {| LogFile.nodes :=
       <[(true, ["logs"; "a"; "b"]) := LogFile.Dir 365]>
         (<[(true, ["logs"; "a"]) := LogFile.Dir 493]>
            (<[(true, ["logs"]) := LogFile.Dir 493]> ∅));
     LogFile.readonly := [abs_path ["logs"; "a"; "b"]];
     LogFile.umask := 18;
     LogFile.warned := [] |}.

(** C9 where the file cannot be created: [touch] raises
    [PermissionError], the [except OSError] clause logs it, and
    [init_log_file] returns the path of a file that does not exist. *)
Lemma init_log_file_swallows_creation_failure :
  let '(r, st) := LogFile.init_log_file logs_conf "a/b/c.log" readonly_disk in
  r = Return (abs_path ["logs"; "a"; "b"; "c.log"]) /\
  LogFile.nodes st !! (true, ["logs"; "a"; "b"; "c.log"]) = None /\
  LogFile.warned st = [OSError "PermissionError"].
Proof. vm_compute. repeat split. Qed.

(** A failure to create a directory, by contrast, is raised: here [/logs]
    is a file. *)
Definition logs_is_a_file : LogFile.state :=
  {| LogFile.nodes := <[(true, ["logs"]) := LogFile.File 420]> ∅;
     LogFile.readonly := [];
     LogFile.umask := 18;
     LogFile.warned := [] |}.

Lemma init_log_file_raises_on_folder_failure :
  fst (LogFile.init_log_file logs_conf "a/b/c.log" logs_is_a_file)
  = Raise (OSError "FileExistsError").
Proof. vm_compute. reflexivity. Qed.

(** * Further properties *)

(** ** The field processors *)

Section FieldProcessors.

Implicit Types (d : dict) (k : string) (v : value).

Lemma dict_remove_absent k d : dict_get k d = None -> dict_remove k d = d.
Proof.
  induction d as [|[k' v'] r IH]; simpl; [done|].
  destruct (String.eqb_spec k k'); [done|]. intros H. by rewrite IH.
Qed.

Lemma keys_dict_set k v d :
  keys (dict_set k v d)
  = match dict_get k d with Some _ => keys d | None => keys d ++ [k] end.
Proof.
  induction d as [|[k' v'] r IH]; simpl; [done|].
  destruct (String.eqb_spec k k') as [->|Hne]; [done|]. simpl.
  rewrite IH. by destruct (dict_get k r).
Qed.

Lemma wf_dict_set k v d : wf_dict d -> wf_dict (dict_set k v d).
Proof.
  unfold wf_dict. intros Hwf. rewrite keys_dict_set.
  destruct (dict_get k d) eqn:E; [done|].
  apply NoDup_app. split; [done|]. split; [|apply NoDup_singleton].
  intros x Hx ->%list_elem_of_singleton.
  clear Hwf. induction d as [|[k' v'] r IH]; simpl in *;
    [by apply elem_of_nil in Hx|].
  destruct (String.eqb_spec k k') as [->|Hne]; [done|].
  apply elem_of_cons in Hx as [?|?]; [done|]. by apply IH.
Qed.

(** X1. [logger_name] on a record with unique keys: the result has no
    "logger_name" field; "logger" keeps the value it had, and where it
    had none it takes the value of "logger_name" if that value is truthy;
    no other field changes; and running the processor again changes
    nothing. *)
Theorem logger_name_renames (d : dict) :
  wf_dict d ->
  let d' := logger_name d in
  dict_get "logger_name" d' = None /\
  dict_get "logger" d'
    = match dict_get "logger" d, dict_get "logger_name" d with
      | Some l, _ => Some l
      | None, Some n => if truthy n then Some n else None
      | None, None => None
      end /\
  (forall k, k <> "logger_name" -> k <> "logger" ->
     dict_get k d' = dict_get k d) /\
  wf_dict d' /\
  logger_name d' = d'.
Proof.
  intros Hwf d'.
  assert (Hrm : dict_get "logger_name" (dict_remove "logger_name" d) = None)
    by by apply dict_get_remove_eq.
  assert (Hlg : dict_get "logger" (dict_remove "logger_name" d)
                = dict_get "logger" d) by by apply dict_get_remove_ne.
  assert (Hwf' := wf_dict_remove "logger_name" d Hwf).
  assert (Hgoal :
    dict_get "logger_name" d' = None /\
    dict_get "logger" d'
      = match dict_get "logger" d, dict_get "logger_name" d with
        | Some l, _ => Some l
        | None, Some n => if truthy n then Some n else None
        | None, None => None
        end /\
    (forall k, k <> "logger_name" -> k <> "logger" ->
       dict_get k d' = dict_get k d) /\
    wf_dict d').
  { unfold d', logger_name, dict_pop_default, dict_setdefault.
    destruct (dict_get "logger_name" d) as [n|] eqn:Hn.
    - destruct (truthy n) eqn:Ht.
      + rewrite Hlg. destruct (dict_get "logger" d) as [l|] eqn:Hl.
        * repeat split; try done. intros k Hk _.
          by apply dict_get_remove_ne.
        * repeat split.
          -- by rewrite dict_get_set_ne.
          -- apply dict_get_set_eq.
          -- intros k Hk1 Hk2. rewrite dict_get_set_ne by done.
             by apply dict_get_remove_ne.
          -- by apply wf_dict_set.
      + repeat split; try done.
        * rewrite Hlg. by destruct (dict_get "logger" d).
        * intros k Hk _. by apply dict_get_remove_ne.
    - repeat split; try done.
      + rewrite Hlg. by destruct (dict_get "logger" d).
      + intros k Hk _. by apply dict_get_remove_ne. }
  destruct Hgoal as (H1 & H2 & H3 & H4). repeat split; try done.
  unfold logger_name, dict_pop_default. rewrite H1.
  by apply dict_remove_absent.
Qed.

(** A record from a stdlib logger, with the legacy field. *)
Definition legacy_record : dict :=
  [("event", VStr "started"); ("logger_name", VStr "airflow.task");
   ("level", VStr "info")].

Lemma logger_name_renames_witness :
  wf_dict legacy_record /\
  logger_name legacy_record
  = [("event", VStr "started"); ("level", VStr "info");
     ("logger", VStr "airflow.task")] /\
  logger_name (logger_name legacy_record) = logger_name legacy_record.
Proof.
  assert (Hwf : wf_dict legacy_record) by solve_wf_dict.
  destruct (logger_name_renames legacy_record Hwf) as (_ & _ & _ & _ & Hidem).
  split; [exact Hwf|]. split; [reflexivity|exact Hidem].
Defined.

Lemma map_dict_remove (f : value -> value) k d :
  dict_remove k (map (fun kv => (fst kv, f (snd kv))) d)
  = map (fun kv => (fst kv, f (snd kv))) (dict_remove k d).
Proof.
  induction d as [|[k' v'] r IH]; simpl; [done|].
  destruct (String.eqb_spec k k'); [done|]. simpl. by rewrite IH.
Qed.

(** X2. [drop_positional_args] on a record with unique keys removes the
    "positional_args" field and nothing else: the other fields keep
    their values and their order; a record without the field comes back
    as it is; and the processor commutes with [redact_jwt]. *)
Theorem drop_positional_args_only (d : dict) :
  wf_dict d ->
  dict_get "positional_args" (drop_positional_args d) = None /\
  (forall k, k <> "positional_args" ->
     dict_get k (drop_positional_args d) = dict_get k d) /\
  keys (drop_positional_args d)
    = List.filter (fun k => negb (String.eqb "positional_args" k)) (keys d) /\
  (dict_get "positional_args" d = None -> drop_positional_args d = d) /\
  redact_jwt (drop_positional_args d) = drop_positional_args (redact_jwt d).
Proof.
  intros Hwf. unfold drop_positional_args, dict_pop_default. simpl.
  split; [by apply dict_get_remove_eq|].
  split; [intros k Hk; by apply dict_get_remove_ne|].
  split; [by apply keys_dict_remove|].
  split; [apply dict_remove_absent|].
  rewrite !redact_jwt_map; [|done|by apply wf_dict_remove].
  by rewrite map_dict_remove.
Qed.

Definition formatted_record : dict :=
  [("event", VStr "eyJ0eXAi token for %s"); ("positional_args", VTuple [VStr "bob"]);
   ("level", VStr "info")].

Lemma drop_positional_args_only_witness :
  wf_dict formatted_record /\
  drop_positional_args (redact_jwt formatted_record)
  = [("event", VStr "eyJ***"); ("level", VStr "info")] /\
  redact_jwt (drop_positional_args formatted_record)
  = drop_positional_args (redact_jwt formatted_record).
Proof.
  assert (Hwf : wf_dict formatted_record) by solve_wf_dict.
  destruct (drop_positional_args_only formatted_record Hwf)
    as (_ & _ & _ & _ & Hcomm).
  split; [exact Hwf|]. split; [reflexivity|exact Hcomm].
Defined.

End FieldProcessors.

(** ** The serializer and the exception-group processor, at the edges *)

Section SerializerEdges.

Variable enc_value : value -> result string.

Lemma dict_get_wf_In k v (d : dict) :
  wf_dict d -> In (k, v) d -> dict_get k d = Some v.
Proof.
  unfold wf_dict. induction d as [|[k' v'] r IH]; simpl; [done|].
  intros [Hnin Hnd]%NoDup_cons [[= -> ->]|Hin].
  - by rewrite String.eqb_refl.
  - destruct (String.eqb_spec k k') as [->|Hne]; [|by apply IH].
    destruct Hnin. apply list_elem_of_In, in_map_iff. by exists (k', v).
Qed.

Lemma msgspec_json_encode_members (msg : dict) out :
  msgspec_json_encode enc_value msg = Return out ->
  forall k j, In (k, j) out <->
    exists v, In (k, v) msg /\ enc_value v = Return j.
Proof.
  revert out. induction msg as [|[k0 v0] r IH]; simpl; intros out.
  - intros [= <-] k j. simpl. split; [done|]. by intros (v & [] & _).
  - destruct (enc_value v0) as [j0|e] eqn:E0; [|done].
    destruct (msgspec_json_encode enc_value r) as [js|e]; [|done].
    intros [= <-] k j. simpl. rewrite (IH js eq_refl k j). split.
    + intros [[= <- <-]|(v & Hin & Hv)]; [by exists v0; auto|].
      exists v. auto.
    + intros (v & [[= <- <-]|Hin] & Hv).
      * left. congruence.
      * right. by exists v.
Qed.

(** X3. [json_dumps] on a record with unique keys. A record without
    "timestamp" raises [KeyError] for it; one with it but without
    "level" raises for "level"; one with both but without "event" raises
    for "event". When it returns, no field is lost, added or repeated:
    the emitted keys are distinct, and a member [(k, j)] is emitted
    exactly when the record holds [k] with a value that encodes to
    [j]. *)
Theorem json_dumps_fields (msg : dict) :
  wf_dict msg ->
  (dict_get "timestamp" msg = None ->
   json_dumps enc_value msg = Raise (KeyError "timestamp")) /\
  (dict_get "timestamp" msg <> None -> dict_get "level" msg = None ->
   json_dumps enc_value msg = Raise (KeyError "level")) /\
  (dict_get "timestamp" msg <> None -> dict_get "level" msg <> None ->
   dict_get "event" msg = None ->
   json_dumps enc_value msg = Raise (KeyError "event")) /\
  (forall out, json_dumps enc_value msg = Return out ->
     NoDup (map fst out) /\
     forall k j, In (k, j) out <->
       exists v, dict_get k msg = Some v /\ enc_value v = Return j).
Proof.
  intros Hwf. rewrite json_dumps_gets.
  destruct (dict_get "timestamp" msg) as [ts|] eqn:Hts;
    destruct (dict_get "level" msg) as [lv|] eqn:Hlv;
    destruct (dict_get "event" msg) as [ev|] eqn:Hev;
    (split; [done|]); (split; [done|]); (split; [done|]); try done.
  intros out Hout.
  destruct (json_dumps_reordered enc_value msg ts lv ev Hwf Hts Hlv Hev)
    as [Heq Hk].
  rewrite Heq in Hout.
  pose proof (msgspec_json_encode_keys enc_value _ _ Hout) as Hkeys.
  rewrite keys_app in Hkeys. simpl in Hkeys.
  set (rest := dict_remove "event"
                 (dict_remove "level" (dict_remove "timestamp" msg))) in *.
  assert (Hwfr : wf_dict rest).
  { by apply wf_dict_remove, wf_dict_remove, wf_dict_remove. }
  assert (Hnd : NoDup (map fst out)).
  { rewrite Hkeys.
    assert (Hout3 : forall k, In k head_keys -> k ∉ keys rest).
    { intros k Hin Hel. apply list_elem_of_In, in_map_iff in Hel
        as ([k' v] & Heqk & Hel). simpl in Heqk. subst k'.
      apply dict_get_wf_In in Hel; [|done]. unfold rest in Hel.
      simpl in Hin. destruct Hin as [<-|[<-|[<-|[]]]].
      - rewrite !(dict_get_remove_ne _ "timestamp") in Hel by done.
        by rewrite dict_get_remove_eq in Hel.
      - rewrite (dict_get_remove_ne _ "level") in Hel by done.
        rewrite dict_get_remove_eq in Hel; [done|by apply wf_dict_remove].
      - rewrite dict_get_remove_eq in Hel; [done|].
        by apply wf_dict_remove, wf_dict_remove. }
    repeat (apply NoDup_cons; split;
            [rewrite ?not_elem_of_cons; repeat split; try done;
             apply Hout3; simpl; tauto|]).
    exact Hwfr. }
  split; [exact Hnd|].
  intros k j. rewrite (msgspec_json_encode_members _ _ Hout k j).
    split; intros (v & Hv & Henc); exists v; (split; [|done]).
    + apply in_app_or in Hv as [Hv|Hv].
      * simpl in Hv. destruct Hv as [[= <- <-]|[[= <- <-]|[[= <- <-]|[]]]];
          done.
      * apply dict_get_wf_In in Hv; [|done]. unfold rest in Hv.
        destruct (String.eqb_spec k "event") as [->|H1];
          [rewrite dict_get_remove_eq in Hv;
             [done|by apply wf_dict_remove, wf_dict_remove]|].
        rewrite dict_get_remove_ne in Hv by done.
        destruct (String.eqb_spec k "level") as [->|H2];
          [rewrite dict_get_remove_eq in Hv; [done|by apply wf_dict_remove]|].
        rewrite dict_get_remove_ne in Hv by done.
        destruct (String.eqb_spec k "timestamp") as [->|H3];
          [by rewrite dict_get_remove_eq in Hv|].
        by rewrite dict_get_remove_ne in Hv.
    + apply in_or_app.
      destruct (String.eqb_spec k "timestamp") as [->|H3];
        [left; simpl; left; congruence|].
      destruct (String.eqb_spec k "level") as [->|H2];
        [left; simpl; right; left; congruence|].
      destruct (String.eqb_spec k "event") as [->|H1];
        [left; simpl; right; right; left; congruence|].
      right. apply dict_get_In. unfold rest.
      by rewrite !dict_get_remove_ne.
Qed.

End SerializerEdges.

(** A record that was given no level. *)
Definition unlevelled_record : dict :=
  [("event", VStr "hi"); ("timestamp", VStr "T")].

Lemma json_dumps_fields_witness :
  wf_dict unlevelled_record /\
  json_dumps enc_str unlevelled_record = Raise (KeyError "level") /\
  forall out, json_dumps enc_str hi_record = Return out ->
    (In ("extra", "x") out /\ ~ In ("extra", "y") out).
Proof.
  assert (Hwf : wf_dict unlevelled_record) by solve_wf_dict.
  assert (Hwf' : wf_dict hi_record) by solve_wf_dict.
  split; [exact Hwf|]. split.
  - destruct (json_dumps_fields enc_str unlevelled_record Hwf)
      as (_ & Hlevel & _).
    apply Hlevel; [discriminate|reflexivity].
  - intros out Hout.
    destruct (json_dumps_fields enc_str hi_record Hwf') as (_ & _ & _ & Hmem).
    destruct (Hmem out Hout) as [_ Hiff]. split.
    + apply Hiff. exists (VStr "x"). split; reflexivity.
    + intros Hin. apply Hiff in Hin as (v & Hv & Henc).
      injection Hv as <-. discriminate Henc.
Defined.

Section ExceptionGroupEdges.

Variable has_BaseExceptionGroup : bool.
Variable active : option exn.
Variable format_exception : ExcInfo -> list value.

(** X4. The processor built by [exception_group_tracebacks] never hands
    on a changed record: what it returns is the record it was given. In
    an imported module (the guard of line 47 is false) it returns every
    record, whatever "exc_info" holds. Where the guard holds it returns
    a record with no "exc_info" or a falsy one, and raises [NameError]
    on every record with a truthy "exc_info", also on [True] when no
    exception is being handled. *)
Theorem exception_group_tracebacks_keeps_record (d : dict) :
  let out := exception_group_tracebacks has_BaseExceptionGroup active
               format_exception d in
  (forall d', out = Return d' -> d' = d) /\
  (has_BaseExceptionGroup = false -> out = Return d) /\
  (has_BaseExceptionGroup = true ->
   (dict_get "exc_info" d = None -> out = Return d) /\
   (forall v, dict_get "exc_info" d = Some v ->
      out = if truthy v then Raise (OtherException "NameError")
            else Return d)).
Proof.
  intros out. unfold out. destruct has_BaseExceptionGroup.
  - assert (Hnone : dict_get "exc_info" d = None ->
      exception_group_tracebacks true active format_exception d = Return d).
    { intros Hget. unfold exception_group_tracebacks. by rewrite Hget. }
    assert (Hsome : forall v, dict_get "exc_info" d = Some v ->
      exception_group_tracebacks true active format_exception d
      = if truthy v then Raise (OtherException "NameError") else Return d).
    { intros v Hget. destruct (truthy v) eqn:Ht.
      - by eapply exception_group_tracebacks_unbound.
      - unfold exception_group_tracebacks. by rewrite Hget, Ht. }
    split; [|split; [done|by intros _]].
    intros d'. destruct (dict_get "exc_info" d) as [v|] eqn:Hget.
    + rewrite (Hsome v eq_refl). destruct (truthy v); [done|].
      by intros [= <-].
    + rewrite (Hnone eq_refl). by intros [= <-].
  - rewrite exception_group_tracebacks_without_groups.
    split; [by intros d' [= <-]|]. by split.
Qed.

End ExceptionGroupEdges.

(** [log.exception] called outside an [except] block. *)
Definition stray_exception_record : dict :=
  [("event", VStr "oops"); ("exc_info", VBool true)].

Lemma exception_group_tracebacks_keeps_record_witness :
  exception_group_tracebacks false None frame_of_type stray_exception_record
  = Return stray_exception_record /\
  exception_group_tracebacks true None frame_of_type stray_exception_record
  = Raise (OtherException "NameError").
Proof.
  split.
  - exact (proj1 (proj2 (exception_group_tracebacks_keeps_record false None
                           frame_of_type stray_exception_record)) eq_refl).
  - exact (proj2 (proj2 (proj2 (exception_group_tracebacks_keeps_record true
             None frame_of_type stray_exception_record)) eq_refl)
             (VBool true) eq_refl).
Defined.

(** ** The binary stream handler: one record per line *)

Section Framing.

Import Handler.

Lemma high_byte_not_newline (a b : Z) :
  Z.testbit a 7 = true -> Z.lor a b <> 10%Z.
Proof.
  intros Ha Heq. apply (f_equal (fun z => Z.testbit z 7)) in Heq.
  rewrite Z.lor_spec, Ha in Heq. discriminate.
Qed.

Lemma hex_digit_not_newline (x : Z) : hex_digit (Z.land x 15) <> 10%Z.
Proof.
  assert (0 <= Z.land x 15)%Z by (apply Z.land_nonneg; lia).
  unfold hex_digit. destruct (Z.ltb_spec (Z.land x 15) 10); lia.
Qed.

Lemma utf8_char_not_newline (c : Z) bs :
  c <> 10%Z -> utf8_char c = Some bs -> ~ In 10%Z bs.
Proof.
  intros Hc. unfold utf8_char.
  destruct (c <? 128)%Z; [intros [= <-]; simpl; tauto|].
  destruct (c <? 2048)%Z.
  { intros [= <-]. simpl.
    intros [H|[H|[]]]; revert H; by apply high_byte_not_newline. }
  destruct (is_surrogate c); [done|].
  destruct (c <? 65536)%Z; intros [= <-]; simpl.
  - intros [H|[H|[H|[]]]]; revert H; by apply high_byte_not_newline.
  - intros [H|[H|[H|[H|[]]]]]; revert H; by apply high_byte_not_newline.
Qed.

Lemma backslash_escape_not_newline (c : Z) : ~ In 10%Z (backslash_escape c).
Proof.
  unfold backslash_escape. simpl.
  intros [H|[H|[H|[H|[H|[H|[]]]]]]]; try done;
    revert H; apply hex_digit_not_newline.
Qed.

Lemma utf8_encode_no_newline (msg : pystr) bs :
  ~ In 10%Z msg ->
  utf8_encode BackslashReplace msg = Return bs -> ~ In 10%Z bs.
Proof.
  revert bs. induction msg as [|c rest IH]; simpl; intros bs Hmsg.
  - by intros [= <-].
  - destruct (utf8_encode BackslashReplace rest) as [bs'|e] eqn:Hrest.
    2: { by destruct (utf8_char c). }
    assert (Hbs' : ~ In 10%Z bs') by (apply IH; tauto).
    assert (Hc : c <> 10%Z) by (intros ->; tauto).
    destruct (utf8_char c) as [cb|] eqn:Hcb; intros Hret.
    + assert (bs = cb ++ bs') as -> by (inversion Hret; reflexivity).
      intros H. apply in_app_or in H as [H|H]; [|done].
      by apply (utf8_char_not_newline c cb).
    + assert (bs = backslash_escape c ++ bs') as ->
        by (inversion Hret; reflexivity).
      intros H. apply in_app_or in H as [H|H]; [|done].
      by apply (backslash_escape_not_newline c).
Qed.

Context {LogRecord : Type}.
Variable format : LogRecord -> result pystr.

(** Emitting a batch of records, one after the other. *)
Definition emit_all (h : handler LogRecord) (records : list LogRecord)
  : handler LogRecord :=
  fold_left (fun h record => snd (emit format h record)) records h.

Definition newlines (bs : bytes) : nat := count_occ Z.eq_dec bs 10%Z.

Lemma newlines_app bs1 bs2 : newlines (bs1 ++ bs2) = newlines bs1 + newlines bs2.
Proof. apply count_occ_app. Qed.

Lemma newlines_none bs : ~ In 10%Z bs -> newlines bs = 0.
Proof. apply count_occ_not_In. Qed.

(** X5. Through a stream that accepts every write and flush, a batch of
    records whose formatted text holds no newline comes out as that many
    lines: the handler adds exactly one newline byte (10) per record to
    what was written before, passes no record to [handleError], and after
    a non-empty batch everything written has been flushed. *)
Theorem emit_all_one_line_each (h : handler LogRecord) (records : list LogRecord) :
  write_fault (h_stream h) = None ->
  flush_fault (h_stream h) = None ->
  (forall record, In record records ->
     exists msg, format record = Return msg /\ ~ In 10%Z msg) ->
  let h' := emit_all h records in
  newlines (written (h_stream h'))
    = newlines (written (h_stream h)) + length records /\
  h_handled h' = h_handled h /\
  (records <> [] -> flushed (h_stream h') = length (written (h_stream h'))) /\
  exists added, written (h_stream h') = written (h_stream h) ++ added.
Proof.
  revert h. induction records as [|record rest IH]; intros h Hw Hf Hfmt; simpl.
  - split; [unfold emit_all; simpl; by rewrite Nat.add_0_r|].
    split; [done|]. split; [done|].
    exists []. by rewrite app_nil_r.
  - destruct (Hfmt record (or_introl eq_refl)) as (msg & Hmsg & Hnl).
    destruct (utf8_encode_backslashreplace_total msg) as [bs Hbs].
    assert (Hemit : emit format h record =
      (Return tt,
       {| h_stream :=
            {| written := written (h_stream h) ++ bs ++ [10%Z];
               flushed := length (written (h_stream h) ++ bs ++ [10%Z]);
               write_fault := None; flush_fault := None |};
          h_handled := h_handled h |})).
    { destruct h as [[w f wf ff] hd]. simpl in *. subst.
      unfold emit, emit_try. rewrite Hmsg, Hbs. reflexivity. }
    rewrite Hemit. simpl.
    match goal with |- context [emit_all ?h1 rest] => set (h1' := h1) end.
    destruct (IH h1' eq_refl eq_refl) as (Hn & Hh & Hfl & added & Hadd).
    { intros r Hr. apply Hfmt. by right. }
    fold (emit_all h1' rest). split; [|split; [|split]].
    + rewrite Hn. unfold h1'. simpl. rewrite !newlines_app.
      rewrite (newlines_none bs) by by eapply utf8_encode_no_newline.
      replace (newlines [10%Z]) with 1 by reflexivity. lia.
    + by rewrite Hh.
    + intros _. destruct rest as [|r rest']; [done|]. by apply Hfl.
    + exists ((bs ++ [10%Z]) ++ added). rewrite Hadd. unfold h1'. simpl.
      by rewrite <- !app_assoc.
Qed.

End Framing.

Lemma emit_all_one_line_each_witness :
  Handler.written (Handler.h_stream
    (emit_all format_text open_pipe [[104; 105]; [111; 107; 55296]]%Z))
  = [104; 105; 10; 111; 107; 92; 117; 100; 56; 48; 48; 10]%Z /\
  newlines (Handler.written (Handler.h_stream
    (emit_all format_text open_pipe [[104; 105]; [111; 107; 55296]]%Z))) = 2.
Proof.
  split; [reflexivity|].
  destruct (emit_all_one_line_each format_text open_pipe
              [[104; 105]; [111; 107; 55296]]%Z eq_refl eq_refl) as (Hn & _).
  - intros record [<-|[<-|[]]]; eexists; (split; [reflexivity|]);
      simpl; intros H; repeat destruct H as [H|H]; try discriminate H; done.
  - exact Hn.
Defined.

(** ** The configuration entry point, on the concrete process *)

(** [configure_logging(log_level="exception")]: a name structlog knows
    and the standard [logging] module does not. *)
Definition exception_call : Configure.call :=
  {| Configure.positional := Configure.Args0;
     Configure.keywords := [Configure.kw_log_level "exception"];
     Configure.call_binds := I |}.

Lemma configure_logging_failure_not_cached_witness :
  let s1 := snd (configure_here exception_call process_start) in
  configure_here exception_call process_start
    = (Raise (ValueError "Unable to configure handler 'default'"), s1) /\
  Configure.configure_logging_cache s1 = [] /\
  (exists sc, Configure.effects s1 = [Configure.StructlogConfigure sc]) /\
  Configure.warnings_showwarning s1 = Some Configure.Bridge.
Proof.
  intros s1.
  assert (H : configure_here exception_call process_start
              = (Raise (ValueError "Unable to configure handler 'default'"), s1))
    by (vm_compute; reflexivity).
  destruct (configure_logging_failure_not_cached structlog_NAME_TO_LEVEL true
              logging_dictConfig_raises exception_call process_start s1 _ H)
    as (Hcache & _ & _ & Heff).
  split; [exact H|]. split; [exact Hcache|]. split; [|reflexivity].
  destruct Heff as [Heff|Heff]; [discriminate Heff|exact Heff].
Defined.

Lemma warnings_bridge_installed_once_witness :
  let s :=
    run structlog_NAME_TO_LEVEL true logging_dictConfig_raises
      [CallConfigure verbose_call; CallConfigure default_call;
       CallConfigure text_stream_call; CallProcessors false]
      process_start in
  Configure._warnings_showwarning s = Some Configure.WarningsDefault /\
  Configure.warnings_showwarning s = Some Configure.Bridge.
Proof.
  intros s.
  destruct (warnings_bridge_installed_once structlog_NAME_TO_LEVEL true
              logging_dictConfig_raises process_start Configure.WarningsDefault
              [CallConfigure verbose_call; CallConfigure default_call;
               CallConfigure text_stream_call; CallProcessors false]
              eq_refl eq_refl) as [Hb _].
  - repeat constructor.
  - destruct Hb as [[Hnone _]|Hb]; [discriminate Hnone|exact Hb].
Defined.

Lemma configure_logging_installs_witness :
  exists sc dc,
    Configure.effects (snd (configure_here default_call process_start))
    = [Configure.DictConfig dc; Configure.StructlogConfigure sc] /\
    Configure.sc_wrapper_level sc = 10%Z /\
    Configure.handlers_level dc = "DEBUG" /\
    Configure.root_handlers dc = ["default"] /\
    In Configure.redact_jwt (Configure.sc_processors sc).
Proof.
  destruct (configure_logging_installs structlog_NAME_TO_LEVEL true
              logging_dictConfig_raises process_start [] default_call
              (snd (configure_here default_call process_start)) eq_refl)
    as (id & lvl & sc & dc & Heff & Hlvl & Hinst & Hred & _).
  - intros Hin. by apply elem_of_nil in Hin.
  - vm_compute. reflexivity.
  - destruct Hinst as (_ & Hw & _ & Hh & _ & Hroot & _).
    exists sc, dc. split; [exact Heff|]. injection Hlvl as <-.
    split; [exact Hw|]. split; [exact Hh|]. split; [exact Hroot|exact Hred].
Defined.

Lemma reset_logging_after_configure_witness :
  let s1 := snd (configure_here default_call process_start) in
  Configure.warnings_showwarning s1 = Some Configure.Bridge /\
  Configure.warnings_showwarning
    (snd (Configure.reset_logging
       (run structlog_NAME_TO_LEVEL true logging_dictConfig_raises
          [CallConfigure text_stream_call] s1)))
  = Some Configure.WarningsDefault.
Proof.
  intros s1. split; [reflexivity|].
  refine (proj1 (reset_logging_after_configure structlog_NAME_TO_LEVEL true
            logging_dictConfig_raises process_start s1 Configure.WarningsDefault
            [] [CallConfigure text_stream_call] default_call
            eq_refl eq_refl eq_refl _ _ _)).
  - constructor.
  - repeat constructor.
  - vm_compute. reflexivity.
Defined.

(** ** Log file helpers, in general *)

Section LogFileMore.

Import LogFile.





(** A mode that does not fit stops [_prepare_log_folder] at the first
    [mkdir], whatever is on the file system. *)
Lemma prepare_log_folder_overflow d mode st :
  fits_int mode = false ->
  _prepare_log_folder d mode st = (Raise (OtherException "OverflowError"), st).
Proof.
  intros Hfits. unfold _prepare_log_folder, mbind, M_bind, bind.
  rewrite rev_parents.
  destruct (parts d) as [|x l] eqn:E; simpl.
  - unfold mkdir. by rewrite Hfits.
  - unfold mbind, M_bind, bind, mkdir. by rewrite Hfits.
Qed.



Lemma int8_state s st : snd (int8 s st) = st.
Proof.
  unfold int8. destruct (split_sign (lstrip s)) as [negative unsigned].
  destruct (skip_prefix unsigned) as [|c r]; [done|].
  destruct (octal_digit c); [|done].
  destruct (octal_digits _ false 0) as [[v rest]|]; [|done].
  by destruct (lstrip rest).
Qed.

(** What [int(s, 8)] takes besides plain digits: blanks around the
    literal, a sign, the prefix with an underscore after it, and single
    underscores between digits; and what it refuses. *)
Lemma int8_literals (st : state) :
  int8 "0o664" st = (Return 436%Z, st) /\
  int8 "664" st = (Return 436%Z, st) /\
  int8 " 0o664 " st = (Return 436%Z, st) /\
  int8 "0o6_64" st = (Return 436%Z, st) /\
  int8 "0O_664" st = (Return 436%Z, st) /\
  int8 "-0o664" st = (Return (-436)%Z, st) /\
  int8 "+664" st = (Return 436%Z, st) /\
  (forall s,
     In s [""; "0o"; "0o8"; "668"; "_664"; "664_"; "6__64"; "0o__664";
           "- 664"; "0o 664"; "6 64"; "0x1b4"; "rw-rw-r--"] ->
     int8 s st
     = (Raise (ValueError "invalid literal for int() with base 8"), st)).
Proof.
  repeat split; try reflexivity.
  intros s Hs. simpl in Hs.
  repeat (destruct Hs as [<-|Hs]; [reflexivity|]). destruct Hs.
Qed.



(** X12. A configuration that cannot be read stops [init_log_file] before
    it touches the file system: a file-permission option that
    [int(s, 8)] refuses raises, then a folder-permission option that it
    refuses, then an unset base folder; in each case the state is as it
    was. *)
Theorem init_log_file_configuration_errors (c : conf) (rel : string)
    (st : state) :
  (forall e,
     fst (int8 (default "0o664"
       (logging_file_task_handler_new_file_permissions c)) st) = Raise e ->
     init_log_file c rel st = (Raise e, st)) /\
  (forall bits e,
     fst (int8 (default "0o664"
       (logging_file_task_handler_new_file_permissions c)) st) = Return bits ->
     fst (int8 (default "0o775"
       (logging_file_task_handler_new_folder_permissions c)) st) = Raise e ->
     init_log_file c rel st = (Raise e, st)) /\
  (forall bits1 bits2,
     fst (int8 (default "0o664"
       (logging_file_task_handler_new_file_permissions c)) st) = Return bits1 ->
     fst (int8 (default "0o775"
       (logging_file_task_handler_new_folder_permissions c)) st) = Return bits2 ->
     logging_base_log_folder c = None ->
     init_log_file c rel st
     = (Raise (OtherException "AirflowConfigException"), st)).
Proof.
  pose proof (int8_state (default "0o664"
    (logging_file_task_handler_new_file_permissions c)) st) as H1.
  pose proof (int8_state (default "0o775"
    (logging_file_task_handler_new_folder_permissions c)) st) as H2.
  unfold init_log_file, mbind, M_bind.
  destruct (int8 (default "0o664" _) st) as [r1 st1] eqn:E1.
  destruct (int8 (default "0o775" _) st) as [r2 st2] eqn:E2.
  simpl in *. subst st1 st2.
  split; [|split].
  - intros e ->. unfold bind at 1. by rewrite E1.
  - intros bits e -> ->. unfold bind at 1. rewrite E1.
    unfold bind at 1. by rewrite E2.
  - intros bits1 bits2 -> -> Hbase. unfold bind at 1. rewrite E1.
    unfold bind at 1. rewrite E2.
    unfold bind at 1, get_base_log_folder. by rewrite Hbase.
Qed.

End LogFileMore.

(** The file permission written the way [chmod] takes it. *)
Definition symbolic_conf : LogFile.conf :=
  {| LogFile.logging_file_task_handler_new_file_permissions := Some "rw-rw-r--";
     LogFile.logging_file_task_handler_new_folder_permissions := None;
     LogFile.logging_base_log_folder := Some "/logs" |}.

Lemma init_log_file_configuration_errors_witness :
  LogFile.init_log_file symbolic_conf "a/b/c.log" logs_disk
  = (Raise (ValueError "invalid literal for int() with base 8"), logs_disk).
Proof.
  destruct (init_log_file_configuration_errors symbolic_conf "a/b/c.log"
              logs_disk) as (Hfile & _).
  apply Hfile. reflexivity.
Defined.


(** ** Warnings, and the hand-over of a log file *)

Lemma showwarning_routes_witness :
  let s := snd (configure_here default_call process_start) in
  let to_file :=
    {| Remote.w_message := "deprecated"; Remote.w_category := "UserWarning";
       Remote.w_filename := "dag.py"; Remote.w_lineno := 3;
       Remote.w_file := Some 2; Remote.w_line := None |} in
  Configure.warnings_showwarning s = Some Configure.Bridge /\
  Remote._showwarning to_file s
  = Remote.Delegated Configure.WarningsDefault to_file.
Proof.
  intros s to_file. split; [reflexivity|].
  destruct (showwarning_routes structlog_NAME_TO_LEVEL true
              logging_dictConfig_raises process_start Configure.WarningsDefault
              [CallConfigure default_call] to_file eq_refl eq_refl)
    as [Hfile _]; [done|repeat constructor|reflexivity|].
  by apply Hfile.
Defined.

Section PathText.

Import LogFile Remote.

(** A component that [Path] keeps as it is: not empty, not [.], and
    without a slash. *)
Definition clean_part (s : string) : Prop :=
  s <> "" /\ s <> "." /\ ~ In "/"%char (list_ascii_of_string s).

Definition clean (p : Path) : Prop := Forall clean_part (parts p).

Lemma split_slash_append (s r : string) :
  ~ In "/"%char (list_ascii_of_string s) ->
  split_slash (String.append s (String "/" r)) = s :: split_slash r.
Proof.
  induction s as [|c s IH]; simpl; intros Hs; [done|].
  destruct (Ascii.eqb_spec c "/") as [->|Hc]; [tauto|].
  rewrite IH by tauto. done.
Qed.

Lemma split_slash_plain (s : string) :
  ~ In "/"%char (list_ascii_of_string s) -> split_slash s = [s].
Proof.
  induction s as [|c s IH]; simpl; intros Hs; [done|].
  destruct (Ascii.eqb_spec c "/") as [->|Hc]; [tauto|].
  rewrite IH by tauto. done.
Qed.

Lemma split_join_slash (l : list string) :
  l <> [] -> Forall clean_part l -> split_slash (join_slash l) = l.
Proof.
  induction l as [|p [|q r] IH]; intros Hne Hl; [done| |].
  - apply Forall_cons in Hl as [(_ & _ & Hp) _]. by apply split_slash_plain.
  - apply Forall_cons in Hl as [(_ & _ & Hp) Hl].
    change (join_slash (p :: q :: r))
      with (String.append p (String "/" (join_slash (q :: r)))).
    rewrite split_slash_append by done. f_equal. by apply IH.
Qed.

Lemma filter_clean (l : list string) :
  Forall clean_part l ->
  List.filter (fun p => negb (String.eqb p "") && negb (String.eqb p ".")) l
  = l.
Proof.
  induction 1 as [|p l (H1 & H2 & _) _ IH]; simpl; [done|].
  destruct (String.eqb_spec p ""); [done|].
  destruct (String.eqb_spec p "."); [done|]. simpl. by rewrite IH.
Qed.

Lemma prefix_slash (c : ascii) (s : string) :
  String.prefix "/" (String c s) = if Ascii.eqb c "/" then true else false.
Proof.
  change (String.prefix "/" (String c s))
    with (match ascii_dec "/" c with
          | left _ => String.prefix "" s
          | right _ => false
          end).
  destruct (ascii_dec "/" c) as [<-|Hne].
  - by destruct s.
  - destruct (Ascii.eqb_spec c "/"); congruence.
Qed.

Lemma join_slash_no_root (l : list string) :
  l <> [] -> Forall clean_part l -> String.prefix "/" (join_slash l) = false.
Proof.
  destruct l as [|p r]; [done|]. intros _ [(Hp & _ & Hs) _]%Forall_cons.
  destruct p as [|c p]; [done|].
  assert (Hc : c <> "/"%char) by (intros ->; apply Hs; by left).
  assert (Hgoal : forall t, String.prefix "/" (String c t) = false).
  { intros t. rewrite prefix_slash. by destruct (Ascii.eqb_spec c "/"). }
  destruct r; [apply Hgoal|].
  change (join_slash (String c p :: s :: r))
    with (String c (String.append p (String "/" (join_slash (s :: r))))).
  apply Hgoal.
Qed.

Lemma parse_as_posix (p : Path) : clean p -> parse_path (as_posix p) = p.
Proof.
  destruct p as [a l]. unfold clean, parse_path, as_posix.
  cbn [parts absolute]. intros Hl. destruct l as [|x l]; [by destruct a|].
  destruct a.
  - rewrite prefix_slash. simpl Ascii.eqb. cbv iota. f_equal.
    change (split_slash (String "/" (join_slash (x :: l))))
      with ("" :: split_slash (join_slash (x :: l))).
    rewrite split_join_slash by done.
    change (List.filter (fun p => negb (String.eqb p "") && negb (String.eqb p "."))
              ("" :: x :: l))
      with (List.filter (fun p => negb (String.eqb p "") && negb (String.eqb p "."))
              (x :: l)).
    by apply filter_clean.
  - rewrite join_slash_no_root by done. f_equal.
    rewrite split_join_slash by done. by apply filter_clean.
Qed.

Lemma strip_prefix_app (base rest : list string) :
  strip_prefix (base ++ rest) base = Some rest.
Proof.
  induction base as [|b base IH]; simpl; [by destruct rest|].
  by rewrite String.eqb_refl.
Qed.

(** X14. The base folder and a relative path, both made of clean
    components: the path [init_log_file] builds from them, written as
    text and read back, is the same path; taken relative to the base
    folder, as [upload_to_remote] does with the name of the log file, it
    is the relative path that was passed in; and a path that is not
    below the base folder raises [ValueError]. *)
Theorem handover_path_round_trip {S} (base rel : Path) (s : S) :
  clean base -> clean rel -> absolute rel = false ->
  let full_path := join_path base rel in
  parse_path (as_posix full_path) = full_path /\
  relative_to (parse_path (as_posix full_path)) (parse_path (as_posix base)) s
    = (Return rel, s) /\
  (forall other : Path,
     strip_prefix (parts other) (parts base) = None ->
     relative_to other base s
       = (Raise (ValueError "is not in the subpath of"), s)).
Proof.
  intros Hbase Hrel Habs full_path.
  assert (Hfull : clean full_path).
  { unfold full_path, join_path, clean. rewrite Habs. simpl.
    by apply Forall_app. }
  rewrite !parse_as_posix by done. split; [done|]. split.
  - unfold relative_to, full_path, join_path. rewrite Habs. simpl.
    rewrite Bool.eqb_reflx, strip_prefix_app. simpl.
    destruct rel as [a l]. simpl in Habs. by subst a.
  - intros other Hother. unfold relative_to. rewrite Hother.
    by destruct (negb _).
Qed.

End PathText.

Definition rel_path (l : list string) : LogFile.Path :=
  {| LogFile.absolute := false; LogFile.parts := l |}.

Lemma handover_path_round_trip_witness :
  Remote.as_posix
    (LogFile.join_path (abs_path ["logs"]) (rel_path ["a"; "b"; "c.log"]))
  = "/logs/a/b/c.log" /\
  Remote.relative_to (LogFile.parse_path "/logs/a/b/c.log")
    (LogFile.parse_path "/logs") tt
  = (Return (rel_path ["a"; "b"; "c.log"]), tt).
Proof.
  split; [reflexivity|].
  refine (proj1 (proj2 (handover_path_round_trip (abs_path ["logs"])
            (rel_path ["a"; "b"; "c.log"]) tt _ _ eq_refl))).
  - repeat constructor; try done; simpl; intuition discriminate.
  - repeat constructor; try done; simpl; intuition discriminate.
Defined.

(** ** The hand-over to the remote log handler *)

Section HandoverFacts.

Import Configure Remote.

Variable NAME_TO_LEVEL : list (string * Z).
Variable has_BaseExceptionGroup : bool.
Variable dictConfig_raises : dict_config -> option raised.
Variable airflow_configure_logging : Configure.M unit.
Variable task_log_reader_handler : Configure.M handler_obj.
Variable base_log_folder : option string.

Local Abbreviation configure :=
  (configure_logging NAME_TO_LEVEL has_BaseExceptionGroup dictConfig_raises).
Local Abbreviation load :=
  (load_remote_log_handler NAME_TO_LEVEL has_BaseExceptionGroup
     dictConfig_raises airflow_configure_logging task_log_reader_handler).
Local Abbreviation upload :=
  (upload_to_remote NAME_TO_LEVEL has_BaseExceptionGroup dictConfig_raises
     airflow_configure_logging task_log_reader_handler base_log_folder).

(** The [try] block of [load_remote_log_handler]. *)
Definition core_logging : Configure.M handler_obj :=
  airflow_configure_logging;; task_log_reader_handler.

Lemma load_unfold s :
  load s =
    match configure no_arguments (snd (core_logging s)) with
    | (Return _, s2) => (fst (core_logging s), s2)
    | (Raise e, s2) => (Raise e, s2)
    end.
Proof.
  unfold load_remote_log_handler, try_finally. fold core_logging.
  by destruct (core_logging s).
Qed.

(** X15. [load_remote_log_handler] runs [configure_logging()] after the
    [try] block, whatever the block did. When that call is already in
    the cache of [configure_logging] it does nothing: the state is the
    one the block left, so the logging set up by the core configuration
    is not replaced. When it is not in the cache and the function
    returns a handler, the block returned that handler and both
    libraries have been configured again, after the block. An exception
    of the block is never turned into a return, and an exception of
    [configure_logging()] replaces the outcome of the block. *)
Theorem load_remote_log_handler_puts_back (s : state) :
  let s1 := snd (core_logging s) in
  (no_arguments ∈ configure_logging_cache s1 -> load s = core_logging s) /\
  (no_arguments ∉ configure_logging_cache s1 ->
   forall h s2, load s = (Return h, s2) ->
     fst (core_logging s) = Return h /\
     no_arguments ∈ configure_logging_cache s2 /\
     exists sc dc,
       effects s2 = DictConfig dc :: StructlogConfigure sc :: effects s1) /\
  (forall e, fst (core_logging s) = Raise e ->
     exists e', fst (load s) = Raise e' /\
       (e' = e \/ fst (configure no_arguments s1) = Raise e')) /\
  (forall e, fst (configure no_arguments s1) = Raise e ->
     fst (load s) = Raise e).
Proof.
  intros s1. rewrite load_unfold. fold s1.
  split; [|split; [|split]].
  - intros Hin. rewrite (configure_hit _ _ _ _ _ Hin).
    unfold s1. by destruct (core_logging s).
  - intros Hout h s2.
    destruct (configure_cases NAME_TO_LEVEL has_BaseExceptionGroup
                dictConfig_raises no_arguments s1)
      as [[Hin _]|(_ & r & s' & Hbody & ->)]; [done|].
    destruct r as [u|e]; [|done]. intros [= Hh <-]. split; [done|].
    split; [simpl; apply list_elem_of_here|].
    apply body_returns_effects in Hbody as (sc & dc & He & _).
    by exists sc, dc.
  - intros e He. rewrite He.
    destruct (configure no_arguments s1) as [[u|e'] s2]; simpl.
    + exists e. by split; [|left].
    + exists e'. by split; [|right].
  - intros e. destruct (configure no_arguments s1) as [[u|e'] s2]; simpl;
      [done|]. by intros [= ->].
Qed.

(** The handler [upload_to_remote] closes for a file name below the base
    folder. *)
Definition handed_over (id : nat) (meta : dict) (rel : list string)
  : closed_handler :=
  {| closed_id := id;
     log_meta_dict := meta;
     log_relative_path :=
       as_posix {| LogFile.absolute := false; LogFile.parts := rel |};
     upload_on_close := true |}.

Definition unexpected_type (logger : bound_logger) : string * dict :=
  ("Unable to find log file, logger was of unexpected type",
   [("type", VType (logger_type logger))]).

(** X16. [upload_to_remote] on any logger. A logger without a raw logger
    or without a [_file] gets one warning and nothing else happens. A
    file with descriptor 1, or with a name that is not text, ends the
    call with nothing changed at all: no warning, no logging
    configuration, no handler. A name outside the base log folder
    raises [ValueError] before the handler is looked up, so the logging
    configuration is untouched. Whatever the call does, it closes at
    most one handler, and only a [FileTaskHandler], after setting on it
    the metadata it was given, the path of the file relative to the base
    folder, and [upload_on_close]. *)
Theorem upload_to_remote_hands_over (logger : bound_logger) (meta : dict)
    (w : world) :
  let out := upload logger meta w in
  ((_logger logger = None \/
    exists raw, _logger logger = Some raw /\ _file raw = None) ->
   out = (Return tt,
          {| process := process w;
             logger_warnings := logger_warnings w ++ [unexpected_type logger];
             closed := closed w |})) /\
  (forall raw fh,
     _logger logger = Some raw -> _file raw = Some fh ->
     fh_fileno fh = 1%Z \/ (forall name, fh_name fh <> VStr name) ->
     out = (Return tt, w)) /\
  (forall raw fh name folder,
     _logger logger = Some raw -> _file raw = Some fh ->
     fh_fileno fh <> 1%Z -> fh_name fh = VStr name ->
     base_log_folder = Some folder ->
     LogFile.absolute (LogFile.parse_path name)
       <> LogFile.absolute (LogFile.parse_path folder) \/
     strip_prefix (LogFile.parts (LogFile.parse_path name))
       (LogFile.parts (LogFile.parse_path folder)) = None ->
     out = (Raise (ValueError "is not in the subpath of"), w)) /\
  (closed (snd out) = closed w \/
   exists raw fh name folder rel id s2,
     _logger logger = Some raw /\ _file raw = Some fh /\
     fh_fileno fh <> 1%Z /\ fh_name fh = VStr name /\
     base_log_folder = Some folder /\
     strip_prefix (LogFile.parts (LogFile.parse_path name))
       (LogFile.parts (LogFile.parse_path folder)) = Some rel /\
     load (process w) = (Return (FileTaskHandler id), s2) /\
     out = (Return tt,
            {| process := s2;
               logger_warnings := logger_warnings w;
               closed := closed w ++ [handed_over id meta rel] |})).
Proof.
  intros out. split; [|split; [|split]].
  - intros [Hl|(raw & Hl & Hf)]; unfold out, upload_to_remote; rewrite Hl;
      [done|]. by rewrite Hf.
  - intros raw fh Hl Hf Hskip. unfold out, upload_to_remote.
    rewrite Hl, Hf. destruct Hskip as [H1|Hname].
    + rewrite H1. done.
    + destruct (fh_fileno fh =? 1)%Z; [done|].
      destruct (fh_name fh) eqn:E; try done. by destruct (Hname s).
  - intros raw fh name folder Hl Hf Hfd Hname Hbase Hrel.
    unfold out, upload_to_remote. rewrite Hl, Hf, Hname, Hbase.
    apply Z.eqb_neq in Hfd. rewrite Hfd.
    unfold relative_to, mbind, M_bind, bind, mret, M_ret, ret.
    destruct Hrel as [Habs|Hrel].
    + destruct (Bool.eqb _ _) eqn:E; [|done].
      by apply Bool.eqb_prop in E.
    + rewrite Hrel. by destruct (negb _).
  - unfold out, upload_to_remote.
    destruct (_logger logger) as [raw|] eqn:Hl; [|by left].
    destruct (_file raw) as [fh|] eqn:Hf; [|by left].
    destruct (fh_fileno fh =? 1)%Z eqn:Hfd; [by left|].
    destruct (fh_name fh) as [| | |name| | | | | |] eqn:Hname; try by left.
    destruct base_log_folder as [folder|] eqn:Hbase; [|by left].
    unfold relative_to, mbind, M_bind, bind, mret, M_ret, ret.
    destruct (negb _); [by left|].
    destruct (strip_prefix _ _) as [rel|] eqn:Hrel; [|by left].
    unfold lift. destruct (load (process w)) as [[h|e] s2] eqn:Hload;
      [|left; reflexivity].
    destruct h as [|id|t]; try (left; reflexivity).
    right. exists raw, fh, name, folder, rel, id, s2.
    apply Z.eqb_neq in Hfd. done.
Qed.

End HandoverFacts.

(** ** The Calendar hook *)

Section CalendarFacts.

Import Calendar.

Variable world : Type.
Variable _authorize : Py.M world http.
Variable build : string -> string -> http -> bool -> Py.M world service.
Variable list_execute : service -> EventsList.kwargs -> Z -> Py.M world dict.
Variable insert_execute : service -> EventsInsert.kwargs -> Z -> Py.M world dict.

Local Abbreviation conn_of := (get_conn _authorize build).
Local Abbreviation page_of := (get_events_page list_execute).
Local Abbreviation loop := (get_events_loop list_execute).
Local Abbreviation events_of := (get_events _authorize build list_execute).
Local Abbreviation create := (create_event _authorize build insert_execute).

(** The hook after library calls [extra] that left the world as [w]. *)
Definition after_calls (w : world) (extra : list api_call) (h : hook world)
  : hook world :=
  {| api_version := api_version h; num_retries := num_retries h;
     _conn := _conn h; outside := w; calls := calls h ++ extra |}.

Lemma after_calls_nil h : after_calls (outside h) [] h = h.
Proof. destruct h. unfold after_calls. simpl. by rewrite app_nil_r. Qed.

Lemma after_calls_twice w1 l1 w2 l2 h :
  after_calls w2 l2 (after_calls w1 l1 h) = after_calls w2 (l1 ++ l2) h.
Proof. unfold after_calls. simpl. by rewrite app_assoc. Qed.

Lemma external_after {A} (c : api_call) (m : Py.M world A) h :
  external c m h = (fst (m (outside h)), after_calls (snd (m (outside h))) [c] h).
Proof. unfold external. by destruct (m (outside h)). Qed.

(** *** The connection *)

Lemma get_conn_hit h c : _conn h = Some c -> conn_of h = (Return c, h).
Proof.
  intros Hc. unfold get_conn, mbind, M_bind, bind, gets. by rewrite Hc.
Qed.

(** What [get_conn] does on a hook without a connection. *)
Lemma get_conn_miss h :
  _conn h = None ->
  match _authorize (outside h) with
  | (Raise e, w1) => conn_of h = (Raise e, after_calls w1 [Authorize] h)
  | (Return t, w1) =>
      let made := [Authorize; Build "calendar" (api_version h) t false] in
      match build "calendar" (api_version h) t false w1 with
      | (Raise e, w2) => conn_of h = (Raise e, after_calls w2 made h)
      | (Return c, w2) =>
          conn_of h = (Return c, set_conn (Some c) (after_calls w2 made h))
      end
  end.
Proof.
  intros Hc. unfold get_conn, mbind, M_bind, bind, gets. rewrite Hc.
  rewrite external_after.
  destruct (_authorize (outside h)) as [[t|e] w1]; simpl; [|done].
  rewrite external_after. simpl.
  destruct (build "calendar" (api_version h) t false w1) as [[c|e] w2]; simpl.
  - unfold after_calls, set_conn. simpl. by rewrite <- app_assoc.
  - unfold after_calls. simpl. by rewrite <- app_assoc.
Qed.

Lemma get_conn_returns h c h1 :
  conn_of h = (Return c, h1) ->
  _conn h1 = Some c /\ num_retries h1 = num_retries h /\
  api_version h1 = api_version h.
Proof.
  destruct (_conn h) as [c0|] eqn:Hc.
  - rewrite (get_conn_hit _ _ Hc). by intros [= <- <-].
  - pose proof (get_conn_miss h Hc) as H.
    destruct (_authorize (outside h)) as [[t|e] w1]; [|by rewrite H].
    simpl in H.
    destruct (build "calendar" (api_version h) t false w1) as [[c1|e] w2];
      rewrite H; [|done].
    by intros [= <- <-].
Qed.

(** A request made through the service object [c]. *)
Definition through (c : service) (call : api_call) : Prop :=
  match call with
  | ListExecute c' _ _ | InsertExecute c' _ _ => c' = c
  | Authorize | Build _ _ _ _ => False
  end.

(** The hook keeps the connection [c]; the calls made since [h] are
    requests through [c]. *)
Definition continues (c : service) (h h' : hook world) : Prop :=
  _conn h' = Some c /\ num_retries h' = num_retries h /\
  api_version h' = api_version h /\
  exists later, calls h' = calls h ++ later /\ Forall (through c) later.

Lemma continues_refl c h : _conn h = Some c -> continues c h h.
Proof.
  intros Hc. split; [done|]. split; [done|]. split; [done|].
  exists []. by rewrite app_nil_r.
Qed.

Lemma continues_trans c h1 h2 h3 :
  continues c h1 h2 -> continues c h2 h3 -> continues c h1 h3.
Proof.
  intros (_ & Hn1 & Hv1 & l1 & Hl1 & Ht1) (Hc & Hn2 & Hv2 & l2 & Hl2 & Ht2).
  split; [done|]. split; [congruence|]. split; [congruence|].
  exists (l1 ++ l2). split; [|by apply Forall_app].
  by rewrite Hl2, Hl1, app_assoc.
Qed.

Lemma continues_after c h w l :
  _conn h = Some c -> Forall (through c) l -> continues c h (after_calls w l h).
Proof.
  intros Hc Hl. split; [done|]. split; [done|]. split; [done|]. by exists l.
Qed.

(** *** One page *)

Lemma get_events_page_after c a tok events h :
  snd (page_of c a tok events h)
  = after_calls
      (snd (list_execute c (list_kwargs a tok) (num_retries h) (outside h)))
      [ListExecute c (list_kwargs a tok) (num_retries h)] h.
Proof.
  unfold get_events_page, mbind, M_bind, bind, gets.
  rewrite external_after.
  destruct (list_execute c (list_kwargs a tok) (num_retries h) (outside h))
    as [[response|e] w1]; simpl; [|done].
  destruct (dict_get "items" response) as [items|]; simpl; [|done].
  by destruct (elements items).
Qed.

Lemma get_events_page_returns c a tok events h response w1 items page :
  list_execute c (list_kwargs a tok) (num_retries h) (outside h)
    = (Return response, w1) ->
  dict_get "items" response = Some items ->
  elements items = Some page ->
  page_of c a tok events h
  = (Return (events ++ page, default VNone (dict_get "nextPageToken" response)),
     after_calls w1 [ListExecute c (list_kwargs a tok) (num_retries h)] h).
Proof.
  intros Hr Hi He. unfold get_events_page, mbind, M_bind, bind, gets.
  rewrite external_after, Hr. simpl. rewrite Hi. simpl. by rewrite He.
Qed.

Lemma loop_continues fuel c a tok events h r h' :
  _conn h = Some c -> loop fuel c a tok events h = Some (r, h') ->
  continues c h h'.
Proof.
  revert tok events h. induction fuel as [|fuel IH]; intros tok events h Hc;
    [done|]. simpl.
  pose proof (get_events_page_after c a tok events h) as Hafter.
  assert (Hstep : continues c h (snd (page_of c a tok events h))).
  { rewrite Hafter. apply continues_after; [done|]. by repeat constructor. }
  destruct (page_of c a tok events h) as [[[events' tok']|e] h1]; simpl in *.
  - destruct (negb (truthy tok')).
    + by intros [= <- <-].
    + intros H. apply IH in H; [|by destruct Hstep].
      by eapply continues_trans.
  - by intros [= <- <-].
Qed.

(** *** The methods called one after the other *)

(** A call of a method of the hook that has ended, by a return or by an
    exception. *)
Inductive method_call : hook world -> hook world -> Prop :=
| call_get_conn h r h' : conn_of h = (r, h') -> method_call h h'
| call_get_events fuel a h r h' :
    events_of fuel a h = Some (r, h') -> method_call h h'
| call_create_event event a h r h' :
    create event a h = (r, h') -> method_call h h'.

Lemma method_call_continues c h h' :
  _conn h = Some c -> method_call h h' -> continues c h h'.
Proof.
  intros Hc Hcall. destruct Hcall as [h r h' H|fuel a h r h' H|event a h r h' H].
  - rewrite (get_conn_hit _ _ Hc) in H. injection H as <- <-.
    by apply continues_refl.
  - unfold get_events in H. rewrite (get_conn_hit _ _ Hc) in H.
    by eapply loop_continues.
  - unfold create_event in H.
    destruct (negb _ || negb _).
    + injection H as <- <-. by apply continues_refl.
    + unfold mbind, M_bind, bind, gets in H.
      rewrite (get_conn_hit _ _ Hc), external_after in H.
      injection H as <- <-. apply continues_after; [done|].
      by repeat constructor.
Qed.

(** X17. Once [get_conn] has returned a service object, every later call
    of [get_conn] returns that same object without a call to the
    library, whatever methods of the hook were called in between and
    however they ended; the library calls made in between are all
    requests through that object: the hook never authorises or builds a
    service again. *)
Theorem get_conn_memoised (h0 h h' : hook world) (c : service) :
  conn_of h0 = (Return c, h) ->
  rtc method_call h h' ->
  conn_of h' = (Return c, h') /\
  exists later, calls h' = calls h ++ later /\ Forall (through c) later.
Proof.
  intros H0 Hrun. apply get_conn_returns in H0 as (Hc & _).
  assert (Hk : continues c h h').
  { induction Hrun as [h|h1 h2 h3 Hstep _ IH]; [by apply continues_refl|].
    pose proof (method_call_continues _ _ _ Hc Hstep) as H12.
    eapply continues_trans; [exact H12|]. apply IH. by destruct H12. }
  destruct Hk as (Hc' & _ & _ & Hlater).
  split; [by apply get_conn_hit|done].
Qed.

(** X18. A connection that could not be made is not remembered: when
    [get_conn] raises, which it does only from [_authorize] or from
    [build], the hook has no connection afterwards, and the next call of
    [get_conn] starts by authorising again. *)
Theorem get_conn_failure_not_kept (h h1 : hook world) (e : raised) :
  conn_of h = (Raise e, h1) ->
  _conn h = None /\ _conn h1 = None /\
  (calls h1 = calls h ++ [Authorize] \/
   exists t, calls h1
     = calls h ++ [Authorize; Build "calendar" (api_version h) t false]) /\
  exists later, calls (snd (conn_of h1)) = calls h1 ++ Authorize :: later.
Proof.
  intros H.
  assert (Hc : _conn h = None).
  { destruct (_conn h) as [c|] eqn:Hc; [|done].
    by rewrite (get_conn_hit _ _ Hc) in H. }
  split; [done|]. pose proof (get_conn_miss h Hc) as Hm.
  assert (Hnone : _conn h1 = None /\ api_version h1 = api_version h /\
    (calls h1 = calls h ++ [Authorize] \/
     exists t, calls h1
       = calls h ++ [Authorize; Build "calendar" (api_version h) t false])).
  { destruct (_authorize (outside h)) as [[t|e1] w1].
    - simpl in Hm.
      destruct (build "calendar" (api_version h) t false w1) as [[c|e2] w2];
        rewrite Hm in H; [done|].
      injection H as <- <-. split; [done|]. split; [done|]. right. by exists t.
    - rewrite Hm in H. injection H as <- <-. split; [done|]. split; [done|].
      by left. }
  destruct Hnone as (Hc1 & Hv & Hcalls). split; [done|]. split; [done|].
  pose proof (get_conn_miss h1 Hc1) as Hm1.
  destruct (_authorize (outside h1)) as [[t|e1] w1].
  - simpl in Hm1.
    destruct (build "calendar" (api_version h1) t false w1) as [[c|e2] w2];
      rewrite Hm1; simpl; by eexists.
  - rewrite Hm1. simpl. by eexists.
Qed.

(** *** Pages *)

Section Pages.

Variables (c : service) (a : GetEvents.kwargs) (n : Z).

Definition request (tok : value) : api_call :=
  ListExecute c (list_kwargs a tok) n.

(** The response to the request with page token [tok] in world [w]: the
    events of the page, the value under "nextPageToken" ([None] without
    one), and the world afterwards. *)
Definition page (tok : value) (w : world) (events : list value) (next : value)
    (w' : world) : Prop :=
  exists response items,
    list_execute c (list_kwargs a tok) n w = (Return response, w') /\
    dict_get "items" response = Some items /\
    elements items = Some events /\
    default VNone (dict_get "nextPageToken" response) = next.

(** Pages that each name a next page: the page token sent and the events
    received, page by page, from token [tok] in world [w] up to the
    token [tok'] of the page to ask for next, in world [w']. *)
Inductive paged : value -> world -> list (value * list value) -> value ->
    world -> Prop :=
| paged_nil tok w : paged tok w [] tok w
| paged_cons tok w events next w1 rest tok' w' :
    page tok w events next w1 ->
    truthy next = true ->
    paged next w1 rest tok' w' ->
    paged tok w ((tok, events) :: rest) tok' w'.

(** How the request for a page fails: the request raises, the response
    has no "items", or they cannot be iterated. *)
Inductive page_fails (tok : value) (w : world) : raised -> world -> Prop :=
| request_raises e w' :
    list_execute c (list_kwargs a tok) n w = (Raise e, w') ->
    page_fails tok w e w'
| items_missing response w' :
    list_execute c (list_kwargs a tok) n w = (Return response, w') ->
    dict_get "items" response = None ->
    page_fails tok w (KeyError "items") w'
| items_not_iterable response items w' :
    list_execute c (list_kwargs a tok) n w = (Return response, w') ->
    dict_get "items" response = Some items ->
    elements items = None ->
    page_fails tok w (TypeError "object is not iterable") w'.

Definition events_of_pages (steps : list (value * list value)) : list value :=
  concat (map snd steps).

Definition requests (steps : list (value * list value)) : list api_call :=
  map (fun step => request (fst step)) steps.

Lemma page_returns tok events h page_events next w1 :
  num_retries h = n ->
  page tok (outside h) page_events next w1 ->
  page_of c a tok events h
  = (Return (events ++ page_events, next), after_calls w1 [request tok] h).
Proof.
  intros Hn (response & items & Hr & Hi & He & <-).
  unfold request. rewrite <- Hn in Hr |- *.
  by erewrite get_events_page_returns.
Qed.

Lemma page_raises tok events h e w1 :
  num_retries h = n ->
  page_fails tok (outside h) e w1 ->
  page_of c a tok events h = (Raise e, after_calls w1 [request tok] h).
Proof.
  intros Hn H.
  unfold get_events_page, mbind, M_bind, bind, gets, request.
  rewrite external_after, Hn.
  destruct H as [e w' Hr|response w' Hr Hi|response items w' Hr Hi He];
    rewrite Hr; simpl; [done| |].
  - by rewrite Hi.
  - rewrite Hi. simpl. by rewrite He.
Qed.

(** The loop goes through the pages that name a next page. *)
Lemma loop_paged fuel tok events h steps tok' w' :
  num_retries h = n ->
  paged tok (outside h) steps tok' w' ->
  loop (length steps + fuel) c a tok events h
  = loop fuel c a tok' (events ++ events_of_pages steps)
      (after_calls w' (requests steps) h).
Proof.
  intros Hn Hp. remember (outside h) as w eqn:Hw.
  revert events h Hn Hw.
  induction Hp as [tok w|tok w page_events next w1 rest tok' w' Hpage Hnext _ IH];
    intros events h Hn Hw; subst w.
  - unfold events_of_pages, requests. simpl.
    by rewrite app_nil_r, after_calls_nil.
  - simpl. rewrite (page_returns _ _ _ _ _ _ Hn Hpage), Hnext. simpl.
    rewrite IH by done. rewrite after_calls_twice.
    unfold events_of_pages. simpl. by rewrite app_assoc.
Qed.

End Pages.

(** X19. [get_events] with a server that hands out pages: each page but
    the last names a next page with a token that is truthy, the last one
    has no token or a falsy one. The call returns the events of all
    pages, in the order of the pages and within a page in the order
    received; it has made one request per page, the first with page
    token [None] and each later one with the token of the page before,
    all with the arguments of the call; and it makes no request after
    the last page. *)
Theorem get_events_pages (h h1 : hook world) (c : service)
    (a : GetEvents.kwargs) (steps : list (value * list value))
    (tok : value) (w1 : world) (last_events : list value) (next : value)
    (w2 : world) (fuel : nat) :
  conn_of h = (Return c, h1) ->
  paged c a (num_retries h1) VNone (outside h1) steps tok w1 ->
  page c a (num_retries h1) tok w1 last_events next w2 ->
  truthy next = false ->
  length steps < fuel ->
  events_of fuel a h
  = Some (Return (events_of_pages (steps ++ [(tok, last_events)])),
          after_calls w2
            (requests c a (num_retries h1) (steps ++ [(tok, last_events)]))
            h1).
Proof.
  intros Hconn Hpaged Hlast Hnext Hfuel. unfold get_events. rewrite Hconn.
  replace fuel with (length steps + S (fuel - S (length steps))) by lia.
  rewrite (loop_paged _ _ _ _ _ _ _ _ _ _ eq_refl Hpaged). simpl.
  erewrite page_returns; [|done|exact Hlast]. rewrite Hnext. simpl.
  rewrite after_calls_twice. unfold events_of_pages, requests.
  rewrite !map_app, concat_app. simpl. by rewrite app_nil_r.
Qed.

(** X20. [get_events] when the request for a page fails after pages that
    each named a next page: the request raises, or the response has no
    "items" ([KeyError]), or the items cannot be iterated ([TypeError]).
    The call raises that exception, the events of the pages already
    received are not returned, and no request is made after the failed
    one. *)
Theorem get_events_page_failure (h h1 : hook world) (c : service)
    (a : GetEvents.kwargs) (steps : list (value * list value))
    (tok : value) (w1 : world) (e : raised) (w2 : world) (fuel : nat) :
  conn_of h = (Return c, h1) ->
  paged c a (num_retries h1) VNone (outside h1) steps tok w1 ->
  page_fails c a (num_retries h1) tok w1 e w2 ->
  length steps < fuel ->
  events_of fuel a h
  = Some (Raise e,
          after_calls w2
            (requests c a (num_retries h1) steps
               ++ [request c a (num_retries h1) tok])
            h1).
Proof.
  intros Hconn Hpaged Hfail Hfuel. unfold get_events. rewrite Hconn.
  replace fuel with (length steps + S (fuel - S (length steps))) by lia.
  rewrite (loop_paged _ _ _ _ _ _ _ _ _ _ eq_refl Hpaged). simpl.
  erewrite page_raises; [|done|exact Hfail].
  by rewrite after_calls_twice.
Qed.

(** X21. [get_events] with a server whose every response names a next
    page: the loop has no other way out, so the call does not return,
    whatever number of turns it is given. *)
Theorem get_events_endless (h h1 : hook world) (c : service)
    (a : GetEvents.kwargs) :
  conn_of h = (Return c, h1) ->
  (forall tok w, exists events next w',
     page c a (num_retries h1) tok w events next w' /\ truthy next = true) ->
  forall fuel, events_of fuel a h = None.
Proof.
  intros Hconn Hserver fuel. unfold get_events. rewrite Hconn.
  assert (Hloop : forall tok events h2,
    num_retries h2 = num_retries h1 -> loop fuel c a tok events h2 = None).
  { induction fuel as [|fuel IH]; intros tok events h2 Hn; [done|]. simpl.
    destruct (Hserver tok (outside h2)) as (page_events & next & w' & Hp & Ht).
    rewrite (page_returns _ _ _ _ _ _ _ _ _ Hn Hp), Ht. simpl.
    by apply IH. }
  by apply Hloop.
Qed.

(** X22. [create_event] checks the event before anything else: without
    "start" or without "end" it raises [AirflowException] and the hook
    is as before, with no connection made and no request sent. With
    both, and a connection, it sends one insert request whose body is
    the event as given and whose other arguments are those of the call,
    and returns the response of that request or raises what the request
    raises; when the connection cannot be made the exception of
    [get_conn] is raised and no request is sent. *)
Theorem create_event_validates (event : dict) (a : CreateEvent.kwargs)
    (h : hook world) :
  (dict_get "start" event = None \/ dict_get "end" event = None ->
   create event a h = (Raise (OtherException "AirflowException"), h)) /\
  (dict_get "start" event <> None -> dict_get "end" event <> None ->
   match conn_of h with
   | (Return c, h1) =>
       let sent :=
         {| EventsInsert.calendarId := CreateEvent.calendar_id a;
            EventsInsert.conferenceDataVersion :=
              CreateEvent.conference_data_version a;
            EventsInsert.maxAttendees := CreateEvent.max_attendees a;
            EventsInsert.sendNotifications := CreateEvent.send_notifications a;
            EventsInsert.sendUpdates := CreateEvent.send_updates a;
            EventsInsert.supportsAttachments :=
              CreateEvent.supports_attachments a;
            EventsInsert.body := event |} in
       let answer := insert_execute c sent (num_retries h) (outside h1) in
       create event a h
       = (fst answer,
          after_calls (snd answer) [InsertExecute c sent (num_retries h)] h1)
   | (Raise e, h1) => create event a h = (Raise e, h1)
   end).
Proof.
  split.
  - intros Hmissing. unfold create_event, dict_contains.
    destruct Hmissing as [-> | ->]; [done|].
    by destruct (dict_get "start" event).
  - intros Hstart Hend. unfold create_event, dict_contains.
    destruct (dict_get "start" event); [|done].
    destruct (dict_get "end" event); [|done]. simpl.
    unfold mbind, M_bind, bind, gets.
    destruct (conn_of h) as [[c|e] h1] eqn:Hconn; [|done].
    apply get_conn_returns in Hconn as (_ & -> & _).
    by rewrite external_after.
Qed.

End CalendarFacts.

(** ** A hand-over, and a calendar server *)

(** The core configuration as this module sees it, one more
    [dictConfig], and a core handler that is a [FileTaskHandler]. *)
Definition core_dict_config : Configure.dict_config :=
  {| Configure.plain_processors := [];
     Configure.colored_processors := [];
     Configure.foreign_pre_chain := [];
     Configure.handlers_level := "INFO";
     Configure.handlers_formatter := "airflow";
     Configure.to_supervisor_stream := None;
     Configure.root_handlers := ["console"];
     Configure.airflow_level := "INFO" |}.

Definition core_configure_logging : Configure.M unit :=
  Py.modify (Configure.add_effect (Configure.DictConfig core_dict_config)).

Definition core_log_handler : Configure.M Remote.handler_obj :=
  Py.ret (Remote.FileTaskHandler 0).

Definition load_here : Configure.M Remote.handler_obj :=
  Remote.load_remote_log_handler structlog_NAME_TO_LEVEL true
    logging_dictConfig_raises core_configure_logging core_log_handler.

Lemma load_remote_log_handler_puts_back_witness :
  let s := snd (configure_here default_call process_start) in
  fst (load_here s) = Return (Remote.FileTaskHandler 0) /\
  head (Configure.effects (snd (load_here s)))
  = Some (Configure.DictConfig core_dict_config).
Proof.
  intros s.
  destruct (load_remote_log_handler_puts_back structlog_NAME_TO_LEVEL true
              logging_dictConfig_raises core_configure_logging
              core_log_handler s) as [Hhit _].
  unfold load_here. rewrite Hhit; [split; reflexivity|].
  vm_compute. apply list_elem_of_here.
Defined.

Definition task_logger (name : string) (fd : Z) : Remote.bound_logger :=
  {| Remote.logger_type := "BoundLoggerFilteringAtDebug";
     Remote._logger :=
       Some {| Remote._file :=
                 Some {| Remote.fh_name := VStr name;
                         Remote.fh_fileno := fd |} |} |}.

Definition upload_here : Remote.bound_logger -> dict -> Py.M Remote.world unit :=
  Remote.upload_to_remote structlog_NAME_TO_LEVEL true
    logging_dictConfig_raises core_configure_logging core_log_handler
    (Some "/logs").

Definition task_world : Remote.world :=
  {| Remote.process := snd (configure_here default_call process_start);
     Remote.logger_warnings := [];
     Remote.closed := [] |}.

Lemma upload_to_remote_hands_over_witness :
  let meta := [("try_number", VInt 1)] in
  Remote.closed
    (snd (upload_here (task_logger "/logs/dag/run/1.log" 7) meta task_world))
  = [handed_over 0 meta ["dag"; "run"; "1.log"]] /\
  Remote.log_relative_path (handed_over 0 meta ["dag"; "run"; "1.log"])
  = "dag/run/1.log" /\
  upload_here (task_logger "/logs/dag/run/1.log" 1) meta task_world
  = (Return tt, task_world).
Proof.
  intros meta. split; [|split; [reflexivity|]].
  - destruct (upload_to_remote_hands_over structlog_NAME_TO_LEVEL true
                logging_dictConfig_raises core_configure_logging
                core_log_handler (Some "/logs")
                (task_logger "/logs/dag/run/1.log" 7) meta task_world)
      as (_ & _ & _ & [H|H]).
    + vm_compute in H. discriminate H.
    + destruct H as (raw & fh & name & folder & rel & id & s2 & Hl & Hf &
                     _ & Hname & Hbase & Hrel & Hload & Hout).
      unfold upload_here. rewrite Hout. simpl.
      injection Hl as <-. injection Hf as <-. injection Hname as <-.
      injection Hbase as <-. vm_compute in Hrel. injection Hrel as <-.
      vm_compute in Hload. injection Hload as <- _. reflexivity.
  - destruct (upload_to_remote_hands_over structlog_NAME_TO_LEVEL true
                logging_dictConfig_raises core_configure_logging
                core_log_handler (Some "/logs")
                (task_logger "/logs/dag/run/1.log" 1) meta task_world)
      as (_ & Hskip & _).
    eapply Hskip; [reflexivity|reflexivity|by left].
Defined.

(** A calendar server: the world counts the requests it has served. *)
Definition granted : Py.M nat Calendar.http := Py.ret 1.

Definition refused : Py.M nat Calendar.http :=
  Py.raise (OtherException "RefreshError").

Definition discovery (serviceName version : string) (t : Calendar.http)
    (cache_discovery : bool) : Py.M nat Calendar.service :=
  Py.ret 5.

Definition served {A} (r : result A) : Py.M nat A := fun w => (r, S w).

Definition first_page : dict :=
  [("items", VList [VStr "standup"; VStr "review"]);
   ("nextPageToken", VStr "p2")].

(** Two pages; the second has no token. *)
Definition two_pages (c : Calendar.service) (k : Calendar.EventsList.kwargs)
    (n : Z) : Py.M nat dict :=
  served
    match Calendar.EventsList.pageToken k with
    | VNone => Return first_page
    | VStr t =>
        if String.eqb t "p2" then Return [("items", VList [VStr "retro"])]
        else Raise (OtherException "HttpError")
    | _ => Raise (OtherException "HttpError")
    end.

(** The second page comes without "items". *)
Definition second_page_empty (c : Calendar.service)
    (k : Calendar.EventsList.kwargs) (n : Z) : Py.M nat dict :=
  served
    match Calendar.EventsList.pageToken k with
    | VNone => Return first_page
    | _ => Return [("kind", VStr "calendar#events")]
    end.

(** Every page names the next one. *)
Definition endless (c : Calendar.service) (k : Calendar.EventsList.kwargs)
    (n : Z) : Py.M nat dict :=
  served (Return [("items", VList []); ("nextPageToken", VStr "again")]).

Definition inserted (c : Calendar.service) (k : Calendar.EventsInsert.kwargs)
    (n : Z) : Py.M nat dict :=
  served (Return (("id", VStr "e1") :: Calendar.EventsInsert.body k)).

Definition new_hook : Calendar.hook nat := Calendar.__init__ "v3" 3 0.

Definition meeting : dict :=
  [("summary", VStr "sync"); ("start", VStr "10:00"); ("end", VStr "10:30")].

Lemma first_page_paged (h : Calendar.hook nat) :
  Calendar.outside h = 0 ->
  paged nat two_pages 5 Calendar.GetEvents.defaults (Calendar.num_retries h)
    VNone (Calendar.outside h)
    [(VNone, [VStr "standup"; VStr "review"])] (VStr "p2") 1.
Proof.
  intros ->. eapply paged_cons; cycle 2; [apply paged_nil| |reflexivity].
  exists first_page, (VList [VStr "standup"; VStr "review"]).
  repeat split; reflexivity.
Qed.

Lemma get_conn_memoised_witness :
  let connect := Calendar.get_conn granted discovery in
  let h := snd (connect new_hook) in
  let h1 :=
    snd (Calendar.create_event granted discovery inserted meeting
           Calendar.CreateEvent.defaults h) in
  let h2 :=
    match Calendar.get_events granted discovery two_pages 2
            Calendar.GetEvents.defaults h1 with
    | Some (_, h2) => h2
    | None => h1
    end in
  connect h2 = (Return 5, h2) /\ length (Calendar.calls h2) = 5.
Proof.
  intros connect h h1 h2. split; [|reflexivity].
  refine (proj1 (get_conn_memoised nat granted discovery two_pages inserted
                   new_hook h h2 5 eq_refl _)).
  eapply rtc_l.
  { eapply call_create_event with (event := meeting)
      (a := Calendar.CreateEvent.defaults). apply surjective_pairing. }
  eapply rtc_l; [|apply rtc_refl].
  eapply call_get_events with (fuel := 2) (a := Calendar.GetEvents.defaults)
    (r := Return [VStr "standup"; VStr "review"; VStr "retro"]).
  reflexivity.
Defined.

Lemma get_conn_failure_not_kept_witness :
  let h1 := snd (Calendar.get_conn refused discovery new_hook) in
  Calendar._conn h1 = None /\
  exists later,
    Calendar.calls (snd (Calendar.get_conn refused discovery h1))
    = Calendar.calls h1 ++ Calendar.Authorize :: later.
Proof.
  intros h1.
  destruct (get_conn_failure_not_kept nat refused discovery new_hook h1
              (OtherException "RefreshError") eq_refl) as (_ & H1 & _ & H2).
  by split.
Defined.

Lemma get_events_pages_witness :
  fst <$> Calendar.get_events granted discovery two_pages 2
            Calendar.GetEvents.defaults new_hook
  = Some (Return [VStr "standup"; VStr "review"; VStr "retro"]).
Proof.
  set (h1 := snd (Calendar.get_conn granted discovery new_hook)).
  rewrite (get_events_pages nat granted discovery two_pages new_hook h1 5
             Calendar.GetEvents.defaults
             [(VNone, [VStr "standup"; VStr "review"])] (VStr "p2") 1
             [VStr "retro"] VNone 2 2 eq_refl (first_page_paged h1 eq_refl)).
  - reflexivity.
  - exists [("items", VList [VStr "retro"])], (VList [VStr "retro"]).
    repeat split; reflexivity.
  - reflexivity.
  - simpl. lia.
Defined.

Lemma get_events_page_failure_witness :
  fst <$> Calendar.get_events granted discovery second_page_empty 2
            Calendar.GetEvents.defaults new_hook
  = Some (Raise (KeyError "items")).
Proof.
  set (h1 := snd (Calendar.get_conn granted discovery new_hook)).
  rewrite (get_events_page_failure nat granted discovery second_page_empty
             new_hook h1 5 Calendar.GetEvents.defaults
             [(VNone, [VStr "standup"; VStr "review"])] (VStr "p2") 1
             (KeyError "items") 2 2 eq_refl).
  - reflexivity.
  - eapply paged_cons; cycle 2; [apply paged_nil| |reflexivity].
    exists first_page, (VList [VStr "standup"; VStr "review"]).
    repeat split; reflexivity.
  - eapply items_missing; reflexivity.
  - simpl. lia.
Defined.

Lemma get_events_endless_witness :
  Calendar.get_events granted discovery endless 1000
    Calendar.GetEvents.defaults new_hook = None.
Proof.
  apply (get_events_endless nat granted discovery endless new_hook
           (snd (Calendar.get_conn granted discovery new_hook)) 5
           Calendar.GetEvents.defaults eq_refl).
  intros tok w. exists [], (VStr "again"), (S w). split; [|reflexivity].
  exists [("items", VList []); ("nextPageToken", VStr "again")], (VList []).
  repeat split; reflexivity.
Defined.

Lemma create_event_validates_witness :
  Calendar.create_event granted discovery inserted
    [("summary", VStr "sync"); ("start", VStr "10:00")]
    Calendar.CreateEvent.defaults new_hook
  = (Raise (OtherException "AirflowException"), new_hook).
Proof.
  apply (proj1 (create_event_validates nat granted discovery inserted
                  [("summary", VStr "sync"); ("start", VStr "10:00")]
                  Calendar.CreateEvent.defaults new_hook)).
  right. reflexivity.
Defined.
